(** * Export pipeline of the video export server

    A shallow embedding of the renderer sources:

    - [src/renderer/audio.ts]                       ([extractAudio]);
    - [src/renderer/ffmpeg.ts]                      ([mergeVideo]);
    - [src/renderer/ffmpegRenderer.ts]              ([renderVideoWithFFmpeg],
      module [FfmpegRenderer]);
    - [src/renderer/captureFrames.ts], in its two revisions:
      the one that maps storage URLs onto a local checkout
      (module [PathMapping]) and the one that stages remote assets
      into the job directory and cleans it up (module [AssetStaging]).

    JavaScript numbers that hold durations are rationals ([Q]); the
    values [NaN] and the infinities are kept apart where the code
    treats them apart.  The progress percentage is computed as the code
    computes it, in double precision, each operation rounding its
    result.  Asynchronous code is written in a small monad
    that threads the file system, collects the observable effects in
    order, and propagates exceptions. *)

From Stdlib Require Import Ascii QArith Qminmax Qround Qabs Qpower Lqa.
From stdpp Require Import base gmap sets list strings pretty.


(** ** JavaScript strings *)

Module JS.

(** [s.startsWith(p)] *)
Definition startsWith (s p : string) : bool := String.prefix p s.

(** [s.endsWith(p)] is not needed; [s.includes(sub)] is. *)
Fixpoint includes (s sub : string) : bool :=
  String.prefix sub s ||
  match s with
  | EmptyString => false
  | String _ s' => includes s' sub
  end.

(** Truthiness of a string: every string but the empty one. *)
Definition truthy (s : string) : bool :=
  match s with EmptyString => false | _ => true end.

(** Truthiness of an optional string property ([undefined] when absent). *)
Definition truthy_opt (o : option string) : bool :=
  match o with Some s => truthy s | None => false end.

(** [a || b] on optional string properties. *)
Definition or_else (a b : option string) : option string :=
  if truthy_opt a then a else b.

(** [s.split(sep)] for a non-empty separator.  [skip] counts the
    characters of a separator occurrence still to be dropped, [cur] is
    the piece under construction, reversed. *)
Fixpoint split_go (sep : string) (skip : nat) (cur : string) (s : string)
  : list string :=
  match s with
  | EmptyString => [String.rev cur]
  | String c s' =>
      match skip with
      | S k => split_go sep k cur s'
      | O =>
          if String.prefix sep s
          then String.rev cur :: split_go sep (String.length sep - 1) EmptyString s'
          else split_go sep O (String c cur) s'
      end
  end.

Definition split (s sep : string) : list string := split_go sep 0 EmptyString s.

(** [s.replace(/\\/g, '/')] *)
Fixpoint backslashes_to_slashes (s : string) : string :=
  match s with
  | EmptyString => EmptyString
  | String c s' =>
      String (if Ascii.eqb c "\"%char then "/"%char else c)
             (backslashes_to_slashes s')
  end.

End JS.

(** ** Scene descriptions

    The design is JSON; of an element only the properties the renderer
    reads or writes are kept.  An absent property is [None]. *)

Record SceneObject := mkObj {
  o_type : option string;
  o_customType : option string;
  o_src : option string;
  o_originalSrc : option string;
  o_muted : bool
}.

(** The parsed content of the [layers] field. *)
Record LayersData := mkLayers { l_objects : option (list SceneObject) }.

(** Laravel sends [layers] either as a JSON string or as an object. *)
Inductive Layers :=
| LayersText (s : string)
| LayersValue (d : LayersData).

Record Design := mkDesign {
  d_layers : option Layers;
  d_objects : option (list SceneObject)
}.

(** [if (design.layers)]: an object or a non-empty string. *)
Definition layers_truthy (l : option Layers) : bool :=
  match l with
  | Some (LayersText s) => JS.truthy s
  | Some (LayersValue _) => true
  | None => false
  end.

(** [obj.customType || obj.type] *)
Definition elementType (o : SceneObject) : option string :=
  JS.or_else (o_customType o) (o_type o).

Definition is_video (o : SceneObject) : bool :=
  bool_decide (elementType o = Some "video").

Definition set_src (o : SceneObject) (s : string) : SceneObject :=
  mkObj (o_type o) (o_customType o) (Some s) (o_originalSrc o) (o_muted o).

Definition set_originalSrc (o : SceneObject) (s : option string) : SceneObject :=
  mkObj (o_type o) (o_customType o) (o_src o) s (o_muted o).

Definition set_muted (o : SceneObject) (m : bool) : SceneObject :=
  mkObj (o_type o) (o_customType o) (o_src o) (o_originalSrc o) m.

(** ** The world outside the program *)

(** Paths that exist, files and directories alike. *)
Abbreviation FS := (gset string).

(** [path.join(a, b)] where nothing is to be normalised: [a] a
    directory name as [path.join] itself would give it and [b] one or
    more names other than the empty one, [.] and [..], for which the
    join is [a/b].  The export id is the one segment that comes from
    the request; properties that depend on the directory it names are
    stated for ids that are such a name. *)
Definition path_join (a b : string) : string := a +:+ "/" +:+ b.

(** [p] lies strictly inside directory [d]. *)
Definition is_inside (d p : string) : bool := String.prefix (d +:+ "/") p.

(** The directories above [p]: every non-empty proper prefix that ends
    right before a slash. [acc] is the prefix read so far, reversed. *)
Fixpoint parents_go (acc : string) (p : string) : list string :=
  match p with
  | EmptyString => []
  | String c p' =>
      (if Ascii.eqb c "/"%char && JS.truthy acc then [String.rev acc] else [])
      ++ parents_go (String c acc) p'
  end.

Definition parents (p : string) : list string := parents_go EmptyString p.

(** What [fetch] can do: reject, or resolve with a response whose [ok]
    flag tells a 2xx status from the others. *)
Inductive FetchResult :=
| NetworkError
| Response (ok : bool).

(** A JavaScript number: a finite value, or one that
    [Number.isFinite] rejects.  [ffprobe] prints seconds in decimal or
    the text [N/A], so [parseFloat] of its output is finite or [NaN]. *)
Inductive Num :=
| NaN
| Fin (q : Q).

(** What running [ffprobe] through [execSync] can do. *)
Inductive ProbeResult :=
| ProbeThrows
| ProbeOutput (parsed : Num).

(** The awaited calls into Puppeteer and the page, by call site. *)
Inductive BrowserCall :=
| Launch | NewPage | SetRequestInterception | Goto | WaitLoadDesign
| InjectSeek | LoadDesign | WaitDesignReady | WaitMetadata | SeekTest
| Close.

(** Everything the program asks of its environment.  Each field is the
    answer the environment gives at that call. *)
Record Env := mkEnv {
  (* Node library *)
  tmpdir : string;
  md5hex : string → string;
  path_extname : string → string;
  JSON_parse : string → option LayersData;
  JSON_stringify : LayersData → string;
  pathToFileURL : string → option string;
  LARAVEL_APP_URL : option string;
  (* file system calls that may reject *)
  mkdir_ok : string → bool;
  writeFile_ok : string → bool;
  readFile_ok : string → bool;
  unlink_ok : string → bool;
  rm_ok : string → bool;
  (* network *)
  fetch_asset : string → FetchResult;
  fetch_webhook : Z → string → FetchResult;
  fetch_upload : FetchResult;
  (* child processes *)
  ffprobe : string → ProbeResult;
  ffmpeg_audio_ok : string → bool;
  ffmpeg_frames : string → option nat;
  ffmpeg_merge_ok : bool;
  (* browser *)
  browser_ok : BrowserCall → bool;
  seek_ok : nat → bool;
  seek_test : bool * Q;
  first_video_diff : nat → option Q;
  all_video_diffs : nat → option (list Q);
  capture : nat → option (option string)
}.

(** ** Effects *)

Inductive Event :=
| EvMkdir (path : string)
| EvWriteFile (path : string)
| EvUnlink (path : string)
| EvRm (path : string)
| EvFetch (url : string)
| EvReport (progress : Z) (status : string)
| EvUpload (url : string)
| EvExtractAudio (src output : string)
| EvExtractFrames (video dir : string)
| EvMerge (framesDir : string) (audio : option string) (output : string)
| EvBrowser (c : BrowserCall)
| EvLoadDesign (d : Design)
| EvSeek (frame : nat)
| EvCapture (frame : nat)
| EvLog (what : string)
| EvWarn (what : string)
| EvError (what : string).

Inductive Error :=
| ErrFs (op path : string)
| ErrNetwork (url : string)
| ErrStatus (url : string)
| ErrJSON
| ErrBrowser (c : BrowserCall)
| ErrPage (frame : nat)
| ErrBuffer (frame : nat)
| ErrEncode
| ErrUploadFailed.

Inductive Outcome (A : Type) :=
| Ok (a : A)
| Throw (e : Error).
Arguments Ok {A} a.
Arguments Throw {A} e.

Record Run (A : Type) := mkRun {
  outcome : Outcome A;
  fs_after : FS;
  events : list Event
}.
Arguments mkRun {A} _ _ _.
Arguments outcome {A} _.
Arguments fs_after {A} _.
Arguments events {A} _.

(** A computation starts from a file system and ends with an outcome,
    the file system it leaves, and the effects it had, oldest first. *)
Definition M (A : Type) : Type := FS → Run A.

Definition ret {A} (a : A) : M A := λ fs, mkRun (Ok a) fs [].

Definition throw {A} (e : Error) : M A := λ fs, mkRun (Throw e) fs [].

Definition bind {A B} (m : M A) (k : A → M B) : M B := λ fs,
  let r := m fs in
  match outcome r with
  | Ok a =>
      let r' := k a (fs_after r) in
      mkRun (outcome r') (fs_after r') (events r ++ events r')
  | Throw e => mkRun (Throw e) (fs_after r) (events r)
  end.

(** [try { m } catch (e) { h e }] *)
Definition try_catch {A} (m : M A) (h : Error → M A) : M A := λ fs,
  let r := m fs in
  match outcome r with
  | Ok a => r
  | Throw e =>
      let r' := h e (fs_after r) in
      mkRun (outcome r') (fs_after r') (events r ++ events r')
  end.

(** [try { m } finally { f }]: [f] always runs; when it throws, its
    exception replaces the outcome of [m]. *)
Definition try_finally {A} (m : M A) (f : M unit) : M A := λ fs,
  let r := m fs in
  let r' := f (fs_after r) in
  mkRun (match outcome r' with
         | Ok _ => outcome r
         | Throw e => Throw e
         end)
        (fs_after r') (events r ++ events r').

Definition emit (e : Event) : M unit := λ fs, mkRun (Ok tt) fs [e].

Definition get_fs : M FS := λ fs, mkRun (Ok fs) fs [].

Definition existsSync (p : string) : M bool := λ fs,
  mkRun (Ok (bool_decide (p ∈ fs))) fs [].

Definition update_fs (f : FS → FS) : M unit := λ fs, mkRun (Ok tt) (f fs) [].

Notation "'let*' x ':=' m 'in' k" := (bind m (λ x, k))
  (at level 10, x name, m at level 100, k at level 200).
Notation "m '>>' k" := (bind m (λ _, k))
  (at level 200, right associativity).

Definition when (b : bool) (m : M unit) : M unit := if b then m else ret tt.

(** [for (const x of l) body(x)] *)
Fixpoint for_each {A} (l : list A) (body : A → M unit) : M unit :=
  match l with
  | [] => ret tt
  | x :: l' => body x >> for_each l' body
  end.

(** [for (const x of l)] where the body replaces the element *)
Fixpoint map_each {A} (l : list A) (body : A → M A) : M (list A) :=
  match l with
  | [] => ret []
  | x :: l' => let* y := body x in let* ys := map_each l' body in ret (y :: ys)
  end.

(** *** File system calls *)

Section FsCalls.
Context (env : Env).

(** [await mkdir(p, { recursive: true })] *)
Definition mkdir (p : string) : M unit :=
  emit (EvMkdir p) >>
  if mkdir_ok env p
  then update_fs (λ fs, {[p]} ∪ list_to_set (parents p) ∪ fs)
  else throw (ErrFs "mkdir" p).

(** [await writeFile(p, data)] *)
Definition writeFile (p : string) : M unit :=
  emit (EvWriteFile p) >>
  if writeFile_ok env p
  then update_fs (λ fs, {[p]} ∪ fs)
  else throw (ErrFs "writeFile" p).

(** [await readFile(p)] *)
Definition readFile (p : string) : M unit :=
  let* found := existsSync p in
  if found && readFile_ok env p then ret tt else throw (ErrFs "readFile" p).

(** [await unlink(p)] *)
Definition unlink (p : string) : M unit :=
  emit (EvUnlink p) >>
  if unlink_ok env p
  then update_fs (λ fs, fs ∖ {[p]})
  else throw (ErrFs "unlink" p).

(** [await rm(p, { recursive: true, force: true })]: the directory and
    everything inside it. *)
Definition rm (p : string) : M unit :=
  emit (EvRm p) >>
  if rm_ok env p
  then update_fs (λ fs, filter (λ q, q ≠ p ∧ is_inside p q = false) fs)
  else throw (ErrFs "rm" p).

End FsCalls.

(** ** Numbers *)

Definition Qltb (a b : Q) : bool := negb (Qle_bool b a).

(** [Math.max(a, b, c)] on numbers none of which is [NaN]. *)
Definition Math_max3 (a b c : Q) : Q := Qmax (Qmax a b) c.

(** [Math.round(x)]: the nearest integer, halves upwards. *)
Definition Math_round (x : Q) : Z := Qfloor (x + (1 # 2))%Q.

Definition Q_of_nat (n : nat) : Q := inject_Z (Z.of_nat n).

(** *** Double precision

    An arithmetic operation on JavaScript numbers gives the double
    nearest to the exact result: the nearest number with a significand
    of 53 bits, the one with the even significand of two that are
    equally near.  The numbers rounded here are quotients and products
    of frame counts, far from the ends of the exponent range, so that
    no overflow and no subnormal number has to be considered. *)

(** The integer nearest to [x], the even one of two equally near. *)
Definition round_half_even (x : Q) : Z :=
  let f := Qfloor x in
  match (x - inject_Z f ?= 1 # 2)%Q with
  | Lt => f
  | Gt => (f + 1)%Z
  | Eq => if Z.even f then f else (f + 1)%Z
  end.

(** The binary exponent [e] of a positive number: [2^e <= x < 2^(e+1)]. *)
Definition exponentOf (x : Q) : Z :=
  let e := (Z.log2 (Qnum x) - Z.log2 (Zpos (Qden x)))%Z in
  if Qle_bool (2 ^ e) x then e else (e - 1)%Z.

(** The double nearest to a positive number: its significand, scaled to
    53 bits, is rounded to an integer. *)
Definition nearest_double (x : Q) : Q :=
  let ulp := (2 ^ (exponentOf x - 52))%Q in
  (inject_Z (round_half_even (x / ulp)) * ulp)%Q.

(** The double nearest to [x]. *)
Definition toDouble (x : Q) : Q :=
  match (x ?= 0)%Q with
  | Eq => 0%Q
  | Gt => nearest_double x
  | Lt => (- nearest_double (- x))%Q
  end.

(** ** Code shared by both revisions of [captureFrames.ts] *)

Section Shared.
Context (env : Env).

(** [getMediaDuration]: [parseFloat(output) || 0], and [0] when
    [ffprobe] fails. *)
Definition getMediaDuration (filePath : string) : Q :=
  match ffprobe env filePath with
  | ProbeThrows => 0%Q
  | ProbeOutput NaN => 0%Q
  | ProbeOutput (Fin q) => if Qeq_bool q 0 then 0%Q else q
  end.

(** [frame_${i}.png] inside [dir] *)
Definition frame_path (dir : string) (i : nat) : string :=
  path_join dir ("frame_" +:+ pretty i +:+ ".png").

(** [extractVideoFramesWithFFmpeg].  The image muxer of [ffmpeg]
    numbers the files of the pattern [frame_%d.png] from 1. *)
Definition extractVideoFramesWithFFmpeg
    (videoPath : option string) (outputDir : string) (fps : Z) (duration : Q)
  : M bool :=
  try_catch
    (emit (EvLog "Attempting FFmpeg frame extraction as fallback") >>
     match videoPath with
     | None => emit (EvError "Video file not found") >> ret false
     | Some video =>
         let* found := existsSync video in
         if negb found
         then emit (EvError "Video file not found") >> ret false
         else
           let* have_dir := existsSync outputDir in
           when (negb have_dir) (mkdir env outputDir) >>
           emit (EvExtractFrames video outputDir) >>
           match ffmpeg_frames env video with
           | None => throw (ErrFs "execSync" "ffmpeg")
           | Some n =>
               update_fs (λ fs,
                 list_to_set (map (frame_path outputDir) (seq 1 n)) ∪ fs) >>
               ret true
           end
     end)
    (λ _, emit (EvError "FFmpeg frame extraction failed") >> ret false).

(** The [reportProgress] closure of [renderVideo].  In the frame loop
    it is called without [await]; the request is issued at the call
    all the same. *)
Definition reportProgress (exportId : string) (webhookUrl : option string)
    (progress : Z) (status : string) : M unit :=
  when (JS.truthy_opt webhookUrl)
    (emit (EvReport progress status) >>
     match fetch_webhook env progress status with
     | NetworkError => emit (EvError "Failed to report progress")
     | Response _ => ret tt
     end).

(** The body of the loop of [checkObjectsDuration]. *)
Definition raiseMax (fs : FS) (maxVideoDuration : Q) (obj : SceneObject) : Q :=
  match o_src obj with
  | Some src =>
      if is_video obj && JS.truthy src && bool_decide (src ∈ fs)
      then let d := getMediaDuration src in
           if Qltb maxVideoDuration d then d else maxVideoDuration
      else maxVideoDuration
  | None => maxVideoDuration
  end.

(** [checkObjectsDuration], run on [maxVideoDuration = 0]. *)
Definition checkObjectsDuration (fs : FS) (objects : list SceneObject) : Q :=
  fold_left (raiseMax fs) objects 0%Q.

(** [audioDuration]: probed only when extraction gave a path that exists. *)
Definition audioDurationOf (fs : FS) (audioPath : option string) : Q :=
  match audioPath with
  | Some p =>
      if JS.truthy p && bool_decide (p ∈ fs) then getMediaDuration p else 0%Q
  | None => 0%Q
  end.

(** The objects whose durations are probed: those of [layers] when the
    design has a [layers] field, else the top-level ones.  A [layers]
    string that does not parse throws. *)
Definition designObjectsOf (localDesign : Design) : M (list SceneObject) :=
  if layers_truthy (d_layers localDesign) then
    match d_layers localDesign with
    | Some (LayersText s) =>
        match JSON_parse env s with
        | Some layers => ret (default [] (l_objects layers))
        | None => throw ErrJSON
        end
    | Some (LayersValue layers) => ret (default [] (l_objects layers))
    | None => ret []
    end
  else ret (default [] (d_objects localDesign)).

Definition fps : Z := 24.

(** [Math.floor(duration * fps)] *)
Definition totalFramesOf (duration : Q) : Z := Qfloor (duration * inject_Z fps)%Q.

(** [Math.round((i / totalFrames) * 100)], evaluated inside the frame
    loop, where [0 <= i < totalFrames].  The quotient is rounded to a
    double and so is its product with 100; [Math.round] then is exact:
    for frame 115 of 200 the product is [57.49999999999999] and the
    percentage 57. *)
Definition progressOf (i : nat) (totalFrames : Z) : Z :=
  Math_round (toDouble (toDouble (Q_of_nat i / inject_Z totalFrames) * 100)).

End Shared.

(** ** [audio.ts] *)

Section Audio.
Context (env : Env).

(** The object list [extractAudio] searches; [None] where it gives up. *)
Definition audioObjects (design : Design) : option (list SceneObject) :=
  if layers_truthy (d_layers design) then
    match d_layers design with
    | Some (LayersText s) =>
        match JSON_parse env s with
        | Some parsedData => Some (default [] (l_objects parsedData))
        | None => None
        end
    | Some (LayersValue parsedData) => Some (default [] (l_objects parsedData))
    | None => None
    end
  else d_objects design.

Definition extractAudio (design : Design) (outputDir : option string)
  : M (option string) :=
  match audioObjects design with
  | None => ret None
  | Some objects =>
      match List.find is_video objects with
      | None => ret None
      | Some videoObj =>
          (* [videoObj.muted] is logged and otherwise ignored *)
          match o_src videoObj with
          | None => ret None
          | Some src =>
              if negb (JS.truthy src) then ret None
              else
                let dir := if JS.truthy_opt outputDir
                           then default "" outputDir else tmpdir env in
                let output := path_join dir "audio.aac" in
                emit (EvExtractAudio src output) >>
                if ffmpeg_audio_ok env src
                then update_fs (λ fs, {[output]} ∪ fs) >> ret (Some output)
                else emit (EvError "Failed to extract audio") >> ret None
          end
      end
  end.

End Audio.

(** ** [ffmpeg.ts] *)

Section Ffmpeg.
Context (env : Env).

Definition mergeOutputDir : string :=
  "../main/storage/app/public/exports/videos".

Definition mergeVideo (framesDir : string) (audio : option string)
    (exportId : string) : M unit :=
  let output := path_join mergeOutputDir (exportId +:+ ".mp4") in
  let* found := existsSync mergeOutputDir in
  when (negb found) (mkdir env mergeOutputDir) >>
  emit (EvMerge framesDir
          (if JS.truthy_opt audio then audio else None) output) >>
  if ffmpeg_merge_ok env
  then update_fs (λ fs, {[output]} ∪ fs)
  else emit (EvError "FFmpeg error") >> throw ErrEncode.

End Ffmpeg.

(** ** [captureFrames.ts], the revision that stages remote assets *)

Module AssetStaging.
Section Program.
Context (env : Env).

(** [cleanupExport] *)
Definition cleanupExport (exportId : string) : M unit :=
  let exportDir := path_join (tmpdir env) exportId in
  let* found := existsSync exportDir in
  when found
    (try_catch (rm env exportDir)
               (λ _, emit (EvError "Failed to cleanup directory"))).

(** The extension kept for a staged file: [extname(url).split('?')[0]],
    or [.bin] when that is empty or longer than five characters. *)
Definition asset_ext (url : string) : string :=
  let ext := hd "" (JS.split (path_extname env url) "?") in
  if negb (JS.truthy ext) || (5 <? String.length ext)%nat then ".bin" else ext.

Definition asset_path (url assetsDir : string) : string :=
  path_join assetsDir (md5hex env url +:+ asset_ext url).

(** [downloadAsset] *)
Definition downloadAsset (url assetsDir : string) : M string :=
  if negb (JS.truthy url) || negb (JS.startsWith url "http") then ret url
  else
    try_catch
      (let localPath := asset_path url assetsDir in
       let* found := existsSync localPath in
       if found then ret localPath
       else
         emit (EvFetch url) >>
         match fetch_asset env url with
         | NetworkError => throw (ErrNetwork url)
         | Response false => throw (ErrStatus url)
         | Response true => writeFile env localPath >> ret localPath
         end)
      (λ _, emit (EvError "Failed to download asset") >> ret url).

(** The body of the loop of [processObjects]. *)
Definition processObject (assetsDir : string) (obj : SceneObject)
  : M SceneObject :=
  match o_src obj with
  | Some src =>
      if JS.truthy src then
        let* localPath := downloadAsset src assetsDir in
        if JS.truthy localPath && negb (String.eqb localPath src) then
          let obj1 := set_src obj localPath in          (* obj.src = localPath *)
          ret (set_originalSrc obj1 (o_src obj1))       (* obj.originalSrc = obj.src *)
        else ret obj
      else ret obj
  | None => ret obj
  end.

Definition processObjects (assetsDir : string)
    (objects : option (list SceneObject)) : M (option (list SceneObject)) :=
  match objects with
  | None => ret None
  | Some l => let* l' := map_each l (processObject assetsDir) in ret (Some l')
  end.

(** [prepareDesignAssets].  The deep copy through JSON is the identity
    on the record. *)
Definition prepareDesignAssets (design : Design) (exportId : string)
  : M Design :=
  let assetsDir := path_join (path_join (tmpdir env) exportId) "assets" in
  let* found := existsSync assetsDir in
  when (negb found) (mkdir env assetsDir) >>
  let* layers' :=
    if layers_truthy (d_layers design) then
      match d_layers design with
      | Some (LayersText s) =>
          match JSON_parse env s with
          | Some layers =>
              let* objs := processObjects assetsDir (l_objects layers) in
              ret (Some (LayersText (JSON_stringify env (mkLayers objs))))
          | None =>
              emit (EvError "Errors parsing layers") >> ret (d_layers design)
          end
      | Some (LayersValue layers) =>
          let* objs := processObjects assetsDir (l_objects layers) in
          ret (Some (LayersValue (mkLayers objs)))
      | None => ret None
      end
    else ret (d_layers design) in
  let* objects' := processObjects assetsDir (d_objects design) in
  ret (mkDesign layers' objects').

(** [convertToBrowserPaths]: local paths become [file:] URLs. *)
Definition toBrowserPath (obj : SceneObject) : SceneObject :=
  match o_src obj with
  | Some src =>
      if JS.truthy src
         && negb (JS.startsWith src "http") && negb (JS.startsWith src "data:")
         && negb (JS.startsWith src "blob:") && negb (JS.startsWith src "file:")
      then match pathToFileURL env src with
           | Some href => set_src obj href
           | None => obj
           end
      else obj
  | None => obj
  end.

Definition convertToBrowserPaths (design : Design) : Design :=
  let layers' :=
    if layers_truthy (d_layers design) then
      match d_layers design with
      | Some (LayersText s) =>
          match JSON_parse env s with
          | Some layers =>
              Some (LayersText (JSON_stringify env
                      (mkLayers (map toBrowserPath <$> l_objects layers))))
          | None => d_layers design
          end
      | Some (LayersValue layers) =>
          Some (LayersValue (mkLayers (map toBrowserPath <$> l_objects layers)))
      | None => None
      end
    else d_layers design in
  mkDesign layers' (map toBrowserPath <$> d_objects design).

(** An awaited Puppeteer call. *)
Definition browser (c : BrowserCall) : M unit :=
  emit (EvBrowser c) >>
  if browser_ok env c then ret tt else throw (ErrBrowser c).

(** Lines 226-262: audio first, then the longest local video, then the
    floor of five seconds. *)
Definition resolveDuration (localDesign : Design) (baseDir : string)
  : M (option string * list SceneObject * Q) :=
  let* audioPath := extractAudio env localDesign (Some baseDir) in
  let* fs := get_fs in
  let audioDuration := audioDurationOf env fs audioPath in
  let* designObjects := designObjectsOf env localDesign in
  let maxVideoDuration := checkObjectsDuration env fs designObjects in
  let duration := Math_max3 maxVideoDuration audioDuration 5 in
  ret (audioPath, designObjects, duration).

(** One turn of the frame loop, lines 428-452.  The counters are the
    pair [(successfulSeeks, failedSeeks)]. *)
Definition captureFrame (exportId : string) (webhookUrl : option string)
    (framesDir : string) (totalFrames : Z) (i : nat) (seeks : nat * nat)
  : M (nat * nat) :=
  when (Nat.eqb (i mod 5) 0)
    (reportProgress env exportId webhookUrl (progressOf i totalFrames)
       "rendering_frames") >>
  emit (EvSeek i) >>
  (if seek_ok env i then ret tt else throw (ErrPage i)) >>
  let* seeks' :=
    if (i <? 5)%nat then
      match first_video_diff env i with
      | None => throw (ErrPage i)
      | Some accuracy =>
          if Qltb accuracy (1 # 2)
          then ret (S (fst seeks), snd seeks)
          else ret (fst seeks, S (snd seeks))
      end
    else ret seeks in
  emit (EvCapture i) >>
  match capture env i with
  | None => throw (ErrPage i)
  | Some None => throw (ErrBuffer i)
  | Some (Some dataUrl) =>
      match JS.split dataUrl "," !! 1%nat with
      | None => throw (ErrBuffer i)
      | Some _ => writeFile env (frame_path framesDir i) >> ret seeks'
      end
  end.

(** [for (let i = 0; i < totalFrames; i++)], over the indices still to do. *)
Fixpoint captureLoop (exportId : string) (webhookUrl : option string)
    (framesDir : string) (totalFrames : Z) (todo : list nat)
    (seeks : nat * nat) : M (nat * nat) :=
  match todo with
  | [] => ret seeks
  | i :: todo' =>
      let* seeks' := captureFrame exportId webhookUrl framesDir totalFrames i seeks in
      captureLoop exportId webhookUrl framesDir totalFrames todo' seeks'
  end.

Definition captureFrames (exportId : string) (webhookUrl : option string)
    (framesDir : string) (duration : Q) : M (nat * nat) :=
  let totalFrames := totalFramesOf duration in
  captureLoop exportId webhookUrl framesDir totalFrames
    (seq 0 (Z.to_nat totalFrames)) (0%nat, 0%nat).

(** Lines 454-461: the fallback check. *)
Definition fallbackCheck (designObjects : list SceneObject)
    (seeks : nat * nat) (framesDir : string) (duration : Q) : M unit :=
  let '(successfulSeeks, failedSeeks) := seeks in
  when (successfulSeeks <? failedSeeks)%nat
    (emit (EvWarn "High seek failure rate") >>
     match designObjects with
     | [obj] =>
         if bool_decide (o_type obj = Some "video") then
           extractVideoFramesWithFFmpeg env (o_src obj) framesDir fps duration >>
           ret tt
         else ret tt
     | _ => ret tt
     end).

Definition uploadUrl : string :=
  (if JS.truthy_opt (LARAVEL_APP_URL env)
   then default "" (LARAVEL_APP_URL env) else "http://localhost:8000")
  +:+ "/export/webhook/store".

(** Lines 463-490: merge, upload, final report. *)
Definition mergeAndUpload (exportId : string) (webhookUrl : option string)
    (baseDir framesDir : string) (audioPath : option string) : M unit :=
  reportProgress env exportId webhookUrl 90 "merging_video" >>
  mergeVideo env framesDir audioPath exportId >>
  reportProgress env exportId webhookUrl 95 "uploading" >>
  let videoPath := path_join baseDir (exportId +:+ ".mp4") in
  let* found := existsSync videoPath in
  if found then
    readFile env videoPath >>
    emit (EvUpload uploadUrl) >>
    match fetch_upload env with
    | NetworkError => throw (ErrNetwork uploadUrl)
    | Response false => throw ErrUploadFailed
    | Response true =>
        reportProgress env exportId webhookUrl 100 "completed"
    end
  else
    emit (EvError "Video file missing") >>
    reportProgress env exportId webhookUrl 100 "failed".

(** The [try] block of [renderVideo]. *)
Definition renderBody (design : Design) (exportId : string)
    (webhookUrl : option string) (baseDir framesDir : string) : M unit :=
  let* localDesign := prepareDesignAssets design exportId in
  let browserDesign := convertToBrowserPaths localDesign in
  let* resolved := resolveDuration localDesign baseDir in
  let '(audioPath, designObjects, duration) := resolved in
  browser NewPage >>
  browser SetRequestInterception >>
  browser Goto >>
  browser WaitLoadDesign >>
  browser InjectSeek >>
  emit (EvLoadDesign browserDesign) >>
  browser LoadDesign >>
  browser WaitDesignReady >>
  let* seeks := captureFrames exportId webhookUrl framesDir duration in
  fallbackCheck designObjects seeks framesDir duration >>
  mergeAndUpload exportId webhookUrl baseDir framesDir audioPath.

(** The [try { ... } catch (error) { ...; throw error }] of [renderVideo]. *)
Definition tryBlock (design : Design) (exportId : string)
    (webhookUrl : option string) : M unit :=
  let baseDir := path_join (tmpdir env) exportId in
  let framesDir := path_join baseDir "frames" in
  try_catch
    (renderBody design exportId webhookUrl baseDir framesDir)
    (λ error, emit (EvError "Fatal error in renderVideo") >> throw error).

(** Its [finally { await browser.close(); await cleanupExport(exportId) }]. *)
Definition finalizer (exportId : string) : M unit :=
  browser Close >> cleanupExport exportId.

Definition renderVideo (design : Design) (exportId : string)
    (webhookUrl : option string) : M unit :=
  let baseDir := path_join (tmpdir env) exportId in
  let framesDir := path_join baseDir "frames" in
  let* found := existsSync framesDir in
  when (negb found) (mkdir env framesDir) >>
  browser Launch >>
  try_finally (tryBlock design exportId webhookUrl) (finalizer exportId).

End Program.
End AssetStaging.

(** ** [captureFrames.ts], the revision that maps storage URLs onto a
    local checkout of the main project *)

Module PathMapping.
Section Program.
Context (env : Env).

Definition MAIN_PROJECT_PATH : string := "d:/Projects/clients/mosamem/main".

(** The part of the URL after [/storage/] (or [storage/]); empty when
    the URL has neither. *)
Definition relativePathOf (url : string) : string :=
  if JS.includes url "/storage/" then default "" (JS.split url "/storage/" !! 1%nat)
  else if JS.includes url "storage/" then default "" (JS.split url "storage/" !! 1%nat)
  else "".

Definition candidatesOf (relativePath : string) : list string :=
  [ path_join (path_join (path_join (path_join MAIN_PROJECT_PATH "storage") "app")
                 "public") relativePath;
    path_join (path_join (path_join MAIN_PROJECT_PATH "public") "storage")
      relativePath ].

(** [getLocalPath] *)
Definition getLocalPath (fs : FS) (url : string) : option string :=
  if negb (JS.truthy url) then None
  else
    let relativePath := relativePathOf url in
    if JS.truthy relativePath then
      List.find (λ normalized, bool_decide (normalized ∈ fs))
        (map JS.backslashes_to_slashes (candidatesOf relativePath))
    else None.

(** The body of the loop of [processObjects]. *)
Definition processObject (fs : FS) (obj : SceneObject) : SceneObject :=
  match o_src obj with
  | Some src =>
      if JS.truthy src then
        match getLocalPath fs src with
        | Some localPath =>
            if JS.truthy localPath then
              let obj1 := set_src obj localPath in       (* obj.src = localPath *)
              set_originalSrc obj1 (o_src obj1)          (* obj.originalSrc = obj.src *)
            else obj
        | None => obj
        end
      else obj
  | None => obj
  end.

(** [processDesignPaths] *)
Definition processDesignPaths (fs : FS) (design : Design) : Design :=
  let layers' :=
    if layers_truthy (d_layers design) then
      match d_layers design with
      | Some (LayersText s) =>
          match JSON_parse env s with
          | Some layers =>
              Some (LayersText (JSON_stringify env
                      (mkLayers (map (processObject fs) <$> l_objects layers))))
          | None => d_layers design
          end
      | Some (LayersValue layers) =>
          Some (LayersValue (mkLayers (map (processObject fs) <$> l_objects layers)))
      | None => None
      end
    else d_layers design in
  mkDesign layers' (map (processObject fs) <$> d_objects design).

Definition browser (c : BrowserCall) : M unit :=
  emit (EvBrowser c) >>
  if browser_ok env c then ret tt else throw (ErrBrowser c).

(** Lines 153-191. *)
Definition resolveDuration (localDesign : Design)
  : M (option string * list SceneObject * Q) :=
  let* audioPath := extractAudio env localDesign None in
  let* fs := get_fs in
  let audioDuration := audioDurationOf env fs audioPath in
  let* designObjects := designObjectsOf env localDesign in
  let maxVideoDuration := checkObjectsDuration env fs designObjects in
  let duration := Math_max3 maxVideoDuration audioDuration 5 in
  ret (audioPath, designObjects, duration).

(** The test at line 484 that lets a capture through. *)
Definition validDataUrl (dataUrl : option string) : bool :=
  match dataUrl with
  | Some s => JS.truthy s && JS.includes s "data:image"
  | None => false
  end.

(** One turn of the frame loop, lines 418-494. *)
Definition captureFrame (exportId : string) (webhookUrl : option string)
    (framesDir : string) (totalFrames : Z) (i : nat) (seeks : nat * nat)
  : M (nat * nat) :=
  when (Nat.eqb (i mod 5) 0)
    (reportProgress env exportId webhookUrl (progressOf i totalFrames)
       "rendering_frames") >>
  emit (EvSeek i) >>
  (if seek_ok env i then ret tt else throw (ErrPage i)) >>
  let* seeks' :=
    if (i <? 5)%nat then
      match all_video_diffs env i with
      | None => throw (ErrPage i)
      | Some videoStatus =>
          let allSuccessful := forallb (λ d, Qltb d (1 # 2)) videoStatus in
          if allSuccessful
          then ret (S (fst seeks), snd seeks)
          else ret (fst seeks, S (snd seeks))
      end
    else ret seeks in
  emit (EvCapture i) >>
  match capture env i with
  | None => throw (ErrPage i)
  | Some dataUrl =>
      if negb (validDataUrl dataUrl) then
        emit (EvWarn "invalid dataUrl") >> ret seeks'        (* continue *)
      else
        match JS.split (default "" dataUrl) "," !! 1%nat with
        | None => throw (ErrBuffer i)
        | Some _ => writeFile env (frame_path framesDir i) >> ret seeks'
        end
  end.

Fixpoint captureLoop (exportId : string) (webhookUrl : option string)
    (framesDir : string) (totalFrames : Z) (todo : list nat)
    (seeks : nat * nat) : M (nat * nat) :=
  match todo with
  | [] => ret seeks
  | i :: todo' =>
      let* seeks' := captureFrame exportId webhookUrl framesDir totalFrames i seeks in
      captureLoop exportId webhookUrl framesDir totalFrames todo' seeks'
  end.

Definition captureFrames (exportId : string) (webhookUrl : option string)
    (framesDir : string) (duration : Q) : M (nat * nat) :=
  let totalFrames := totalFramesOf duration in
  captureLoop exportId webhookUrl framesDir totalFrames
    (seq 0 (Z.to_nat totalFrames)) (0%nat, 0%nat).

(** [(successfulSeeks / (successfulSeeks + failedSeeks)) * 100] *)
Definition accuracyOf (seeks : nat * nat) : Q :=
  (Q_of_nat (fst seeks) / Q_of_nat (fst seeks + snd seeks) * 100)%Q.

(** Lines 505-511: the single video with a source on disk, if any. *)
Definition fallbackVideo (fs : FS) (designObjects : list SceneObject)
  : option string :=
  match designObjects with
  | [obj] =>
      match o_src obj with
      | Some src =>
          if is_video obj && JS.truthy src && bool_decide (src ∈ fs)
          then Some src else None
      | None => None
      end
  | _ => None
  end.

(** Lines 496-527.  The result says whether the fallback succeeded, in
    which case [renderVideo] merges and returns at once. *)
Definition fallbackCheck (designObjects : list SceneObject)
    (seeks : nat * nat) (framesDir : string) (duration : Q) : M bool :=
  if (0 <? fst seeks + snd seeks)%nat then
    if Qltb (accuracyOf seeks) 50 then
      emit (EvWarn "Low seeking accuracy detected") >>
      let* fs := get_fs in
      match fallbackVideo fs designObjects with
      | Some videoPath =>
          if Qltb (accuracyOf seeks) 20 then
            let* ffmpegSuccess :=
              extractVideoFramesWithFFmpeg env (Some videoPath) framesDir fps duration in
            if ffmpegSuccess then ret true
            else emit (EvWarn "FFmpeg fallback also failed") >> ret false
          else ret false
      | None => ret false
      end
    else ret false
  else ret false.

Definition uploadUrl : string :=
  (if JS.truthy_opt (LARAVEL_APP_URL env)
   then default "" (LARAVEL_APP_URL env) else "http://localhost:8000")
  +:+ "/export/webhook/store".

(** Lines 533-583: upload, final report, removal of the merged file. *)
Definition upload (exportId : string) (webhookUrl : option string)
    (videoPath : string) : M unit :=
  let* found := existsSync videoPath in
  if found then
    try_catch
      (readFile env videoPath >>
       emit (EvUpload uploadUrl) >>
       match fetch_upload env with
       | NetworkError => throw (ErrNetwork uploadUrl)
       | Response false =>
           emit (EvError "Upload failed response") >> throw ErrUploadFailed
       | Response true =>
           reportProgress env exportId webhookUrl 100 "completed"
       end)
      (λ error,
         emit (EvError "Upload failed") >>
         reportProgress env exportId webhookUrl 100 "failed" >>
         throw error) >>
    try_catch (unlink env videoPath) (λ _, emit (EvError "Cleanup failed"))
  else
    emit (EvError "Video file not found after merge") >>
    reportProgress env exportId webhookUrl 100 "failed".

(** The [try] block of [renderVideo], lines 262-584. *)
Definition renderBody (design : Design) (exportId : string)
    (webhookUrl : option string) (framesDir : string)
    (audioPath : option string) (designObjects : list SceneObject)
    (duration : Q) : M unit :=
  browser Goto >>
  browser WaitLoadDesign >>
  browser InjectSeek >>
  emit (EvLoadDesign design) >>
  browser LoadDesign >>
  browser WaitDesignReady >>
  try_catch (browser WaitMetadata)
            (λ _, emit (EvWarn "Wait for video metadata timed out")) >>
  browser SeekTest >>
  when (negb (fst (seek_test env)) && Qltb 1 (snd (seek_test env)))
       (emit (EvWarn "Video seeking has significant issues")) >>
  let* seeks := captureFrames exportId webhookUrl framesDir duration in
  let* done := fallbackCheck designObjects seeks framesDir duration in
  if done then mergeVideo env framesDir audioPath exportId
  else
    reportProgress env exportId webhookUrl 90 "merging_video" >>
    mergeVideo env framesDir audioPath exportId >>
    reportProgress env exportId webhookUrl 95 "uploading" >>
    (* join(framesDir, '..', `${exportId}.mp4`) *)
    upload exportId webhookUrl (path_join (tmpdir env) (exportId +:+ ".mp4")).

Definition renderVideo (design : Design) (exportId : string)
    (webhookUrl : option string) : M unit :=
  let framesDir := path_join (tmpdir env) exportId in
  let* found := existsSync framesDir in
  when (negb found) (mkdir env framesDir) >>
  let* fs := get_fs in
  let localDesign := processDesignPaths fs design in
  let* resolved := resolveDuration localDesign in
  let '(audioPath, designObjects, duration) := resolved in
  browser Launch >>
  browser NewPage >>
  browser SetRequestInterception >>
  try_finally
    (try_catch
       (renderBody design exportId webhookUrl framesDir audioPath
          designObjects duration)
       (λ error, emit (EvError "Error in renderVideo") >> throw error))
    (browser Close).

End Program.
End PathMapping.

(** ** The seek function injected into the page

    Time inside the page is counted in milliseconds from the call.  Of a
    video element the model keeps its position and how long its player
    takes to answer a seek with the [seeked] event, if it answers at all. *)

Module Seek.

Record Video := mkVideo {
  currentTime : Q;
  seeked_after : option N
}.

(** What the executor of one [new Promise] has done when it returns. *)
Record Executed := mkExecuted {
  resolved_now : bool;          (* [resolve()] was called synchronously *)
  timer : option N;             (* delay of the [setTimeout] that resolves *)
  listening : bool;             (* a [seeked] listener that resolves *)
  assigned : option Q           (* [v.currentTime = time] *)
}.

(** The executor at lines 380-394. *)
Definition seekExecutor (time : Q) (v : Video) : Executed :=
  if Qltb (Qabs (currentTime v - time)) (1 # 20)
  then mkExecuted true None false None
  else mkExecuted false (Some 2000%N) true (Some time).

Definition opt_min (a b : option N) : option N :=
  match a, b with
  | Some x, Some y => Some (N.min x y)
  | Some x, None => Some x
  | None, b => b
  end.

(** When the promise settles; [None] when it never does. *)
Definition settles_at (v : Video) (e : Executed) : option N :=
  if resolved_now e then Some 0%N
  else opt_min (timer e)
               (if listening e && bool_decide (is_Some (assigned e))
                then seeked_after v else None).

(** [Promise.all]: settled when the last one is. *)
Fixpoint all_settled (l : list (option N)) : option N :=
  match l with
  | [] => Some 0%N
  | t :: l' =>
      match t, all_settled l' with
      | Some a, Some b => Some (N.max a b)
      | _, _ => None
      end
  end.

(** [window.__SEEK_VIDEO__] of the asset-staging revision: when the
    call returns. *)
Definition SEEK_VIDEO (time : Q) (videos : list Video) : option N :=
  match videos with
  | [] => Some 0%N
  | _ => all_settled (map (λ v, settles_at v (seekExecutor time v)) videos)
  end.

(** The path-mapping revision first turns away a time that is not finite. *)
Definition SEEK_VIDEO_guarded (time : Num) (videos : list Video) : option N :=
  match time with
  | NaN => Some 0%N
  | Fin t => SEEK_VIDEO t videos
  end.

End Seek.

(** ** Concrete environments *)

Module Scenario.

Definition clipUrl : string := "https://cdn.example.com/media/clip.mp4".

(** An environment given by the answers that differ between the
    scenarios; every other call succeeds.  The library functions are
    tabulated on the one URL the scenarios use. *)
Definition world (asset upload : FetchResult) (launch : bool)
    (captured : nat → option (option string)) (diff : nat → Q)
    (removal : bool) : Env := {|
  tmpdir := "/tmp";
  md5hex := λ url,
    if String.eqb url clipUrl then "1de7448b8977f4615a7dcb86f0e24603"
    else "d41d8cd98f00b204e9800998ecf8427e";
  path_extname := λ url, if String.eqb url clipUrl then ".mp4" else "";
  JSON_parse := λ _, None;
  JSON_stringify := λ _, "{}";
  pathToFileURL := λ p, Some ("file://" +:+ p);
  LARAVEL_APP_URL := None;
  mkdir_ok := λ _, true;
  writeFile_ok := λ _, true;
  readFile_ok := λ _, true;
  unlink_ok := λ _, true;
  rm_ok := λ _, removal;
  fetch_asset := λ _, asset;
  fetch_webhook := λ _ _, Response true;
  fetch_upload := upload;
  ffprobe := λ _, ProbeOutput (Fin 8);
  ffmpeg_audio_ok := λ _, true;
  ffmpeg_frames := λ _, Some 192%nat;
  ffmpeg_merge_ok := true;
  browser_ok := λ c, match c with Launch => launch | _ => true end;
  seek_ok := λ _, true;
  seek_test := (true, 0%Q);
  first_video_diff := λ i, Some (diff i);
  all_video_diffs := λ i, Some [diff i];
  capture := captured
|}.

Definition png : option (option string) :=
  Some (Some "data:image/png;base64,iVBORw0KGgo=").

(** Every call succeeds. *)
Definition calm : Env :=
  world (Response true) (Response true) true (λ _, png) (λ _, 0%Q) true.

(** The asset host cannot be reached. *)
Definition offline : Env :=
  world NetworkError (Response true) true (λ _, png) (λ _, 0%Q) true.

(** The storage endpoint answers with an error status. *)
Definition uploadRejected : Env :=
  world (Response true) (Response false) true (λ _, png) (λ _, 0%Q) true.

(** The browser cannot be started. *)
Definition noBrowser : Env :=
  world (Response true) (Response true) false (λ _, png) (λ _, 0%Q) true.

(** The stage hands back an empty capture for frame 3. *)
Definition blankThird : Env :=
  world (Response true) (Response true) true
        (λ i, if Nat.eqb i 3 then Some (Some "") else png) (λ _, 0%Q) true.

(** No seek lands within half a second of its target. *)
Definition drifting : Env :=
  world (Response true) (Response true) true (λ _, png) (λ _, 2%Q) true.

Definition clip : SceneObject :=
  mkObj (Some "video") None (Some clipUrl) None false.

(** [clip] as staging returns it. *)
Definition stagedClip : SceneObject :=
  mkObj (Some "video") None
    (Some "/tmp/job1/assets/1de7448b8977f4615a7dcb86f0e24603.mp4")
    (Some "/tmp/job1/assets/1de7448b8977f4615a7dcb86f0e24603.mp4") false.

Definition silentStill : SceneObject :=
  mkObj (Some "video") None None None false.

Definition oneClip : Design := mkDesign None (Some [clip]).

Definition caption : SceneObject := mkObj (Some "text") None None None false.

(** A local video that the editor has muted. *)
Definition talk : SceneObject :=
  mkObj (Some "video") None (Some "/srv/media/talk.mp4") None true.

Definition mutedTalk : Design := mkDesign None (Some [caption; talk]).

(** A temp directory in which the merged video of job [job1] lies. *)
Definition merged : FS := {[ "/tmp"; "/tmp/job1"; "/tmp/job1/job1.mp4" ]}.

End Scenario.

(** ** Vocabulary of the properties *)

(** A remote reference, as [downloadAsset] recognises it. *)
Definition remote (url : string) : bool :=
  JS.truthy url && JS.startsWith url "http".

(** The paths written with [writeFile], in order. *)
Definition written (evs : list Event) : list string :=
  omap (λ e, match e with EvWriteFile p => Some p | _ => None end) evs.

(** The URLs fetched as assets, in order. *)
Definition fetched (evs : list Event) : list string :=
  omap (λ e, match e with EvFetch u => Some u | _ => None end) evs.

(** Staging a remote reference twice gives the same local path twice and
    downloads nothing the second time. *)
Definition staging_idempotent (env : Env) (url assetsDir : string) (fs : FS)
  : Prop :=
  remote url = true →
  let first := AssetStaging.downloadAsset env url assetsDir fs in
  let second := AssetStaging.downloadAsset env url assetsDir (fs_after first) in
  outcome first = Ok (AssetStaging.asset_path env url assetsDir)
  ∧ outcome second = Ok (AssetStaging.asset_path env url assetsDir)
  ∧ fetched (events second) = [].

(** [extractAudio] takes the audio of the first video element that has a
    source, and returns [null] when there is none. *)
Definition audio_of_first_playable (env : Env) (design : Design)
    (outputDir : option string) (fs : FS) : Prop :=
  ∀ objects, audioObjects env design = Some objects →
    let r := extractAudio env design outputDir fs in
    match List.find (λ o, is_video o && JS.truthy_opt (o_src o)) objects with
    | Some v => ∃ output, EvExtractAudio (default "" (o_src v)) output ∈ events r
    | None => outcome r = Ok None
    end.

(** The same objects, with the [muted] flags set by [f]. *)
Definition remuted (f : SceneObject → bool) (objects : list SceneObject)
  : list SceneObject :=
  map (λ o, set_muted o (f o)) objects.

(** Where [extractAudio] writes. *)
Definition audioOutput (env : Env) (outputDir : option string) : string :=
  path_join (if JS.truthy_opt outputDir then default "" outputDir else tmpdir env)
            "audio.aac".

(** The source of a video element whose local file exists. *)
Definition localVideoSource (fs : FS) (o : SceneObject) : option string :=
  match o_src o with
  | Some src =>
      if is_video o && JS.truthy src && bool_decide (src ∈ fs)
      then Some src else None
  | None => None
  end.

(** The probed durations of the video elements whose local file exists. *)
Definition probedDurations (env : Env) (fs : FS) (objects : list SceneObject)
  : list Q :=
  map (getMediaDuration env) (omap (localVideoSource fs) objects).

(** [m] is the greatest of the numbers [l]. *)
Definition greatest (m : Q) (l : list Q) : Prop :=
  Forall (λ x, (x <= m)%Q) l ∧ In m l.

(** The elements of a scene: those of its [layers] field, read as JSON
    when it is a string, and the top-level ones when the scene has no
    [layers] (or the empty string for it). *)
Inductive scene_elements (env : Env) (design : Design)
  : list SceneObject → Prop :=
| elements_top_level :
    d_layers design = None ∨ d_layers design = Some (LayersText "") →
    scene_elements env design (default [] (d_objects design))
| elements_of_layers layers :
    d_layers design = Some (LayersValue layers) →
    scene_elements env design (default [] (l_objects layers))
| elements_of_text s layers :
    d_layers design = Some (LayersText s) → s ≠ "" →
    JSON_parse env s = Some layers →
    scene_elements env design (default [] (l_objects layers)).

(** What probing a file gives: the seconds [ffprobe] prints, and 0 when
    it fails or prints no number. *)
Definition probed (env : Env) (file : string) (seconds : Q) : Prop :=
  match ffprobe env file with
  | ProbeOutput (Fin q) => (seconds == q)%Q
  | _ => seconds = 0%Q
  end.

(** The duration of the extracted audio track: the probed duration of
    the file when extraction gave a path and the file exists, else 0. *)
Definition trackDuration (env : Env) (disk : FS) (audioPath : option string)
    (seconds : Q) : Prop :=
  match audioPath with
  | Some file =>
      ((file ∈ disk) ∧ seconds = getMediaDuration env file)
      ∨ ((file ∉ disk) ∧ seconds = 0%Q)
  | None => seconds = 0%Q
  end.

(** What duration resolution promises about its run [r] on the scene
    [localDesign], started in the file system [fs]: the run changes the
    file system as audio extraction does; when it returns, it returns
    the path audio extraction gave, the elements of the scene, and the
    greatest of 5, the duration of the audio track and the probed
    durations of the scene's video elements whose file exists; it
    throws only for a scene whose [layers] string is not JSON. *)
Definition resolves_to_maximum (env : Env) (localDesign : Design)
    (outputDir : option string) (fs : FS)
    (r : Run (option string * list SceneObject * Q)) : Prop :=
  let heard := extractAudio env localDesign outputDir fs in
  let disk := fs_after heard in
  fs_after r = disk
  ∧ match outcome r with
    | Ok (audioPath, designObjects, duration) =>
        outcome heard = Ok audioPath
        ∧ scene_elements env localDesign designObjects
        ∧ ∃ maxVideoDuration audioDuration,
            greatest maxVideoDuration
              (0%Q :: probedDurations env disk designObjects)
            ∧ trackDuration env disk audioPath audioDuration
            ∧ duration = Math_max3 maxVideoDuration audioDuration 5
            ∧ greatest duration
                (5%Q :: audioDuration :: probedDurations env disk designObjects)
            ∧ (5 <= duration)%Q
    | Throw e =>
        e = ErrJSON ∧ ∀ objects, ¬ scene_elements env localDesign objects
    end.

(** The progress reports sent to the webhook, in order. *)
Definition reported (evs : list Event) : list (Z * string) :=
  omap (λ e, match e with EvReport p st => Some (p, st) | _ => None end) evs.

(** An event other than a report of the status [failed]. *)
Definition not_failed_report (e : Event) : Prop :=
  ∀ progress, e ≠ EvReport progress "failed".

(** A computation that reports no failure and never throws the error of
    a rejected upload. *)
Definition discreet {A} (m : M A) : Prop :=
  ∀ fs, Forall not_failed_report (events (m fs))
        ∧ outcome (m fs) ≠ Throw ErrUploadFailed.

(** What holds of the effects of a run that ends with the error of a
    rejected upload. *)
Definition on_rejection {A} (Φ : list Event → Prop) (m : M A) : Prop :=
  ∀ fs, outcome (m fs) = Throw ErrUploadFailed → Φ (events (m fs)).

(** The job's working directory no longer exists when the run is over. *)
Definition workdir_gone {A} (env : Env) (exportId : string) (r : Run A) : Prop :=
  path_join (tmpdir env) exportId ∉ fs_after r.

(** The file system in which the [try] block of the staging revision
    starts, when the frames directory could be made. *)
Definition entry_fs (env : Env) (exportId : string) (fs : FS) : FS :=
  let framesDir := path_join (path_join (tmpdir env) exportId) "frames" in
  if bool_decide (framesDir ∈ fs) then fs
  else {[framesDir]} ∪ list_to_set (parents framesDir) ∪ fs.

(** The run of the [try] block of the staging revision. *)
Definition stagingAttempt (env : Env) (design : Design) (exportId : string)
    (webhookUrl : option string) (fs : FS) : Run unit :=
  AssetStaging.tryBlock env design exportId webhookUrl (entry_fs env exportId fs).

(** The frame indices sought, in order. *)
Definition sought (evs : list Event) : list nat :=
  omap (λ e, match e with EvSeek i => Some i | _ => None end) evs.

(** Frame [i] is captured as a string that passes the test of the
    path-mapping revision. *)
Definition capturedValid (env : Env) (i : nat) : bool :=
  match capture env i with
  | Some dataUrl => PathMapping.validDataUrl dataUrl
  | None => false
  end.

(** A frame loop that returns has written the frame files of the
    indices [0 .. totalFrames - 1], each once, in order. *)
Definition frames_persisted (loop : M (nat * nat)) (framesDir : string)
    (duration : Q) (fs : FS) : Prop :=
  ∀ seeks, outcome (loop fs) = Ok seeks →
    written (events (loop fs))
    = map (frame_path framesDir)
          (seq 0 (Z.to_nat (Qfloor (duration * 24)))).

(** The run got as far as calling the encoder. *)
Definition reached_merge (evs : list Event) : bool :=
  existsb (λ e, match e with EvMerge _ _ _ => true | _ => false end) evs.

(** The fallback extraction was called. *)
Definition fallback_invoked (evs : list Event) : bool :=
  existsb (λ e, match e with
                | EvLog what =>
                    String.eqb what "Attempting FFmpeg frame extraction as fallback"
                | _ => false
                end) evs.

(** [successes / (successes + failures)] over the sampled frames. *)
Definition successRatio (seeks : nat * nat) : Q :=
  (Q_of_nat (fst seeks) / Q_of_nat (fst seeks + snd seeks))%Q.

(** Frames were sampled and the success ratio is below [threshold]. *)
Definition ratio_below (seeks : nat * nat) (threshold : Q) : Prop :=
  (0 < fst seeks + snd seeks)%nat ∧ (successRatio seeks < threshold)%Q.

(** The scene is one element, and that element is a video. *)
Definition single_video (objects : list SceneObject) : Prop :=
  ∃ obj, objects = [obj] ∧ is_video obj = true.

(** The fallback is called exactly when the ratio is below the threshold
    and the scene is a single video. *)
Definition fallback_iff {A} (threshold : Q) (check : M A)
    (objects : list SceneObject) (seeks : nat * nat) (fs : FS) : Prop :=
  fallback_invoked (events (check fs)) = true
  ↔ ratio_below seeks threshold ∧ single_video objects.

(** The effects of a staging run whose upload was rejected: the upload
    request was sent, the answer was not a success, and no report of the
    status [failed] was sent. *)
Definition rejected_unreported (env : Env) (evs : list Event) : Prop :=
  Forall not_failed_report evs
  ∧ fetch_upload env = Response false
  ∧ EvUpload (AssetStaging.uploadUrl env) ∈ evs.

(** ** Vocabulary of further properties *)

(** The upload requests sent, in order. *)
Definition uploaded (evs : list Event) : list string :=
  omap (λ e, match e with EvUpload u => Some u | _ => None end) evs.

(** The encoder runs, in order: frames directory, audio input, output. *)
Definition merges (evs : list Event) : list (string * option string * string) :=
  omap (λ e, match e with EvMerge d a o => Some (d, a, o) | _ => None end) evs.

(** The runs of [ffmpeg] that extract frames, in order. *)
Definition frameExtractions (evs : list Event) : list (string * string) :=
  omap (λ e, match e with EvExtractFrames v d => Some (v, d) | _ => None end) evs.

(** Where [mergeVideo] puts the video of a job. *)
Definition mergeOutput (exportId : string) : string :=
  path_join mergeOutputDir (exportId +:+ ".mp4").

(** Staging keeps what an element is: its kind, its mute flag, and
    whether it has a source. *)
Definition same_element (o o' : SceneObject) : Prop :=
  o_type o' = o_type o ∧ o_customType o' = o_customType o
  ∧ o_muted o' = o_muted o ∧ (is_Some (o_src o') ↔ is_Some (o_src o)).

(** The directory into which the assets of a job are staged. *)
Definition assetsDirOf (env : Env) (exportId : string) : string :=
  path_join (path_join (tmpdir env) exportId) "assets".

(** [o'] is [o] after staging: the same element, whose source is the one
    it had or a file that exists in [fs]. *)
Definition staged_from (fs : FS) (o o' : SceneObject) : Prop :=
  same_element o o'
  ∧ (o_src o' = o_src o ∨ ∃ p, o_src o' = Some p ∧ p ∈ fs).

(** The progress reports of a frame loop over the indices [todo]: one
    for every index that is a multiple of five, when a webhook is
    configured. *)
Definition frameReports (webhookUrl : option string) (totalFrames : Z)
    (todo : list nat) : list (Z * string) :=
  if JS.truthy_opt webhookUrl
  then map (λ i, (progressOf i totalFrames, "rendering_frames"))
           (List.filter (λ i, Nat.eqb (i mod 5) 0) todo)
  else [].

(** How many of the indices [todo] are among the first five frames, the
    ones on which the loop samples the accuracy of seeking. *)
Definition sampled (todo : list nat) : nat :=
  length (List.filter (λ i, (i <? 5)%nat) todo).

(** A computation that deletes no path of which [P] holds. *)
Definition keeps {A} (P : string → Prop) (m : M A) : Prop :=
  ∀ fs p, p ∈ fs → P p → p ∈ fs_after (m fs).

(** A path that is neither the directory [dir] nor inside it. *)
Definition outside (dir p : string) : Prop :=
  p ≠ dir ∧ is_inside dir p = false.

(** A path segment for which [path.join] is plain concatenation: a name
    without a slash that is neither empty nor [.] nor [..]. *)
Definition plain_segment (s : string) : Prop :=
  JS.includes s "/" = false ∧ s ≠ "" ∧ s ≠ "." ∧ s ≠ "..".

(** Where the path-mapping revision looks for the merged video. *)
Definition mappedVideoPath (env : Env) (exportId : string) : string :=
  path_join (tmpdir env) (exportId +:+ ".mp4").

(** The calls into Puppeteer, in order. *)
Definition browserCalls (evs : list Event) : list BrowserCall :=
  omap (λ e, match e with EvBrowser c => Some c | _ => None end) evs.

(** A computation that makes no call into Puppeteer. *)
Definition headless {A} (m : M A) : Prop :=
  ∀ fs, browserCalls (events (m fs)) = [].

(** [env], with a browser that answers its calls as [answers] says. *)
Definition with_browser (env : Env) (answers : BrowserCall → bool) : Env := {|
  tmpdir := tmpdir env;
  md5hex := md5hex env;
  path_extname := path_extname env;
  JSON_parse := JSON_parse env;
  JSON_stringify := JSON_stringify env;
  pathToFileURL := pathToFileURL env;
  LARAVEL_APP_URL := LARAVEL_APP_URL env;
  mkdir_ok := mkdir_ok env;
  writeFile_ok := writeFile_ok env;
  readFile_ok := readFile_ok env;
  unlink_ok := unlink_ok env;
  rm_ok := rm_ok env;
  fetch_asset := fetch_asset env;
  fetch_webhook := fetch_webhook env;
  fetch_upload := fetch_upload env;
  ffprobe := ffprobe env;
  ffmpeg_audio_ok := ffmpeg_audio_ok env;
  ffmpeg_frames := ffmpeg_frames env;
  ffmpeg_merge_ok := ffmpeg_merge_ok env;
  browser_ok := answers;
  seek_ok := seek_ok env;
  seek_test := seek_test env;
  first_video_diff := first_video_diff env;
  all_video_diffs := all_video_diffs env;
  capture := capture env
|}.

(** Every call succeeds, but the browser does not close. *)
Definition stuckBrowser : Env :=
  with_browser Scenario.calm (λ c, match c with Close => false | _ => true end).

(** Every call succeeds, but the browser opens no page. *)
Definition noPage : Env :=
  with_browser Scenario.calm (λ c, match c with NewPage => false | _ => true end).

(** The files [unlink] was called on, in order. *)
Definition unlinked (evs : list Event) : list string :=
  omap (λ e, match e with EvUnlink p => Some p | _ => None end) evs.

(** A computation all of whose effects satisfy [Q]. *)
Definition quiet {A} (Q : Event → Prop) (m : M A) : Prop :=
  ∀ fs, Forall Q (events (m fs)).

(** What may happen while frames are captured: no frame extraction by
    [ffmpeg], no upload, and no report but those of the frame loop. *)
Definition capturing (e : Event) : Prop :=
  match e with
  | EvExtractFrames _ _ | EvUpload _ => False
  | EvReport _ status => status = "rendering_frames"
  | _ => True
  end.

(** Anything but a frame extraction by [ffmpeg]. *)
Definition no_extraction (e : Event) : Prop :=
  match e with EvExtractFrames _ _ => False | _ => True end.

(** Anything but an upload or a progress report. *)
Definition untold (e : Event) : Prop :=
  match e with EvUpload _ | EvReport _ _ => False | _ => True end.

(** A run in which [ffmpeg] extracted the frames of a video. *)
Definition extraction_succeeded {A} (env : Env) (r : Run A) : Prop :=
  ∃ video dir, (video, dir) ∈ frameExtractions (events r)
               ∧ is_Some (ffmpeg_frames env video).

(** The property of a run: if [ffmpeg] extracted the frames, nothing was
    uploaded and nothing reported but the progress of the frame loop. *)
Definition merged_in_silence {A} (env : Env) (r : Run A) : Prop :=
  extraction_succeeded env r →
  uploaded (events r) = []
  ∧ Forall (λ report, report.2 = "rendering_frames") (reported (events r)).

(** A computation that, started without the file [p], ends without it
    and uploads nothing. *)
Definition unready {A} (p : string) (m : M A) : Prop :=
  ∀ fs, p ∉ fs → (p ∉ fs_after (m fs)) ∧ uploaded (events (m fs)) = [].

(** Where the asset-staging revision looks for the merged video. *)
Definition stagedVideoPath (env : Env) (exportId : string) : string :=
  path_join (path_join (tmpdir env) exportId) (exportId +:+ ".mp4").

(** ** [ffmpegRenderer.ts]

    The renderer that hands the first video of the design to [ffmpeg].
    It reads more of an element than [captureFrames.ts] does, so it has
    its own view of the design. *)

Module FfmpegRenderer.

(** An object of the design, as [extractMediaElements] reads it.  A
    number property is absent or a number; JSON has no [NaN]. *)
Record DesignObject := mkDesignObject {
  visible : option bool;
  type : option string;
  customType : option string;
  src : option string;
  x : option Q;
  y : option Q;
  width : option Q;
  height : option Q;
  text : option string;
  fontSize : option Q;
  fill : option string
}.

Record Canvas := mkCanvas {
  c_width : option Q;
  c_height : option Q;
  c_backgroundColor : option string
}.

(** The parsed content of the [layers] field. *)
Record Parsed := mkParsed {
  p_objects : option (list DesignObject);
  p_canvas : option Canvas
}.

Inductive Layers :=
| LayersText (s : string)
| LayersValue (p : Parsed).

Record Design := mkDesign {
  d_layers : option Layers;
  d_objects : option (list DesignObject);
  d_canvas : option Canvas
}.

(** [interface MediaElement]; [startTime] and [endTime] are never set. *)
Record MediaElement := mkMediaElement {
  e_type : option string;
  e_src : option string;
  e_x : Q;
  e_y : Q;
  e_width : Q;
  e_height : Q;
  e_text : option string;
  e_fontSize : option Q;
  e_color : option string
}.

Record CanvasConfig := mkCanvasConfig {
  cc_width : Q;
  cc_height : Q;
  cc_backgroundColor : string
}.

(** How the [ffmpeg] process ends: the [close] event with its exit
    code, or the [error] event. *)
Inductive ProcessEnd :=
| Closed (code : Z)
| ProcessError.

(** What [renderVideoWithFFmpeg] rejects with. *)
Inductive Failure :=
| ParseFailure
| NoVideoElements
| FfmpegFailed (code : Z)
| SpawnFailed.

(** A call of [renderVideoWithFFmpeg]: the command it spawned, if it
    got that far, and how the promise settles. *)
Record Rendering := mkRendering {
  spawned : option (list string);
  settled : Failure + string
}.

(** [n || d] on a number property: [d] for an absent number and for 0. *)
Definition num_or (n : option Q) (d : Q) : Q :=
  match n with
  | Some q => if Qeq_bool q 0 then d else q
  | None => d
  end.

(** [s || d] on a string property. *)
Definition str_or (s : option string) (d : string) : string :=
  match s with
  | Some v => if JS.truthy v then v else d
  | None => d
  end.

(** [if (design.layers)] *)
Definition layers_truthy (l : option Layers) : bool :=
  match l with
  | Some (LayersText s) => JS.truthy s
  | Some (LayersValue _) => true
  | None => false
  end.

Section Program.
(** [JSON.parse], [None] where it throws or gives [null]; [String(n)],
    as a template literal prints a number; and the [ffmpeg] process. *)
Context (JSON_parse : string → option Parsed) (show : Q → string)
        (spawn : list string → ProcessEnd).

(** The content of [design.layers] when the design has one: [Some None]
    for a design without, [None] when parsing throws. *)
Definition parsedLayers (design : Design) : option (option Parsed) :=
  if layers_truthy (d_layers design) then
    match d_layers design with
    | Some (LayersText s) =>
        match JSON_parse s with
        | Some parsed => Some (Some parsed)
        | None => None
        end
    | Some (LayersValue parsed) => Some (Some parsed)
    | None => Some None
    end
  else Some None.

(** The objects [extractMediaElements] goes through; [None] when
    [JSON.parse] throws. *)
Definition objectsOf (design : Design) : option (list DesignObject) :=
  match parsedLayers design with
  | None => None
  | Some (Some parsed) => Some (default [] (p_objects parsed))
  | Some None => Some (default [] (d_objects design))
  end.

(** The loop body of [extractMediaElements], for an element that is
    not skipped. *)
Definition toElement (obj : DesignObject) : MediaElement := {|
  e_type := JS.or_else (customType obj) (type obj);
  e_x := num_or (x obj) 0;
  e_y := num_or (y obj) 0;
  e_width := num_or (width obj) 100;
  e_height := num_or (height obj) 100;
  e_src := if JS.truthy_opt (src obj) then src obj else None;
  e_text := if JS.truthy_opt (text obj) then text obj else None;
  e_fontSize :=
    if JS.truthy_opt (text obj) then Some (num_or (fontSize obj) 24) else None;
  e_color :=
    if JS.truthy_opt (text obj) then Some (str_or (fill obj) "#000000") else None
|}.

(** [for (const obj of objects) { if (obj.visible === false) continue;
    ...; elements.push(element) }] *)
Definition pushElements (objects : list DesignObject) : list MediaElement :=
  fold_left
    (λ elements obj,
       if bool_decide (visible obj = Some false) then elements
       else elements ++ [toElement obj])
    objects [].

(** [extractMediaElements]; [None] when [JSON.parse] throws. *)
Definition extractMediaElements (design : Design) : option (list MediaElement) :=
  match objectsOf design with
  | None => None
  | Some objects => Some (pushElements objects)
  end.

(** [getCanvasConfig]; [None] when [JSON.parse] throws. *)
Definition getCanvasConfig (design : Design) : option CanvasConfig :=
  match parsedLayers design with
  | None => None
  | Some layers =>
      let canvas :=
        match layers with
        | Some parsed => p_canvas parsed
        | None => d_canvas design
        end in
      Some {|
        cc_width := num_or (canvas ≫= c_width) 1920;
        cc_height := num_or (canvas ≫= c_height) 1080;
        cc_backgroundColor := str_or (canvas ≫= c_backgroundColor) "#ffffff"
      |}
  end.

(** [buildVideoFilters]: the one filter, joined with commas. *)
Definition buildVideoFilters (elements : list MediaElement)
    (canvas : CanvasConfig) : string :=
  "scale=" +:+ show (cc_width canvas) +:+ ":" +:+ show (cc_height canvas).

(** [join('storage', 'exports', 'videos', `${exportId}.mp4`)] *)
Definition outputPathOf (exportId : string) : string :=
  path_join (path_join (path_join "storage" "exports") "videos")
            (exportId +:+ ".mp4").

(** [e => e.type === 'video' && e.src] *)
Definition isVideoElement (e : MediaElement) : bool :=
  bool_decide (e_type e = Some "video") && JS.truthy_opt (e_src e).

Definition commandOf (primaryVideo : MediaElement)
    (elements : list MediaElement) (canvas : CanvasConfig)
    (outputPath : string) : list string :=
  ["ffmpeg"; "-y"; "-i"; default "" (e_src primaryVideo);
   "-vf"; buildVideoFilters elements canvas;
   "-c:v"; "libx264"; "-c:a"; "copy"; "-pix_fmt"; "yuv420p"; outputPath].

(** [renderVideoWithFFmpeg]; its [catch] logs and throws again. *)
Definition renderVideoWithFFmpeg (design : Design) (exportId : string)
  : Rendering :=
  match extractMediaElements design with
  | None => mkRendering None (inl ParseFailure)
  | Some mediaElements =>
      match getCanvasConfig design with
      | None => mkRendering None (inl ParseFailure)
      | Some canvas =>
          let videoElements := List.filter isVideoElement mediaElements in
          match videoElements with
          | [] => mkRendering None (inl NoVideoElements)
          | primaryVideo :: _ =>
              let outputPath := outputPathOf exportId in
              let command :=
                commandOf primaryVideo mediaElements canvas outputPath in
              mkRendering (Some command)
                match spawn command with
                | Closed code =>
                    if Z.eqb code 0 then inr outputPath
                    else inl (FfmpegFailed code)
                | ProcessError => inl SpawnFailed
                end
          end
      end
  end.

End Program.

(** An object that [extractMediaElements] does not skip. *)
Definition shown (obj : DesignObject) : bool :=
  negb (bool_decide (visible obj = Some false)).

(** A shown object that makes a video element with a source. *)
Definition playable (obj : DesignObject) : bool :=
  shown obj
  && bool_decide (JS.or_else (customType obj) (type obj) = Some "video")
  && JS.truthy_opt (src obj).

End FfmpegRenderer.

(** * Properties *)

(** ** Strings and paths *)

Lemma truthy_false_iff (s : string) : JS.truthy s = false ↔ s = "".
Proof. destruct s; simpl; split; congruence. Qed.

(** ** Staging of remote assets *)

Section Staging.
Context (env : Env).
Import AssetStaging.

Lemma downloadAsset_local url assetsDir fs :
  remote url = false →
  downloadAsset env url assetsDir fs = mkRun (Ok url) fs [].
Proof.
  unfold remote, downloadAsset. intros H.
  destruct (JS.truthy url), (JS.startsWith url "http"); simpl in *;
    try discriminate; reflexivity.
Qed.

Lemma downloadAsset_cached url assetsDir fs :
  remote url = true →
  asset_path env url assetsDir ∈ fs →
  downloadAsset env url assetsDir fs
  = mkRun (Ok (asset_path env url assetsDir)) fs [].
Proof.
  unfold remote, downloadAsset. intros H Hin.
  apply andb_true_iff in H as [-> ->]. simpl.
  unfold try_catch, bind, existsSync. simpl.
  rewrite bool_decide_eq_true_2 by done. reflexivity.
Qed.

Lemma downloadAsset_fresh url assetsDir fs :
  remote url = true →
  asset_path env url assetsDir ∉ fs →
  fetch_asset env url = Response true →
  writeFile_ok env (asset_path env url assetsDir) = true →
  downloadAsset env url assetsDir fs
  = mkRun (Ok (asset_path env url assetsDir))
          ({[asset_path env url assetsDir]} ∪ fs)
          [EvFetch url; EvWriteFile (asset_path env url assetsDir)].
Proof.
  unfold remote, downloadAsset. intros H Hin Hfetch Hwrite.
  apply andb_true_iff in H as [-> ->]. simpl.
  unfold try_catch, bind, existsSync, writeFile. simpl.
  rewrite bool_decide_eq_false_2 by done. simpl.
  rewrite Hfetch. unfold bind. simpl. rewrite Hwrite. reflexivity.
Qed.

(** A failed download gives the reference back and leaves no file:
    the next call has to fetch again. *)
Lemma downloadAsset_failed url assetsDir fs :
  remote url = true →
  asset_path env url assetsDir ∉ fs →
  fetch_asset env url ≠ Response true →
  downloadAsset env url assetsDir fs
  = mkRun (Ok url) fs [EvFetch url; EvError "Failed to download asset"].
Proof.
  unfold remote, downloadAsset. intros H Hin Hfetch.
  apply andb_true_iff in H as [-> ->]. simpl.
  unfold try_catch, bind, existsSync. simpl.
  rewrite bool_decide_eq_false_2 by done. simpl.
  destruct (fetch_asset env url) as [|[]]; try congruence; reflexivity.
Qed.

End Staging.

(** C10. A source that does not start with [http] comes back from
    [downloadAsset] unchanged, without any fetch, write or other effect,
    and the staging loop leaves an element with such a source as it is. *)
Theorem local_source_untouched (env : Env) (url assetsDir : string) (fs : FS) :
  JS.startsWith url "http" = false →
  AssetStaging.downloadAsset env url assetsDir fs = mkRun (Ok url) fs []
  ∧ ∀ obj, o_src obj = Some url →
      AssetStaging.processObject env assetsDir obj fs = mkRun (Ok obj) fs [].
Proof.
  intros Hlocal.
  assert (Hr : remote url = false).
  { unfold remote. rewrite Hlocal. apply andb_false_r. }
  split; [by apply downloadAsset_local|].
  intros obj Hsrc. unfold AssetStaging.processObject. rewrite Hsrc.
  destruct (JS.truthy url) eqn:Ht; [|reflexivity].
  unfold bind. rewrite downloadAsset_local by done. simpl.
  rewrite String.eqb_refl, andb_false_r. reflexivity.
Qed.

Lemma local_source_untouched_witness :
  AssetStaging.downloadAsset Scenario.calm "/srv/media/logo.png" "/tmp/job1/assets" ∅
  = mkRun (Ok "/srv/media/logo.png") ∅ [].
Proof.
  apply (local_source_untouched Scenario.calm "/srv/media/logo.png"
           "/tmp/job1/assets" ∅).
  reflexivity.
Defined.

(** C5, as stated, fails when the first download fails: the reference
    itself comes back and the second call fetches again. *)
Lemma staging_idempotent_offline :
  ¬ staging_idempotent Scenario.offline Scenario.clipUrl "/tmp/job1/assets" ∅.
Proof.
  unfold staging_idempotent. intros H.
  destruct (H eq_refl) as (H1 & _ & _).
  vm_compute in H1. discriminate H1.
Qed.

(** C5, amended. The local path is a function of the URL and the assets
    directory alone.  Once the file is there, whether it was there
    before or the first call downloaded it, the second call returns that
    same path, fetches nothing, writes nothing, and the two calls
    together fetch at most once.  When the file is not there and the
    first download fails, the URL itself comes back, no file is left,
    and the second call fetches again. *)
Theorem staging_twice (env : Env) (url assetsDir : string) (fs : FS) :
  remote url = true →
  (AssetStaging.asset_path env url assetsDir ∈ fs
   ∨ (fetch_asset env url = Response true
      ∧ writeFile_ok env (AssetStaging.asset_path env url assetsDir) = true) →
   outcome (AssetStaging.downloadAsset env url assetsDir fs)
   = Ok (AssetStaging.asset_path env url assetsDir)
   ∧ AssetStaging.downloadAsset env url assetsDir
       (fs_after (AssetStaging.downloadAsset env url assetsDir fs))
     = mkRun (Ok (AssetStaging.asset_path env url assetsDir))
             (fs_after (AssetStaging.downloadAsset env url assetsDir fs)) []
   ∧ (length (fetched
         (events (AssetStaging.downloadAsset env url assetsDir fs)
          ++ events (AssetStaging.downloadAsset env url assetsDir
               (fs_after (AssetStaging.downloadAsset env url assetsDir fs)))))
      ≤ 1)%nat)
  ∧ (AssetStaging.asset_path env url assetsDir ∉ fs →
     fetch_asset env url ≠ Response true →
     AssetStaging.downloadAsset env url assetsDir fs
     = mkRun (Ok url) fs [EvFetch url; EvError "Failed to download asset"]
     ∧ AssetStaging.downloadAsset env url assetsDir
         (fs_after (AssetStaging.downloadAsset env url assetsDir fs))
       = AssetStaging.downloadAsset env url assetsDir fs).
Proof.
  intros Hr. split.
  - intros Hready.
    destruct (decide (AssetStaging.asset_path env url assetsDir ∈ fs)) as [Hin|Hout].
    + rewrite (downloadAsset_cached env url assetsDir fs) by done. simpl.
      rewrite downloadAsset_cached by done. simpl. auto.
    + destruct Hready as [?|[Hf Hw]]; [done|].
      rewrite (downloadAsset_fresh env url assetsDir fs) by done. simpl.
      rewrite downloadAsset_cached by (done || set_solver). simpl. auto.
  - intros Hout Hfail.
    rewrite (downloadAsset_failed env url assetsDir fs) by done. simpl.
    split; [done|]. by apply downloadAsset_failed.
Qed.

Lemma staging_twice_witness :
  outcome (AssetStaging.downloadAsset Scenario.calm Scenario.clipUrl
             "/tmp/job1/assets" ∅)
  = Ok (AssetStaging.asset_path Scenario.calm Scenario.clipUrl "/tmp/job1/assets")
  ∧ AssetStaging.asset_path Scenario.calm Scenario.clipUrl "/tmp/job1/assets"
    = "/tmp/job1/assets/1de7448b8977f4615a7dcb86f0e24603.mp4".
Proof.
  split; [|reflexivity].
  refine (proj1 (proj1 (staging_twice Scenario.calm Scenario.clipUrl
                          "/tmp/job1/assets" ∅ eq_refl)
                   (or_intror (conj eq_refl eq_refl)))).
Defined.

(** ** The original reference of a staged element *)

Lemma staged_originalSrc (env : Env) (assetsDir : string) (obj obj' : SceneObject)
    (fs : FS) :
  outcome (AssetStaging.processObject env assetsDir obj fs) = Ok obj' →
  obj' = obj ∨ (o_src obj' ≠ o_src obj ∧ o_originalSrc obj' = o_src obj').
Proof.
  unfold AssetStaging.processObject.
  destruct (o_src obj) as [src|] eqn:Hsrc; [|simpl; intros [= <-]; by left].
  destruct (JS.truthy src); [|simpl; intros [= <-]; by left].
  unfold bind.
  destruct (AssetStaging.downloadAsset env src assetsDir fs) as [[localPath|e] fs' evs];
    simpl; [|discriminate].
  destruct (JS.truthy localPath); simpl; [|intros [= <-]; by left].
  destruct (String.eqb_spec localPath src) as [->|Hne]; simpl;
    intros [= <-]; [by left|right].
  simpl. split; congruence.
Qed.

Lemma mapped_originalSrc (fs : FS) (obj : SceneObject) :
  let obj' := PathMapping.processObject fs obj in
  obj' = obj ∨ (o_src obj' = o_originalSrc obj' ∧ is_Some (o_src obj')).
Proof.
  unfold PathMapping.processObject.
  destruct (o_src obj) as [src|]; [|by left].
  destruct (JS.truthy src); [|by left].
  destruct (PathMapping.getLocalPath fs src) as [localPath|]; [|by left].
  destruct (JS.truthy localPath); [|by left].
  right. simpl. eauto.
Qed.

(** C8. What the code does instead: whenever staging rewrites the source
    of an element, [originalSrc] receives the rewritten local path, so
    the remote reference is kept nowhere in the element.  The same holds
    in the revision that maps storage URLs. *)
Theorem original_reference_overwritten (env : Env) (assetsDir url : string)
    (obj obj' : SceneObject) (fs : FS) :
  o_src obj = Some url →
  outcome (AssetStaging.processObject env assetsDir obj fs) = Ok obj' →
  o_src obj' ≠ Some url →
  o_originalSrc obj' = o_src obj' ∧ o_originalSrc obj' ≠ Some url.
Proof.
  intros Hsrc Hrun Hnew.
  destruct (staged_originalSrc env assetsDir obj obj' fs Hrun) as [->|[_ Ho]].
  - congruence.
  - rewrite Ho. done.
Qed.

Lemma original_reference_overwritten_witness :
  outcome (AssetStaging.processObject Scenario.calm "/tmp/job1/assets"
             Scenario.clip ∅) = Ok Scenario.stagedClip
  ∧ o_originalSrc Scenario.stagedClip = o_src Scenario.stagedClip
  ∧ o_originalSrc Scenario.stagedClip ≠ Some Scenario.clipUrl.
Proof.
  split; [vm_compute; reflexivity|].
  apply (original_reference_overwritten Scenario.calm "/tmp/job1/assets"
           Scenario.clipUrl Scenario.clip Scenario.stagedClip ∅).
  - reflexivity.
  - vm_compute. reflexivity.
  - discriminate.
Defined.

(** The whole staging step on a design with one remote video: the URL is
    gone from the result. *)
Example staged_clip_forgets_url :
  outcome (AssetStaging.prepareDesignAssets Scenario.calm Scenario.oneClip "job1" ∅)
  = Ok (mkDesign None (Some [Scenario.stagedClip])).
Proof. vm_compute. reflexivity. Qed.

(** ** Audio extraction *)

Section AudioFacts.
Context (env : Env).

Lemma find_first_video (pre post : list SceneObject) (v : SceneObject) :
  Forall (λ o, is_video o = false) pre →
  is_video v = true →
  List.find is_video (pre ++ v :: post) = Some v.
Proof.
  intros Hpre Hv. induction Hpre as [|o pre Ho _ IH]; simpl.
  - by rewrite Hv.
  - by rewrite Ho.
Qed.

Lemma find_no_video (objects : list SceneObject) :
  Forall (λ o, is_video o = false) objects →
  List.find is_video objects = None.
Proof.
  induction 1 as [|o l Ho _ IH]; simpl; [done|]. by rewrite Ho.
Qed.

Lemma find_video_remuted (f : SceneObject → bool) (objects : list SceneObject) :
  List.find is_video (remuted f objects)
  = (λ o, set_muted o (f o)) <$> List.find is_video objects.
Proof.
  induction objects as [|o l IH]; simpl; [done|].
  change (is_video (set_muted o (f o))) with (is_video o).
  destruct (is_video o); [done|apply IH].
Qed.

End AudioFacts.

(** C9, as stated, fails when the first video element has no source and
    a later one has: nothing is extracted. *)
Lemma audio_of_first_playable_skipped :
  ¬ audio_of_first_playable Scenario.calm
      (mkDesign None
         (Some [Scenario.silentStill;
                mkObj (Some "video") None (Some "/srv/media/talk.mp4") None false]))
      (Some "/tmp/job1") ∅.
Proof.
  unfold audio_of_first_playable. intros H.
  specialize (H _ eq_refl). simpl in H. destruct H as [output H].
  vm_compute in H. by apply elem_of_nil in H.
Qed.

(** C9, amended. Only the first video element of the object list counts.
    When it has a source, [ffmpeg] is run on that source whatever the
    [muted] flags say, and the path of the audio file is returned if it
    succeeds, [null] if it fails.  When it has no source, or the list
    has no video element, [null] is returned and nothing is run. *)
Theorem audio_from_first_video (env : Env) (design : Design)
    (outputDir : option string) (fs : FS) (objects : list SceneObject) :
  audioObjects env design = Some objects →
  (Forall (λ o, is_video o = false) objects →
   extractAudio env design outputDir fs = mkRun (Ok None) fs [])
  ∧ ∀ pre v post,
      objects = pre ++ v :: post →
      Forall (λ o, is_video o = false) pre →
      is_video v = true →
      extractAudio env design outputDir fs
      = match o_src v with
        | Some src =>
            if JS.truthy src then
              if ffmpeg_audio_ok env src
              then mkRun (Ok (Some (audioOutput env outputDir)))
                         ({[audioOutput env outputDir]} ∪ fs)
                         [EvExtractAudio src (audioOutput env outputDir)]
              else mkRun (Ok None) fs
                         [EvExtractAudio src (audioOutput env outputDir);
                          EvError "Failed to extract audio"]
            else mkRun (Ok None) fs []
        | None => mkRun (Ok None) fs []
        end
      ∧ ∀ f design',
          audioObjects env design' = Some (remuted f objects) →
          extractAudio env design' outputDir fs
          = extractAudio env design outputDir fs.
Proof.
  intros Hobjs. split.
  { intros Hnone. unfold extractAudio. rewrite Hobjs.
    by rewrite find_no_video. }
  intros pre v post -> Hpre Hv.
  assert (Hrun : ∀ d objs, audioObjects env d = Some objs →
            List.find is_video objs = Some v ∨
            (∃ m, List.find is_video objs = Some (set_muted v m)) →
            extractAudio env d outputDir fs =
            match o_src v with
            | Some src =>
                if JS.truthy src then
                  if ffmpeg_audio_ok env src
                  then mkRun (Ok (Some (audioOutput env outputDir)))
                             ({[audioOutput env outputDir]} ∪ fs)
                             [EvExtractAudio src (audioOutput env outputDir)]
                  else mkRun (Ok None) fs
                             [EvExtractAudio src (audioOutput env outputDir);
                              EvError "Failed to extract audio"]
                else mkRun (Ok None) fs []
            | None => mkRun (Ok None) fs []
            end).
  { intros d objs Hd Hfind. unfold extractAudio. rewrite Hd.
    assert (∃ v', List.find is_video objs = Some v' ∧ o_src v' = o_src v)
      as (v' & -> & Hsame).
    { destruct Hfind as [?|[m ?]]; eauto. }
    rewrite Hsame. destruct (o_src v) as [src|]; [|done].
    destruct (JS.truthy src); [|done]. simpl.
    unfold bind, emit, audioOutput. simpl.
    destruct (ffmpeg_audio_ok env src); reflexivity. }
  split.
  - apply (Hrun design _ Hobjs). left. by apply find_first_video.
  - intros f design' Hobjs'.
    rewrite (Hrun design _ Hobjs) by (left; by apply find_first_video).
    apply (Hrun design' _ Hobjs'). right. exists (f v).
    rewrite find_video_remuted. by rewrite find_first_video.
Qed.

Lemma audio_from_first_video_witness :
  extractAudio Scenario.calm Scenario.mutedTalk (Some "/tmp/job1") ∅
  = mkRun (Ok (Some "/tmp/job1/audio.aac")) ({["/tmp/job1/audio.aac"]} ∪ ∅)
          [EvExtractAudio "/srv/media/talk.mp4" "/tmp/job1/audio.aac"].
Proof.
  refine (proj1 (proj2 (audio_from_first_video Scenario.calm Scenario.mutedTalk
                          (Some "/tmp/job1") ∅
                          [Scenario.caption; Scenario.talk] eq_refl)
                   [Scenario.caption] Scenario.talk [] eq_refl _ eq_refl)).
  repeat constructor.
Defined.

(** ** Duration resolution *)

Lemma Qltb_true (a b : Q) : Qltb a b = true ↔ (a < b)%Q.
Proof.
  unfold Qltb. rewrite negb_true_iff, <- not_true_iff_false, Qle_bool_iff.
  split; [apply Qnot_le_lt|apply Qlt_not_le].
Qed.

Lemma Qltb_false (a b : Q) : Qltb a b = false ↔ (b <= a)%Q.
Proof. unfold Qltb. by rewrite negb_false_iff, Qle_bool_iff. Qed.

Lemma Qmax_cases (a b : Q) :
  (Qmax a b = a ∧ (b <= a)%Q) ∨ (Qmax a b = b ∧ (a <= b)%Q).
Proof.
  unfold Qmax, GenericMinMax.gmax.
  destruct (a ?= b)%Q eqn:Hc.
  - left. split; [done|]. apply Qeq_alt in Hc. rewrite Hc. apply Qle_refl.
  - right. split; [done|]. apply Qlt_alt in Hc. by apply Qlt_le_weak.
  - left. split; [done|]. apply Qgt_alt in Hc. by apply Qlt_le_weak.
Qed.

Section Duration.
Context (env : Env).

Lemma raiseMax_cases (fs : FS) (m0 : Q) (obj : SceneObject) :
  match localVideoSource fs obj with
  | Some src =>
      (raiseMax env fs m0 obj = getMediaDuration env src
       ∧ (m0 < getMediaDuration env src)%Q)
      ∨ (raiseMax env fs m0 obj = m0 ∧ (getMediaDuration env src <= m0)%Q)
  | None => raiseMax env fs m0 obj = m0
  end.
Proof.
  unfold raiseMax, localVideoSource.
  destruct (o_src obj) as [src|]; [|done].
  destruct (is_video obj && JS.truthy src && bool_decide (src ∈ fs)); [|done].
  simpl. destruct (Qltb m0 (getMediaDuration env src)) eqn:Hlt.
  - left. by apply Qltb_true in Hlt.
  - right. by apply Qltb_false in Hlt.
Qed.

(** The loop of [checkObjectsDuration], started from any value. *)
Lemma raiseMax_spec (fs : FS) (objects : list SceneObject) (m0 : Q) :
  let m := fold_left (raiseMax env fs) objects m0 in
  (m0 <= m)%Q
  ∧ Forall (λ x, (x <= m)%Q) (probedDurations env fs objects)
  ∧ (m = m0 ∨ In m (probedDurations env fs objects)).
Proof.
  revert m0. induction objects as [|obj objects IH]; intros m0; simpl.
  - split; [apply Qle_refl|]. split; [constructor|by left].
  - destruct (IH (raiseMax env fs m0 obj)) as (Hle & Hall & Hin).
    pose proof (raiseMax_cases fs m0 obj) as Hstep.
    unfold probedDurations in *. simpl.
    destruct (localVideoSource fs obj) as [src|]; simpl.
    + destruct Hstep as [[Heq Hlt]|[Heq Hge]]; rewrite Heq in *.
      * split; [|split].
        -- eapply Qle_trans; [by apply Qlt_le_weak|done].
        -- by constructor.
        -- destruct Hin as [->|?]; right; [by left|by right].
      * split; [done|split].
        -- constructor; [|done]. by eapply Qle_trans.
        -- destruct Hin as [->|?]; [by left|right; by right].
    + rewrite Hstep in *. done.
Qed.

Lemma checkObjectsDuration_greatest (fs : FS) (objects : list SceneObject) :
  greatest (checkObjectsDuration env fs objects)
           (0%Q :: probedDurations env fs objects).
Proof.
  unfold checkObjectsDuration.
  destruct (raiseMax_spec fs objects 0) as (H0 & Hall & Hin).
  split; [constructor; done|].
  destruct Hin as [Hz|?]; [left; by rewrite Hz|by right].
Qed.

Lemma final_duration_greatest (fs : FS) (objects : list SceneObject) (audio : Q) :
  let duration := Math_max3 (checkObjectsDuration env fs objects) audio 5 in
  greatest duration (5%Q :: audio :: probedDurations env fs objects)
  ∧ (5 <= duration)%Q.
Proof.
  intros duration. subst duration. unfold Math_max3.
  destruct (checkObjectsDuration_greatest fs objects) as [Hall Hin].
  apply Forall_cons in Hall as [H0 Hall].
  set (v := checkObjectsDuration env fs objects) in *.
  assert (Hlift : ∀ m, (v <= m)%Q →
            Forall (λ x, (x <= m)%Q) (probedDurations env fs objects)).
  { intros m Hm. eapply Forall_impl; [exact Hall|].
    intros x Hx. simpl in Hx. by eapply Qle_trans. }
  destruct (Qmax_cases v audio) as [[-> Hva]|[-> Hva]].
  - destruct (Qmax_cases v 5) as [[-> H5]|[-> H5]].
    + split; [|done]. split.
      * constructor; [done|]. constructor; [done|]. apply Hlift, Qle_refl.
      * destruct Hin as [Hz|?]; [|right; by right].
        exfalso. rewrite <- Hz in H5. by apply (Qle_not_lt _ _ H5).
    + split; [|apply Qle_refl]. split; [|by left].
      constructor; [apply Qle_refl|].
      constructor; [by eapply Qle_trans|by apply Hlift].
  - destruct (Qmax_cases audio 5) as [[-> H5]|[-> H5]].
    + split; [|done]. split; [|right; by left].
      constructor; [done|]. constructor; [apply Qle_refl|by apply Hlift].
    + split; [|apply Qle_refl]. split; [|by left].
      constructor; [apply Qle_refl|]. constructor; [done|].
      apply Hlift. by eapply Qle_trans.
Qed.

End Duration.

(** *** The result and the scene *)

Lemma getMediaDuration_probed (env : Env) (file : string) :
  probed env file (getMediaDuration env file).
Proof.
  unfold probed, getMediaDuration.
  destruct (ffprobe env file) as [|[|q]]; [done..|].
  destruct (Qeq_bool q 0) eqn:E; [|reflexivity].
  apply Qeq_bool_iff in E. by symmetry.
Qed.

Lemma extractAudio_path (env : Env) (design : Design) (outputDir : option string)
    (fs : FS) :
  ∃ audioPath, outcome (extractAudio env design outputDir fs) = Ok audioPath
    ∧ (audioPath = None ∨ audioPath = Some (audioOutput env outputDir)).
Proof.
  unfold extractAudio, audioOutput.
  destruct (audioObjects env design) as [objs|]; [|eexists; split; eauto].
  destruct (List.find is_video objs) as [v|]; [|eexists; split; eauto].
  destruct (o_src v) as [src|]; [|eexists; split; eauto].
  destruct (JS.truthy src); simpl; [|eexists; split; eauto].
  unfold bind, emit. simpl.
  destruct (ffmpeg_audio_ok env src); eexists; split; eauto.
Qed.

Lemma audioOutput_truthy (env : Env) (outputDir : option string) :
  JS.truthy (audioOutput env outputDir) = true.
Proof.
  unfold audioOutput, path_join.
  by destruct (if JS.truthy_opt outputDir then default "" outputDir else tmpdir env).
Qed.

Lemma designObjectsOf_elements (env : Env) (design : Design) (fs : FS) :
  (∃ objects, designObjectsOf env design fs = mkRun (Ok objects) fs []
              ∧ scene_elements env design objects)
  ∨ (designObjectsOf env design fs = mkRun (Throw ErrJSON) fs []
     ∧ ∀ objects, ¬ scene_elements env design objects).
Proof.
  unfold designObjectsOf.
  destruct (d_layers design) as [[s|layers]|] eqn:Hl; cbn [layers_truthy].
  - destruct (JS.truthy s) eqn:Ht.
    + assert (Hs : s ≠ "") by (intros ->; discriminate).
      destruct (JSON_parse env s) as [layers|] eqn:Hp.
      * left. eexists. split; [done|]. by eapply elements_of_text.
      * right. split; [done|]. intros objects H.
        inversion H as [[Hd|Hd]|layers Hd|s' layers Hd Hs' Hp']; congruence.
    + apply truthy_false_iff in Ht as ->.
      left. eexists. split; [done|]. apply elements_top_level. by right.
  - left. eexists. split; [done|]. by eapply elements_of_layers.
  - left. eexists. split; [done|]. apply elements_top_level. by left.
Qed.

Lemma resolution_is_maximum (env : Env) (localDesign : Design)
    (outputDir : option string) (fs : FS) :
  resolves_to_maximum env localDesign outputDir fs
    ((let* audioPath := extractAudio env localDesign outputDir in
      let* fs := get_fs in
      let audioDuration := audioDurationOf env fs audioPath in
      let* designObjects := designObjectsOf env localDesign in
      let maxVideoDuration := checkObjectsDuration env fs designObjects in
      let duration := Math_max3 maxVideoDuration audioDuration 5 in
      ret (audioPath, designObjects, duration)) fs).
Proof.
  unfold resolves_to_maximum.
  destruct (extractAudio_path env localDesign outputDir fs)
    as (audioPath & Haudio & Hpath).
  unfold bind. rewrite Haudio. cbn [get_fs outcome fs_after events].
  set (disk := fs_after (extractAudio env localDesign outputDir fs)).
  destruct (designObjectsOf_elements env localDesign disk)
    as [(objects & Hrun & Hel)|[Hrun Hnone]];
    rewrite Hrun; cbn [ret outcome fs_after events]; [|done].
  split; [done|]. split; [done|]. split; [done|].
  exists (checkObjectsDuration env disk objects),
         (audioDurationOf env disk audioPath).
  split; [apply checkObjectsDuration_greatest|].
  split.
  { unfold trackDuration, audioDurationOf.
    destruct Hpath as [->| ->]; [done|].
    rewrite audioOutput_truthy. cbn [andb].
    case_bool_decide; [left|right]; done. }
  split; [done|]. apply final_duration_greatest.
Qed.

(** C1. For every scene, in both revisions, duration resolution returns
    unless the [layers] string of the scene is not JSON, and what it
    returns is tied to the scene: the path is the one audio extraction
    gave, the elements are the elements of the scene, and the duration
    is [Math.max(maxVideoDuration, audioDuration, 5)], where
    [maxVideoDuration] is the greatest probed duration of the scene's
    video elements whose source exists on disk (0 when there is none)
    and [audioDuration] is the probed duration of the extracted audio
    file (0 when extraction gave no path or the file is absent).  The
    duration is the greatest of these numbers and 5, and so never below
    5.  The probed duration of a file is the number [ffprobe] prints,
    and 0 when it fails or prints none. *)
Theorem duration_is_maximum (env : Env) (localDesign : Design)
    (baseDir : string) (fs : FS) :
  resolves_to_maximum env localDesign (Some baseDir) fs
    (AssetStaging.resolveDuration env localDesign baseDir fs)
  ∧ resolves_to_maximum env localDesign None fs
      (PathMapping.resolveDuration env localDesign fs)
  ∧ ∀ file, probed env file (getMediaDuration env file).
Proof.
  split; [apply resolution_is_maximum|].
  split; [apply resolution_is_maximum|]. apply getMediaDuration_probed.
Qed.

(** The scenarios of the specification: one video of 8 seconds, no media
    at all, and a design whose probes all fail. *)
Example duration_one_clip :
  outcome (AssetStaging.resolveDuration Scenario.calm
             (mkDesign None (Some [Scenario.stagedClip])) "/tmp/job1"
             {["/tmp/job1/assets/1de7448b8977f4615a7dcb86f0e24603.mp4"]})
  = Ok (Some "/tmp/job1/audio.aac", [Scenario.stagedClip], 8%Q)
  ∧ totalFramesOf 8 = 192%Z.
Proof. split; vm_compute; reflexivity. Qed.

Example duration_no_media :
  outcome (AssetStaging.resolveDuration Scenario.calm (mkDesign None (Some []))
             "/tmp/job1" ∅)
  = Ok (None, [], 5%Q)
  ∧ totalFramesOf 5 = 120%Z.
Proof. split; vm_compute; reflexivity. Qed.

(** ** Seeking inside the page *)

Section SeekFacts.
Import Seek.

Lemma seekExecutor_near (time : Q) (v : Video) :
  (Qabs (currentTime v - time) < 1 # 20)%Q →
  seekExecutor time v = mkExecuted true None false None.
Proof.
  intros H. unfold seekExecutor. apply Qltb_true in H. by rewrite H.
Qed.

Lemma seekExecutor_far (time : Q) (v : Video) :
  ¬ (Qabs (currentTime v - time) < 1 # 20)%Q →
  seekExecutor time v = mkExecuted false (Some 2000%N) true (Some time).
Proof.
  intros H. unfold seekExecutor.
  destruct (Qltb _ _) eqn:E; [|done]. by apply Qltb_true in E.
Qed.

Lemma settles_within (time : Q) (v : Video) :
  ∃ t, settles_at v (seekExecutor time v) = Some t ∧ (t ≤ 2000)%N.
Proof.
  unfold seekExecutor, settles_at.
  destruct (Qltb _ _); simpl.
  - exists 0%N. split; [done|lia].
  - destruct (seeked_after v) as [d|]; simpl.
    + exists (N.min 2000 d). split; [done|lia].
    + exists 2000%N. split; [done|lia].
Qed.

Lemma all_settled_within (time : Q) (videos : list Video) :
  ∃ t, all_settled (map (λ v, settles_at v (seekExecutor time v)) videos) = Some t
       ∧ (t ≤ 2000)%N.
Proof.
  induction videos as [|v videos (t & IH & Ht)]; simpl.
  - exists 0%N. split; [done|lia].
  - destruct (settles_within time v) as (a & -> & Ha). rewrite IH.
    exists (N.max a t). split; [done|lia].
Qed.

Lemma all_settled_slowest (l : list (option N)) (t : N) :
  all_settled l = Some t →
  Forall (λ s, ∃ a, s = Some a ∧ (a ≤ t)%N) l
  ∧ (l ≠ [] → Some t ∈ l).
Proof.
  revert t. induction l as [|s l IH]; intros t; cbn [all_settled].
  - intros _. split; [constructor|done].
  - destruct s as [a|]; [|done].
    destruct (all_settled l) as [b|] eqn:Hb; [|done].
    intros [= <-]. destruct (IH b eq_refl) as [Hall Hmax]. split.
    + constructor; [exists a; split; [done|lia]|].
      eapply Forall_impl; [exact Hall|].
      intros s (c & -> & Hc). exists c. split; [done|lia].
    + intros _. destruct l as [|s' l'].
      * cbn in Hb. injection Hb as <-. rewrite N.max_0_r.
        apply elem_of_cons. by left.
      * apply elem_of_cons.
        destruct (N.max_spec a b) as [[_ ->]|[_ ->]]; [right|by left].
        by apply Hmax.
Qed.

Lemma SEEK_VIDEO_slowest (time : Q) (videos : list Video) (t : N) :
  SEEK_VIDEO time videos = Some t →
  Forall (λ v, ∃ a, settles_at v (seekExecutor time v) = Some a ∧ (a ≤ t)%N)
    videos
  ∧ (videos ≠ [] →
     Exists (λ v, settles_at v (seekExecutor time v) = Some t) videos).
Proof.
  destruct videos as [|v0 videos]; [split; [constructor|done]|].
  cbn [SEEK_VIDEO]. intros Hcall.
  destruct (all_settled_slowest _ _ Hcall) as [Hall Hmax]. split.
  - exact (proj1 (List.Forall_map _ _ _) Hall).
  - intros _. apply Exists_exists.
    assert (Hin : Some t ∈ map (λ v, settles_at v (seekExecutor time v))
                    (v0 :: videos)) by (by apply Hmax).
    apply list_elem_of_In, in_map_iff in Hin as (v & Hv & Hin).
    exists v. split; [by apply list_elem_of_In|done].
Qed.

End SeekFacts.

(** C7. In every call of the seek function, in either revision, each
    video element is treated on its own.  The promise built for an
    element that is within 0.05 s of the target is resolved on the
    spot: no timer, no listener, no assignment to [currentTime].  For
    any other element the position is assigned, the promise is left
    pending with a listener for [seeked] and a timer of 2000 ms, and it
    settles when the first of the two fires, so after 2000 ms at the
    latest even if [seeked] never comes.  The call returns, and it
    returns exactly when the slowest of its elements has settled: no
    element is still pending then, one of them (if there is any)
    settled at that very moment, and that moment is within 2000 ms. *)
Theorem seek_snaps_or_waits_bounded (time : Q) (videos : list Seek.Video) :
  Forall (λ v,
    ((Qabs (Seek.currentTime v - time) < 1 # 20)%Q →
       Seek.seekExecutor time v = Seek.mkExecuted true None false None
       ∧ Seek.settles_at v (Seek.seekExecutor time v) = Some 0%N)
    ∧ (¬ (Qabs (Seek.currentTime v - time) < 1 # 20)%Q →
       Seek.seekExecutor time v
         = Seek.mkExecuted false (Some 2000%N) true (Some time)
       ∧ Seek.settles_at v (Seek.seekExecutor time v)
         = Some (match Seek.seeked_after v with
                 | Some d => N.min 2000 d
                 | None => 2000%N
                 end))) videos
  ∧ ∃ t, Seek.SEEK_VIDEO time videos = Some t
         ∧ Seek.SEEK_VIDEO_guarded (Fin time) videos = Some t
         ∧ (t ≤ 2000)%N
         ∧ Forall (λ v, ∃ a, Seek.settles_at v (Seek.seekExecutor time v) = Some a
                             ∧ (a ≤ t)%N) videos
         ∧ (videos ≠ [] →
            Exists (λ v, Seek.settles_at v (Seek.seekExecutor time v) = Some t)
              videos).
Proof.
  split.
  - apply Forall_forall. intros v _. split; intros H.
    + by rewrite seekExecutor_near.
    + rewrite seekExecutor_far by done. split; [done|].
      unfold Seek.settles_at. simpl. by destruct (Seek.seeked_after v).
  - assert (∃ t, Seek.SEEK_VIDEO time videos = Some t ∧ (t ≤ 2000)%N)
      as (t & Hcall & Ht).
    { destruct videos as [|v0 videos].
      - exists 0%N. split; [done|lia].
      - apply (all_settled_within time (v0 :: videos)). }
    exists t. split; [done|]. split; [done|]. split; [done|].
    by apply SEEK_VIDEO_slowest.
Qed.

(** A player stuck at 0 that never answers a seek to 1.5 s: the call
    returns after the 2000 ms of the timer.  A player already at the
    target: the call returns at once. *)
Example seek_stuck_player :
  Seek.SEEK_VIDEO (3 # 2) [Seek.mkVideo 0 None] = Some 2000%N
  ∧ Seek.SEEK_VIDEO (3 # 2) [Seek.mkVideo (149 # 100) None] = Some 0%N
  ∧ Seek.SEEK_VIDEO (3 # 2) [Seek.mkVideo 0 (Some 120%N)] = Some 120%N.
Proof. repeat split; vm_compute; reflexivity. Qed.

(** ** Sequencing *)

Lemma bind_throw {A B} (m : M A) (k : A → M B) (fs : FS) (e : Error) :
  outcome (m fs) = Throw e →
  bind m k fs = mkRun (Throw e) (fs_after (m fs)) (events (m fs)).
Proof. intros H. unfold bind. by rewrite H. Qed.

Lemma bind_ok {A B} (m : M A) (k : A → M B) (fs : FS) (a : A) :
  outcome (m fs) = Ok a →
  bind m k fs = mkRun (outcome (k a (fs_after (m fs))))
                      (fs_after (k a (fs_after (m fs))))
                      (events (m fs) ++ events (k a (fs_after (m fs)))).
Proof. intros H. unfold bind. by rewrite H. Qed.

(** ** Which computations report failures or reject uploads *)

Section Discreet.

Lemma discreet_ret {A} (a : A) : discreet (ret a).
Proof. intros fs. simpl. split; [constructor|discriminate]. Qed.

Lemma discreet_throw {A} (e : Error) : e ≠ ErrUploadFailed → discreet (@throw A e).
Proof. intros He fs. simpl. split; [constructor|congruence]. Qed.

Lemma discreet_emit (e : Event) : not_failed_report e → discreet (emit e).
Proof. intros He fs. simpl. split; [by constructor|discriminate]. Qed.

Lemma discreet_existsSync (p : string) : discreet (existsSync p).
Proof. intros fs. simpl. split; [constructor|discriminate]. Qed.

Lemma discreet_get_fs : discreet get_fs.
Proof. intros fs. simpl. split; [constructor|discriminate]. Qed.

Lemma discreet_update_fs (f : FS → FS) : discreet (update_fs f).
Proof. intros fs. simpl. split; [constructor|discriminate]. Qed.

Lemma discreet_bind {A B} (m : M A) (k : A → M B) :
  discreet m → (∀ a, discreet (k a)) → discreet (bind m k).
Proof.
  intros Hm Hk fs. unfold bind. destruct (Hm fs) as [Hev Hout].
  destruct (outcome (m fs)) as [a|e] eqn:E; simpl.
  - destruct (Hk a (fs_after (m fs))) as [Hev' Hout'].
    split; [by apply Forall_app|done].
  - split; [done|congruence].
Qed.

Lemma discreet_try_catch {A} (m : M A) (h : Error → M A) :
  discreet m → (∀ e, e ≠ ErrUploadFailed → discreet (h e)) →
  discreet (try_catch m h).
Proof.
  intros Hm Hh fs. unfold try_catch. destruct (Hm fs) as [Hev Hout].
  destruct (outcome (m fs)) as [a|e] eqn:E; simpl.
  - rewrite E. done.
  - assert (He : e ≠ ErrUploadFailed) by congruence.
    destruct (Hh e He (fs_after (m fs))) as [Hev' Hout'].
    split; [by apply Forall_app|done].
Qed.

Lemma discreet_try_finally {A} (m : M A) (f : M unit) :
  discreet m → discreet f → discreet (try_finally m f).
Proof.
  intros Hm Hf fs. unfold try_finally. simpl.
  destruct (Hm fs) as [Hev Hout].
  destruct (Hf (fs_after (m fs))) as [Hev' Hout'].
  split; [by apply Forall_app|].
  destruct (outcome (f (fs_after (m fs)))) as [[]|e]; [done|].
  intros [= ->]. done.
Qed.

Lemma discreet_when (b : bool) (m : M unit) : discreet m → discreet (when b m).
Proof. destruct b; [done|intros _; apply discreet_ret]. Qed.

Lemma discreet_map_each {A} (l : list A) (body : A → M A) :
  (∀ x, discreet (body x)) → discreet (map_each l body).
Proof.
  intros Hbody. induction l as [|x l IH]; simpl.
  - apply discreet_ret.
  - apply discreet_bind; [done|]. intros y.
    apply discreet_bind; [done|]. intros ys. apply discreet_ret.
Qed.

End Discreet.

Lemma other_event_not_failed (e : Event) :
  (∀ p st, e ≠ EvReport p st) → not_failed_report e.
Proof. intros H p. apply H. Qed.

Lemma report_not_failed (p : Z) (st : string) :
  st ≠ "failed" → not_failed_report (EvReport p st).
Proof. intros H q [= _ ?]. done. Qed.

(** One step of a proof that a computation is [discreet]: follow the
    shape of the program, splitting on what the environment answers. *)
Ltac discreet_step :=
  match goal with
  | |- discreet (bind _ _) => apply discreet_bind; [|intros ?]
  | |- discreet (ret _) => apply discreet_ret
  | |- discreet (throw _) => apply discreet_throw; discriminate
  | |- discreet (emit (EvReport _ _)) =>
      apply discreet_emit, report_not_failed; discriminate
  | |- discreet (emit _) =>
      apply discreet_emit, other_event_not_failed; discriminate
  | |- discreet (existsSync _) => apply discreet_existsSync
  | |- discreet get_fs => apply discreet_get_fs
  | |- discreet (update_fs _) => apply discreet_update_fs
  | |- discreet (when _ _) => apply discreet_when
  | |- discreet (try_catch _ _) => apply discreet_try_catch; [|intros ? ?]
  | |- discreet (try_finally _ _) => apply discreet_try_finally
  | |- discreet (map_each _ _) => apply discreet_map_each; intros ?
  | |- discreet (if ?b then _ else _) => destruct b
  | |- discreet (match ?x with _ => _ end) => destruct x
  | |- discreet _ => solve [auto with discreet]
  end.

Ltac discreet_auto := repeat discreet_step.

Create HintDb discreet.

Section DiscreetCalls.
Context (env : Env).

Lemma discreet_mkdir p : discreet (mkdir env p).
Proof. unfold mkdir. discreet_auto. Qed.

Lemma discreet_writeFile p : discreet (writeFile env p).
Proof. unfold writeFile. discreet_auto. Qed.

Lemma discreet_readFile p : discreet (readFile env p).
Proof. unfold readFile. discreet_auto. Qed.

Lemma discreet_unlink p : discreet (unlink env p).
Proof. unfold unlink. discreet_auto. Qed.

Lemma discreet_rm p : discreet (rm env p).
Proof. unfold rm. discreet_auto. Qed.

Hint Resolve discreet_mkdir discreet_writeFile discreet_readFile
  discreet_unlink discreet_rm : discreet.

Lemma discreet_reportProgress exportId webhookUrl progress status :
  status ≠ "failed" →
  discreet (reportProgress env exportId webhookUrl progress status).
Proof.
  intros Hst. unfold reportProgress. apply discreet_when.
  apply discreet_bind; [by apply discreet_emit, report_not_failed|intros _].
  discreet_auto.
Qed.

Lemma discreet_extractFrames videoPath outputDir fps duration :
  discreet (extractVideoFramesWithFFmpeg env videoPath outputDir fps duration).
Proof. unfold extractVideoFramesWithFFmpeg. discreet_auto. Qed.

Lemma discreet_extractAudio design outputDir :
  discreet (extractAudio env design outputDir).
Proof. unfold extractAudio. discreet_auto. Qed.

Lemma discreet_mergeVideo framesDir audio exportId :
  discreet (mergeVideo env framesDir audio exportId).
Proof. unfold mergeVideo. discreet_auto. Qed.

Lemma discreet_designObjectsOf design : discreet (designObjectsOf env design).
Proof. unfold designObjectsOf. discreet_auto. Qed.

End DiscreetCalls.

#[export] Hint Resolve discreet_mkdir discreet_writeFile discreet_readFile
  discreet_unlink discreet_rm discreet_extractFrames discreet_extractAudio
  discreet_mergeVideo discreet_designObjectsOf : discreet.

(** *** The stages before the upload, in both revisions *)

Section DiscreetStages.
Context (env : Env).

Lemma discreet_cleanupExport exportId :
  discreet (AssetStaging.cleanupExport env exportId).
Proof. unfold AssetStaging.cleanupExport. discreet_auto. Qed.

Lemma discreet_downloadAsset url assetsDir :
  discreet (AssetStaging.downloadAsset env url assetsDir).
Proof. unfold AssetStaging.downloadAsset. discreet_auto. Qed.

Lemma discreet_processObject assetsDir obj :
  discreet (AssetStaging.processObject env assetsDir obj).
Proof.
  unfold AssetStaging.processObject.
  pose proof discreet_downloadAsset. discreet_auto.
Qed.

Lemma discreet_processObjects assetsDir objects :
  discreet (AssetStaging.processObjects env assetsDir objects).
Proof.
  unfold AssetStaging.processObjects.
  pose proof discreet_processObject. discreet_auto.
Qed.

Lemma discreet_prepareDesignAssets design exportId :
  discreet (AssetStaging.prepareDesignAssets env design exportId).
Proof.
  unfold AssetStaging.prepareDesignAssets.
  pose proof discreet_processObjects. discreet_auto.
Qed.

Lemma discreet_staging_browser c : discreet (AssetStaging.browser env c).
Proof. unfold AssetStaging.browser. discreet_auto. Qed.

Lemma discreet_mapping_browser c : discreet (PathMapping.browser env c).
Proof. unfold PathMapping.browser. discreet_auto. Qed.

Lemma discreet_staging_resolveDuration design baseDir :
  discreet (AssetStaging.resolveDuration env design baseDir).
Proof. unfold AssetStaging.resolveDuration. discreet_auto. Qed.

Lemma discreet_mapping_resolveDuration design :
  discreet (PathMapping.resolveDuration env design).
Proof. unfold PathMapping.resolveDuration. discreet_auto. Qed.

Lemma discreet_staging_captureFrame exportId webhookUrl framesDir total i seeks :
  discreet (AssetStaging.captureFrame env exportId webhookUrl framesDir total i seeks).
Proof.
  unfold AssetStaging.captureFrame.
  pose proof (discreet_reportProgress env exportId webhookUrl
                (progressOf i total) "rendering_frames" ltac:(discriminate)).
  discreet_auto.
Qed.

Lemma discreet_mapping_captureFrame exportId webhookUrl framesDir total i seeks :
  discreet (PathMapping.captureFrame env exportId webhookUrl framesDir total i seeks).
Proof.
  unfold PathMapping.captureFrame.
  pose proof (discreet_reportProgress env exportId webhookUrl
                (progressOf i total) "rendering_frames" ltac:(discriminate)).
  discreet_auto.
Qed.

Lemma discreet_staging_captureLoop exportId webhookUrl framesDir total todo seeks :
  discreet (AssetStaging.captureLoop env exportId webhookUrl framesDir total todo seeks).
Proof.
  revert seeks. induction todo as [|i todo IH]; intros seeks; simpl.
  - apply discreet_ret.
  - apply discreet_bind; [apply discreet_staging_captureFrame|done].
Qed.

Lemma discreet_mapping_captureLoop exportId webhookUrl framesDir total todo seeks :
  discreet (PathMapping.captureLoop env exportId webhookUrl framesDir total todo seeks).
Proof.
  revert seeks. induction todo as [|i todo IH]; intros seeks; simpl.
  - apply discreet_ret.
  - apply discreet_bind; [apply discreet_mapping_captureFrame|done].
Qed.

Lemma discreet_staging_fallbackCheck objects seeks framesDir duration :
  discreet (AssetStaging.fallbackCheck env objects seeks framesDir duration).
Proof. unfold AssetStaging.fallbackCheck. discreet_auto. Qed.

Lemma discreet_mapping_fallbackCheck objects seeks framesDir duration :
  discreet (PathMapping.fallbackCheck env objects seeks framesDir duration).
Proof. unfold PathMapping.fallbackCheck. discreet_auto. Qed.

End DiscreetStages.

#[export] Hint Resolve discreet_cleanupExport discreet_prepareDesignAssets
  discreet_staging_browser discreet_mapping_browser
  discreet_staging_resolveDuration discreet_mapping_resolveDuration
  discreet_staging_captureLoop discreet_mapping_captureLoop
  discreet_staging_fallbackCheck discreet_mapping_fallbackCheck : discreet.

(** *** Runs that end with a rejected upload *)

Section Rejection.
Context (Φ : list Event → Prop).
Hypothesis Φ_frame : ∀ pre l post,
  Forall not_failed_report pre → Forall not_failed_report post →
  Φ l → Φ (pre ++ l ++ post).

Lemma on_rejection_discreet {A} (m : M A) : discreet m → on_rejection Φ m.
Proof. intros Hm fs Hout. by destruct (Hm fs). Qed.

Lemma on_rejection_bind {A B} (m : M A) (k : A → M B) :
  discreet m → (∀ a, on_rejection Φ (k a)) → on_rejection Φ (bind m k).
Proof.
  intros Hm Hk fs. unfold bind. destruct (Hm fs) as [Hev Hout].
  destruct (outcome (m fs)) as [a|e] eqn:E; simpl.
  - intros Hthrow. apply Hk in Hthrow.
    apply (Φ_frame (events (m fs)) _ []) in Hthrow; [|done|constructor].
    by rewrite app_nil_r in Hthrow.
  - congruence.
Qed.

Lemma on_rejection_rethrow {A} (m : M A) (what : string) :
  on_rejection Φ m →
  on_rejection Φ (try_catch m (λ e, emit (EvError what) >> throw e)).
Proof.
  intros Hm fs. unfold try_catch.
  destruct (outcome (m fs)) as [a|e] eqn:E; simpl.
  - rewrite E. discriminate.
  - intros [= ->]. apply Hm in E.
    apply (Φ_frame [] _ [EvError what]) in E; [done|constructor|].
    constructor; [|constructor]. by intros p.
Qed.

Lemma on_rejection_finally {A} (m : M A) (f : M unit) :
  on_rejection Φ m → discreet f → on_rejection Φ (try_finally m f).
Proof.
  intros Hm Hf fs. unfold try_finally. simpl.
  destruct (Hf (fs_after (m fs))) as [Hev Hout].
  destruct (outcome (f (fs_after (m fs)))) as [[]|e]; [|congruence].
  intros Hthrow. apply Hm in Hthrow.
  by apply (Φ_frame [] _ (events (f (fs_after (m fs))))) in Hthrow;
    [|constructor|].
Qed.

End Rejection.

Lemma quiet_frame (pre l post : list Event) :
  Forall not_failed_report pre → Forall not_failed_report post →
  Forall not_failed_report l → Forall not_failed_report (pre ++ l ++ post).
Proof. intros. by repeat apply Forall_app_2. Qed.

Lemma told_frame (e : Event) (pre l post : list Event) :
  Forall not_failed_report pre → Forall not_failed_report post →
  e ∈ l → e ∈ pre ++ l ++ post.
Proof. intros _ _ H. set_solver. Qed.

Lemma reportProgress_returns (env : Env) exportId webhookUrl progress status fs :
  outcome (reportProgress env exportId webhookUrl progress status fs) = Ok tt
  ∧ fs_after (reportProgress env exportId webhookUrl progress status fs) = fs.
Proof.
  unfold reportProgress, when, bind. destruct (JS.truthy_opt webhookUrl); simpl; [|done].
  by destruct (fetch_webhook env progress status).
Qed.

(** Follow a chain of [discreet] stages up to the one that may reject. *)
Ltac rejection_chain frame :=
  repeat first
    [ apply (on_rejection_bind _ frame); [solve [auto with discreet]|intros ?]
    | apply (on_rejection_discreet _); solve [auto with discreet] ].

Section UploadStage.
Context (env : Env).

Lemma rejected_unreported_frame (pre l post : list Event) :
  Forall not_failed_report pre → Forall not_failed_report post →
  rejected_unreported env l → rejected_unreported env (pre ++ l ++ post).
Proof.
  intros Hpre Hpost (Hl & Hresp & Hup). split; [|split; [done|]].
  - by repeat apply Forall_app_2.
  - rewrite !elem_of_app. auto.
Qed.

Lemma staging_upload_quiet exportId webhookUrl baseDir framesDir audioPath :
  on_rejection (rejected_unreported env)
    (AssetStaging.mergeAndUpload env exportId webhookUrl baseDir framesDir audioPath).
Proof.
  unfold AssetStaging.mergeAndUpload.
  pose proof (discreet_reportProgress env exportId webhookUrl).
  pose proof rejected_unreported_frame as frame.
  apply (on_rejection_bind _ frame); [auto with discreet|intros _].
  apply (on_rejection_bind _ frame); [auto with discreet|intros _].
  apply (on_rejection_bind _ frame); [auto with discreet|intros _].
  apply (on_rejection_bind _ frame); [apply discreet_existsSync|intros found].
  destruct found.
  - apply (on_rejection_bind _ frame); [auto with discreet|intros _].
    intros fs. unfold bind, emit. cbn [outcome fs_after events].
    destruct (fetch_upload env) as [|[]] eqn:Hresp.
    + cbn. discriminate.
    + cbn [app outcome].
      destruct (reportProgress_returns env exportId webhookUrl 100 "completed" fs)
        as [-> _]. discriminate.
    + intros _. cbn. split; [|split; [done|set_solver]].
      constructor; [by intros p|constructor].
  - intros fs. unfold bind. simpl.
    by destruct (reportProgress_returns env exportId webhookUrl 100 "failed" fs)
      as [-> _].
Qed.

Lemma mapping_upload_told exportId webhookUrl videoPath :
  JS.truthy_opt webhookUrl = true →
  on_rejection (λ evs, EvReport 100 "failed" ∈ evs)
    (PathMapping.upload env exportId webhookUrl videoPath).
Proof.
  intros Hhook fs. unfold PathMapping.upload.
  rewrite (bind_ok _ _ _ (bool_decide (videoPath ∈ fs))) by done. simpl.
  destruct (bool_decide (videoPath ∈ fs)); simpl.
  - match goal with |- context [bind (try_catch ?m ?h) _] =>
      set (attempt := try_catch m h) end.
    assert (Hattempt : ∀ e, outcome (attempt fs) = Throw e →
              EvReport 100 "failed" ∈ events (attempt fs)).
    { subst attempt. unfold try_catch.
      match goal with |- context [outcome (?m fs)] => set (body := m fs) end.
      destruct (outcome body) as [[]|e] eqn:Ebody; [intros ?; congruence|].
      intros e' _. simpl. apply elem_of_app. right.
      unfold bind, reportProgress, when, emit. rewrite Hhook. simpl.
      destruct (fetch_webhook env 100 "failed"); simpl; set_solver. }
    clearbody attempt.
    destruct (outcome (attempt fs)) as [[]|e] eqn:E.
    + rewrite (bind_ok _ _ _ _ E). simpl.
      unfold try_catch, unlink, bind. simpl.
      destruct (unlink_ok env videoPath); simpl; discriminate.
    + rewrite (bind_throw _ _ _ _ E). simpl. intros _. by eapply Hattempt.
  - unfold bind. simpl.
    by destruct (reportProgress_returns env exportId webhookUrl 100 "failed" fs)
      as [-> _].
Qed.

End UploadStage.

(** C4. What the revision with asset staging does instead: a run ends
    with the error thrown for a rejected upload only after the upload
    request was sent and answered with a status that is not a success,
    and such a run has sent no report of the status [failed], neither
    before the error nor while it propagates through [catch] and
    [finally]. *)
Theorem rejected_upload_unreported (env : Env) (design : Design)
    (exportId : string) (webhookUrl : option string) (fs : FS) :
  outcome (AssetStaging.renderVideo env design exportId webhookUrl fs)
    = Throw ErrUploadFailed →
  rejected_unreported env
    (events (AssetStaging.renderVideo env design exportId webhookUrl fs)).
Proof.
  revert fs. change (on_rejection (rejected_unreported env)
    (AssetStaging.renderVideo env design exportId webhookUrl)).
  pose proof (rejected_unreported_frame env) as frame.
  unfold AssetStaging.renderVideo.
  apply (on_rejection_bind _ frame); [apply discreet_existsSync|intros found].
  apply (on_rejection_bind _ frame); [discreet_auto|intros _].
  apply (on_rejection_bind _ frame); [auto with discreet|intros _].
  apply (on_rejection_finally _ frame);
    [|unfold AssetStaging.finalizer; discreet_auto].
  apply (on_rejection_rethrow _ frame).
  unfold AssetStaging.renderBody.
  apply (on_rejection_bind _ frame); [auto with discreet|intros localDesign].
  apply (on_rejection_bind _ frame); [auto with discreet|intros [[audioPath objs] duration]].
  do 5 (apply (on_rejection_bind _ frame); [auto with discreet|intros _]).
  apply (on_rejection_bind _ frame); [discreet_auto|intros _].
  do 2 (apply (on_rejection_bind _ frame); [auto with discreet|intros _]).
  apply (on_rejection_bind _ frame);
    [apply discreet_staging_captureLoop|intros seeks].
  apply (on_rejection_bind _ frame); [auto with discreet|intros _].
  apply staging_upload_quiet.
Qed.

Lemma rejected_upload_unreported_witness :
  let r := AssetStaging.renderVideo Scenario.uploadRejected Scenario.oneClip
             "job1" (Some "http://backend.example.com/hook") Scenario.merged in
  outcome r = Throw ErrUploadFailed
  ∧ rejected_unreported Scenario.uploadRejected (events r).
Proof.
  split; [vm_compute; reflexivity|].
  apply rejected_upload_unreported. vm_compute. reflexivity.
Defined.

(** The reports of that run end with [uploading]. *)
Example rejected_upload_last_report :
  last (reported (events
    (AssetStaging.renderVideo Scenario.uploadRejected Scenario.oneClip
       "job1" (Some "http://backend.example.com/hook") Scenario.merged)))
  = Some (95%Z, "uploading").
Proof. vm_compute. reflexivity. Qed.

(** The earlier revision does what the claim says: with a webhook
    configured, a run that ends with the error of a rejected upload has
    reported [failed] before. *)
Lemma rejected_upload_reported_before (env : Env) (design : Design)
    (exportId : string) (webhookUrl : option string) (fs : FS) :
  JS.truthy_opt webhookUrl = true →
  outcome (PathMapping.renderVideo env design exportId webhookUrl fs)
    = Throw ErrUploadFailed →
  EvReport 100 "failed"
    ∈ events (PathMapping.renderVideo env design exportId webhookUrl fs).
Proof.
  intros Hhook. revert fs.
  change (on_rejection (λ evs, EvReport 100 "failed" ∈ evs)
    (PathMapping.renderVideo env design exportId webhookUrl)).
  pose proof (told_frame (EvReport 100 "failed")) as frame.
  pose proof (discreet_reportProgress env exportId webhookUrl).
  unfold PathMapping.renderVideo.
  apply (on_rejection_bind _ frame); [apply discreet_existsSync|intros found].
  apply (on_rejection_bind _ frame); [discreet_auto|intros _].
  apply (on_rejection_bind _ frame); [apply discreet_get_fs|intros fs0].
  apply (on_rejection_bind _ frame); [auto with discreet|intros [[audioPath objs] duration]].
  do 3 (apply (on_rejection_bind _ frame); [auto with discreet|intros _]).
  apply (on_rejection_finally _ frame); [|auto with discreet].
  apply (on_rejection_rethrow _ frame).
  unfold PathMapping.renderBody.
  do 3 (apply (on_rejection_bind _ frame); [auto with discreet|intros _]).
  apply (on_rejection_bind _ frame); [discreet_auto|intros _].
  do 2 (apply (on_rejection_bind _ frame); [auto with discreet|intros _]).
  apply (on_rejection_bind _ frame); [discreet_auto|intros _].
  apply (on_rejection_bind _ frame); [auto with discreet|intros _].
  apply (on_rejection_bind _ frame); [discreet_auto|intros _].
  apply (on_rejection_bind _ frame);
    [apply discreet_mapping_captureLoop|intros seeks].
  apply (on_rejection_bind _ frame); [auto with discreet|intros done].
  destruct done.
  - apply (on_rejection_discreet _). auto with discreet.
  - do 3 (apply (on_rejection_bind _ frame); [auto with discreet|intros _]).
    by apply mapping_upload_told.
Qed.

(** ** Removal of the working directory *)

(** Membership in the file system a concrete run leaves, by running it. *)
Ltac elem_by_computation :=
  match goal with
  | |- ?p ∈ ?X =>
      let Y := fresh "Y" in
      let HY := fresh "HY" in
      remember X as Y eqn:HY;
      apply (bool_decide_eq_true_1 (p ∈ Y));
      subst Y; vm_compute; reflexivity
  end.

Section Cleanup.
Context (env : Env).

Lemma cleanupExport_returns (exportId : string) (fs : FS) :
  outcome (AssetStaging.cleanupExport env exportId fs) = Ok tt.
Proof.
  unfold AssetStaging.cleanupExport, bind, existsSync, when. simpl.
  destruct (bool_decide _); simpl; [|done].
  unfold try_catch, rm, bind. simpl.
  by destruct (rm_ok env _).
Qed.

Lemma cleanupExport_removes (exportId : string) (fs : FS) :
  let exportDir := path_join (tmpdir env) exportId in
  let r := AssetStaging.cleanupExport env exportId fs in
  rm_ok env exportDir = true →
  (exportDir ∉ fs_after r)
  ∧ (exportDir ∈ fs → ∀ q, is_inside exportDir q = true → q ∉ fs_after r).
Proof.
  intros exportDir r Hrm. subst r.
  unfold AssetStaging.cleanupExport, bind, existsSync, when. simpl.
  fold exportDir. destruct (bool_decide_reflect (exportDir ∈ fs)) as [Hin|Hout]; simpl.
  - unfold try_catch, rm, bind. simpl. rewrite Hrm. simpl.
    split; [|intros _ q Hq]; rewrite elem_of_filter; intros [[? ?] _]; congruence.
  - split; [done|]. intros Hin. done.
Qed.

Lemma cleanupExport_logs_failure (exportId : string) (fs : FS) :
  let exportDir := path_join (tmpdir env) exportId in
  let r := AssetStaging.cleanupExport env exportId fs in
  rm_ok env exportDir = false →
  fs_after r = fs
  ∧ (exportDir ∈ fs → EvError "Failed to cleanup directory" ∈ events r).
Proof.
  intros exportDir r Hrm. subst r.
  unfold AssetStaging.cleanupExport, bind, existsSync, when. simpl.
  fold exportDir. destruct (bool_decide_reflect (exportDir ∈ fs)) as [Hin|Hout]; simpl.
  - unfold try_catch, rm, bind. simpl. rewrite Hrm. simpl.
    split; [done|]. intros _. set_solver.
  - done.
Qed.

End Cleanup.

Lemma staging_browser_ok (env : Env) (c : BrowserCall) (fs : FS) :
  browser_ok env c = true →
  AssetStaging.browser env c fs = mkRun (Ok tt) fs [EvBrowser c].
Proof. intros H. unfold AssetStaging.browser, bind. simpl. by rewrite H. Qed.

Lemma ensure_frames_dir (env : Env) (exportId : string) (fs : FS) :
  let framesDir := path_join (path_join (tmpdir env) exportId) "frames" in
  let m := when (negb (bool_decide (framesDir ∈ fs))) (mkdir env framesDir) in
  framesDir ∈ fs ∨ mkdir_ok env framesDir = true →
  outcome (m fs) = Ok tt ∧ fs_after (m fs) = entry_fs env exportId fs.
Proof.
  intros framesDir m Hdir. subst m. unfold entry_fs. fold framesDir.
  destruct (bool_decide_reflect (framesDir ∈ fs)) as [Hin|Hout]; simpl; [done|].
  destruct Hdir as [?|Hmk]; [done|].
  unfold mkdir, bind. simpl. rewrite Hmk. simpl. done.
Qed.

(** C6, as stated, fails twice over: a launch failure happens before the
    [try] block of the staging revision, so nothing removes the
    directory made just before; and the earlier revision has no removal
    of the directory at all, even on a run in which every call succeeds. *)
Lemma workdir_left_behind :
  ¬ workdir_gone Scenario.noBrowser "job1"
      (AssetStaging.renderVideo Scenario.noBrowser Scenario.oneClip "job1" None ∅)
  ∧ ¬ workdir_gone Scenario.calm "job1"
      (PathMapping.renderVideo Scenario.calm Scenario.oneClip "job1" None ∅).
Proof.
  split; unfold workdir_gone; intros H; apply H; clear H; elem_by_computation.
Qed.


(** The frame of [renderVideo] around any [try] block: the directory is
    made, the browser launched, the block run, the browser closed and
    the directory cleaned up. *)
Lemma guarded_run (env : Env) (exportId : string) (body : M unit) (fs : FS) :
  let framesDir := path_join (path_join (tmpdir env) exportId) "frames" in
  let attempt := body (entry_fs env exportId fs) in
  let cleanup := AssetStaging.cleanupExport env exportId (fs_after attempt) in
  framesDir ∈ fs ∨ mkdir_ok env framesDir = true →
  browser_ok env Launch = true →
  browser_ok env Close = true →
  ∃ pre,
    (let* found := existsSync framesDir in
     when (negb found) (mkdir env framesDir) >>
     AssetStaging.browser env Launch >>
     try_finally body (AssetStaging.finalizer env exportId)) fs
    = mkRun (outcome attempt) (fs_after cleanup)
            (pre ++ events attempt ++ EvBrowser Close :: events cleanup).
Proof.
  intros framesDir attempt cleanup Hdir Hlaunch Hclose.
  destruct (ensure_frames_dir env exportId fs Hdir) as [Hmk Hentry].
  fold framesDir in Hmk, Hentry.
  exists (events (when (negb (bool_decide (framesDir ∈ fs))) (mkdir env framesDir) fs)
          ++ [EvBrowser Launch]).
  rewrite (bind_ok _ _ fs (bool_decide (framesDir ∈ fs))) by reflexivity.
  cbn [outcome fs_after events existsSync].
  rewrite (bind_ok _ _ fs tt) by exact Hmk. rewrite Hentry.
  rewrite (bind_ok _ _ _ tt) by (rewrite staging_browser_ok by exact Hlaunch; reflexivity).
  rewrite staging_browser_ok by exact Hlaunch.
  cbn [outcome fs_after events].
  unfold try_finally, AssetStaging.finalizer.
  fold attempt.
  rewrite (bind_ok _ _ (fs_after attempt) tt)
    by (rewrite staging_browser_ok by exact Hclose; reflexivity).
  rewrite staging_browser_ok by exact Hclose.
  cbn [outcome fs_after events].
  fold cleanup.
  assert (Hret : outcome cleanup = Ok tt) by apply cleanupExport_returns.
  rewrite Hret. cbn [app]. rewrite <- app_assoc. reflexivity.
Qed.

(** C6, amended. In the staging revision, once the frames directory is
    there and the browser has been launched, the run ends however the
    [try] block ends: [browser.close()] and then [cleanupExport] run
    after it.  If closing the browser succeeds, the outcome of
    [renderVideo] is the outcome of the [try] block whether or not the
    removal succeeds; if the removal succeeds the working directory no
    longer exists, nor anything inside it; if it fails, that is logged
    and the directory stays. *)
Theorem workdir_removed_after_try (env : Env) (design : Design)
    (exportId : string) (webhookUrl : option string) (fs : FS) :
  path_join (path_join (tmpdir env) exportId) "frames" ∈ fs
  ∨ mkdir_ok env (path_join (path_join (tmpdir env) exportId) "frames") = true →
  browser_ok env Launch = true →
  browser_ok env Close = true →
  outcome (AssetStaging.renderVideo env design exportId webhookUrl fs)
  = outcome (stagingAttempt env design exportId webhookUrl fs)
  ∧ (rm_ok env (path_join (tmpdir env) exportId) = true →
       workdir_gone env exportId
         (AssetStaging.renderVideo env design exportId webhookUrl fs)
       ∧ (path_join (tmpdir env) exportId
            ∈ fs_after (stagingAttempt env design exportId webhookUrl fs) →
          ∀ q, is_inside (path_join (tmpdir env) exportId) q = true →
               q ∉ fs_after (AssetStaging.renderVideo env design exportId webhookUrl fs)))
  ∧ (rm_ok env (path_join (tmpdir env) exportId) = false →
       fs_after (AssetStaging.renderVideo env design exportId webhookUrl fs)
       = fs_after (stagingAttempt env design exportId webhookUrl fs)
       ∧ (path_join (tmpdir env) exportId
            ∈ fs_after (stagingAttempt env design exportId webhookUrl fs) →
          EvError "Failed to cleanup directory"
            ∈ events (AssetStaging.renderVideo env design exportId webhookUrl fs))).
Proof.
  intros Hdir Hlaunch Hclose.
  destruct (guarded_run env exportId
              (AssetStaging.tryBlock env design exportId webhookUrl) fs
              Hdir Hlaunch Hclose) as [pre Hrun].
  unfold stagingAttempt, AssetStaging.renderVideo.
  generalize dependent
    (AssetStaging.tryBlock env design exportId webhookUrl (entry_fs env exportId fs)).
  intros attempt Hrun.
  rewrite Hrun. cbn [outcome fs_after events].
  split; [reflexivity|split].
  - intros Hrm. unfold workdir_gone. cbn [fs_after].
    exact (cleanupExport_removes env exportId (fs_after attempt) Hrm).
  - intros Hrm.
    destruct (cleanupExport_logs_failure env exportId (fs_after attempt) Hrm)
      as [Hsame Hlog].
    split; [exact Hsame|]. intros Hin. specialize (Hlog Hin).
    apply elem_of_app; right. apply elem_of_app; right.
    apply elem_of_cons; right. exact Hlog.
Qed.


Lemma workdir_removed_after_try_witness :
  workdir_gone Scenario.calm "job1"
    (AssetStaging.renderVideo Scenario.calm Scenario.oneClip "job1" None ∅).
Proof.
  refine (proj1 (proj1 (proj2
    (workdir_removed_after_try Scenario.calm Scenario.oneClip "job1" None ∅
       (or_intror eq_refl) eq_refl eq_refl)) eq_refl)).
Defined.

(** ** The frame loop *)

Lemma written_app (a b : list Event) : written (a ++ b) = written a ++ written b.
Proof. apply omap_app. Qed.

Lemma sought_app (a b : list Event) : sought (a ++ b) = sought a ++ sought b.
Proof. apply omap_app. Qed.

Lemma reportProgress_silent (env : Env) exportId webhookUrl progress status fs :
  written (events (reportProgress env exportId webhookUrl progress status fs)) = []
  ∧ sought (events (reportProgress env exportId webhookUrl progress status fs)) = [].
Proof.
  unfold reportProgress, when, bind. destruct (JS.truthy_opt webhookUrl); simpl; [|done].
  by destruct (fetch_webhook env progress status).
Qed.

Lemma length_append (a b : string) :
  String.length (a +:+ b) = (String.length a + String.length b)%nat.
Proof. induction a as [|c a IH]; simpl; [done|]. by rewrite IH. Qed.

Lemma app_inj_tail_string (s x y : string) : x +:+ s = y +:+ s → x = y.
Proof.
  revert y. induction x as [|c x IH]; intros [|d y]; simpl; intros H.
  - done.
  - apply (f_equal String.length) in H. simpl in H.
    rewrite !length_append in H. simpl in H. lia.
  - apply (f_equal String.length) in H. simpl in H.
    rewrite !length_append in H. simpl in H. lia.
  - injection H as -> H. f_equal. by apply IH.
Qed.

Lemma frame_path_inj (dir : string) : Inj (=) (=) (frame_path dir).
Proof.
  intros i j H. unfold frame_path, path_join in H.
  apply (inj (String.append dir)) in H.
  apply (inj (String.append "/")) in H.
  apply (inj (String.append "frame_")) in H.
  apply app_inj_tail_string in H.
  by apply (inj pretty) in H.
Qed.

Section FrameLoop.
Context (env : Env) (exportId : string) (webhookUrl : option string)
        (framesDir : string) (totalFrames : Z).

(** A turn of the staging loop that does not throw has sought frame
    [i] and written its file, and nothing else. *)
Lemma staging_captureFrame_ok (i : nat) (seeks seeks' : nat * nat) (fs : FS) :
  outcome (AssetStaging.captureFrame env exportId webhookUrl framesDir
             totalFrames i seeks fs) = Ok seeks' →
  written (events (AssetStaging.captureFrame env exportId webhookUrl framesDir
                     totalFrames i seeks fs)) = [frame_path framesDir i]
  ∧ sought (events (AssetStaging.captureFrame env exportId webhookUrl framesDir
                      totalFrames i seeks fs)) = [i]
  ∧ fs_after (AssetStaging.captureFrame env exportId webhookUrl framesDir
                totalFrames i seeks fs) = {[frame_path framesDir i]} ∪ fs.
Proof.
  unfold AssetStaging.captureFrame.
  set (report := when (i mod 5 =? 0)%nat
                   (reportProgress env exportId webhookUrl
                      (progressOf i totalFrames) "rendering_frames")).
  assert (Hrep : outcome (report fs) = Ok tt ∧ fs_after (report fs) = fs
                 ∧ written (events (report fs)) = []
                 ∧ sought (events (report fs)) = []).
  { subst report. unfold when. destruct (i mod 5 =? 0)%nat; [|done].
    destruct (reportProgress_returns env exportId webhookUrl
                (progressOf i totalFrames) "rendering_frames" fs) as [-> ->].
    destruct (reportProgress_silent env exportId webhookUrl
                (progressOf i totalFrames) "rendering_frames" fs) as [-> ->].
    done. }
  destruct Hrep as (Hout & Hfs & Hw & Hs). clearbody report.
  rewrite (bind_ok _ _ _ tt Hout). cbn [outcome fs_after events].
  rewrite Hfs, written_app, sought_app, Hw, Hs. clear Hout Hfs Hw Hs.
  unfold bind, emit, writeFile, update_fs, ret, throw.
  destruct (seek_ok env i); [|cbn; discriminate].
  destruct (i <? 5)%nat; cbn.
  - destruct (first_video_diff env i) as [accuracy|]; cbn; [|discriminate].
    destruct (Qltb accuracy (1 # 2)); cbn;
      (destruct (capture env i) as [[dataUrl|]|]; cbn; [|discriminate..]);
      (destruct (JS.split dataUrl "," !! 1%nat); cbn; [|discriminate]);
      (destruct (writeFile_ok env (frame_path framesDir i)); cbn;
         [|discriminate]); intros _; done.
  - destruct (capture env i) as [[dataUrl|]|]; cbn; [|discriminate..].
    destruct (JS.split dataUrl "," !! 1%nat); cbn; [|discriminate].
    destruct (writeFile_ok env (frame_path framesDir i)); cbn; [|discriminate].
    intros _. done.
Qed.

Lemma staging_captureLoop_ok (todo : list nat) (seeks seeks' : nat * nat) (fs : FS) :
  outcome (AssetStaging.captureLoop env exportId webhookUrl framesDir
             totalFrames todo seeks fs) = Ok seeks' →
  written (events (AssetStaging.captureLoop env exportId webhookUrl framesDir
                     totalFrames todo seeks fs)) = map (frame_path framesDir) todo
  ∧ sought (events (AssetStaging.captureLoop env exportId webhookUrl framesDir
                      totalFrames todo seeks fs)) = todo
  ∧ fs_after (AssetStaging.captureLoop env exportId webhookUrl framesDir
                totalFrames todo seeks fs)
    = list_to_set (map (frame_path framesDir) todo) ∪ fs.
Proof.
  revert seeks fs. induction todo as [|i todo IH]; intros seeks fs; cbn [AssetStaging.captureLoop].
  - intros _. cbn. split_and!; try done. by rewrite (left_id_L ∅ (∪)).
  - destruct (outcome (AssetStaging.captureFrame env exportId webhookUrl framesDir
                         totalFrames i seeks fs)) as [s1|e] eqn:E.
    + rewrite (bind_ok _ _ _ _ E). cbn [outcome fs_after events].
      destruct (staging_captureFrame_ok i seeks s1 fs E) as (Hw & Hs & Hfs).
      intros Hrest. destruct (IH _ _ Hrest) as (Hw' & Hs' & Hfs').
      rewrite written_app, sought_app, Hw, Hs, Hw', Hs', Hfs', Hfs.
      split_and!; try done. cbn [map list_to_set].
      apply set_eq. intros x. rewrite !elem_of_union. tauto.
    + rewrite (bind_throw _ _ _ _ E). discriminate.
Qed.

(** A turn of the path-mapping loop that does not throw has sought
    frame [i] and written its file exactly when the capture was valid. *)
Lemma mapping_captureFrame_ok (i : nat) (seeks seeks' : nat * nat) (fs : FS) :
  outcome (PathMapping.captureFrame env exportId webhookUrl framesDir
             totalFrames i seeks fs) = Ok seeks' →
  written (events (PathMapping.captureFrame env exportId webhookUrl framesDir
                     totalFrames i seeks fs))
  = (if capturedValid env i then [frame_path framesDir i] else [])
  ∧ sought (events (PathMapping.captureFrame env exportId webhookUrl framesDir
                      totalFrames i seeks fs)) = [i].
Proof.
  unfold PathMapping.captureFrame, capturedValid.
  set (report := when (i mod 5 =? 0)%nat
                   (reportProgress env exportId webhookUrl
                      (progressOf i totalFrames) "rendering_frames")).
  assert (Hrep : outcome (report fs) = Ok tt ∧ fs_after (report fs) = fs
                 ∧ written (events (report fs)) = []
                 ∧ sought (events (report fs)) = []).
  { subst report. unfold when. destruct (i mod 5 =? 0)%nat; [|done].
    destruct (reportProgress_returns env exportId webhookUrl
                (progressOf i totalFrames) "rendering_frames" fs) as [-> ->].
    destruct (reportProgress_silent env exportId webhookUrl
                (progressOf i totalFrames) "rendering_frames" fs) as [-> ->].
    done. }
  destruct Hrep as (Hout & Hfs & Hw & Hs). clearbody report.
  rewrite (bind_ok _ _ _ tt Hout). cbn [outcome fs_after events].
  rewrite Hfs, written_app, sought_app, Hw, Hs. clear Hout Hfs Hw Hs.
  unfold bind, emit, writeFile, update_fs, ret, throw.
  destruct (seek_ok env i); [|cbn; discriminate].
  destruct (i <? 5)%nat; cbn.
  - destruct (all_video_diffs env i) as [videoStatus|]; cbn; [|discriminate].
    destruct (forallb _ videoStatus); cbn;
      (destruct (capture env i) as [dataUrl|]; cbn; [|discriminate]);
      (destruct (PathMapping.validDataUrl dataUrl); cbn; [|done]);
      (destruct (JS.split (default "" dataUrl) "," !! 1%nat); cbn; [|discriminate]);
      (destruct (writeFile_ok env (frame_path framesDir i)); cbn;
         [|discriminate]); done.
  - destruct (capture env i) as [dataUrl|]; cbn; [|discriminate].
    destruct (PathMapping.validDataUrl dataUrl); cbn; [|done].
    destruct (JS.split (default "" dataUrl) "," !! 1%nat); cbn; [|discriminate].
    destruct (writeFile_ok env (frame_path framesDir i)); cbn; [|discriminate].
    done.
Qed.

Lemma mapping_captureLoop_ok (todo : list nat) (seeks seeks' : nat * nat) (fs : FS) :
  outcome (PathMapping.captureLoop env exportId webhookUrl framesDir
             totalFrames todo seeks fs) = Ok seeks' →
  written (events (PathMapping.captureLoop env exportId webhookUrl framesDir
                     totalFrames todo seeks fs))
  = map (frame_path framesDir) (List.filter (capturedValid env) todo)
  ∧ sought (events (PathMapping.captureLoop env exportId webhookUrl framesDir
                      totalFrames todo seeks fs)) = todo.
Proof.
  revert seeks fs. induction todo as [|i todo IH]; intros seeks fs; cbn [PathMapping.captureLoop].
  - intros _. cbn. done.
  - destruct (outcome (PathMapping.captureFrame env exportId webhookUrl framesDir
                         totalFrames i seeks fs)) as [s1|e] eqn:E.
    + rewrite (bind_ok _ _ _ _ E). cbn [outcome fs_after events].
      destruct (mapping_captureFrame_ok i seeks s1 fs E) as (Hw & Hs).
      intros Hrest. destruct (IH _ _ Hrest) as (Hw' & Hs').
      rewrite written_app, sought_app, Hw, Hs, Hw', Hs'.
      split; [|done]. cbn [List.filter]. by destruct (capturedValid env i).
    + rewrite (bind_throw _ _ _ _ E). discriminate.
Qed.

End FrameLoop.

(** C2, as stated, fails in the path-mapping revision: a capture that is
    not an image data URL is skipped with a warning, the loop goes on,
    and the frame file of that index is never written. *)
Lemma frames_persisted_blank :
  ¬ frames_persisted
      (PathMapping.captureFrames Scenario.blankThird "job1" None "/tmp/job1" 5)
      "/tmp/job1" 5 ∅.
Proof.
  intros H. specialize (H (5, 0)%nat).
  assert (Hrun : outcome (PathMapping.captureFrames Scenario.blankThird "job1"
                            None "/tmp/job1" 5 ∅) = Ok (5, 0)%nat)
    by (vm_compute; reflexivity).
  specialize (H Hrun). apply (f_equal length) in H.
  vm_compute in H. discriminate H.
Qed.

(** The same on a whole run: the merge is reached and the run returns,
    yet [frame_3.png] was not written. *)
Example merged_without_frame_3 :
  let r := PathMapping.renderVideo Scenario.blankThird
             (mkDesign None (Some [])) "job1" None ∅ in
  outcome r = Ok tt
  ∧ reached_merge (events r) = true
  ∧ bool_decide ("/tmp/job1/frame_3.png" ∈ written (events r)) = false
  ∧ bool_decide ("/tmp/job1/frame_4.png" ∈ written (events r)) = true.
Proof. vm_compute. done. Qed.

(** C2, amended. [totalFrames] is [Math.floor(duration * fps)] with
    [fps = 24]; a frame loop that returns has sought every index
    [0 .. totalFrames - 1] once, in increasing order, and has written
    frame files only for those indices, none twice.  In the staging
    revision it has written every one of them, and these are the files
    it has added; in the path-mapping revision it has written exactly
    those whose capture was an image data URL, the others being skipped
    with a warning. *)
Theorem frames_written_in_order (env : Env) (exportId : string)
    (webhookUrl : option string) (framesDir : string) (duration : Q)
    (fs : FS) (seeks : nat * nat) :
  (outcome (AssetStaging.captureFrames env exportId webhookUrl framesDir
              duration fs) = Ok seeks →
     written (events (AssetStaging.captureFrames env exportId webhookUrl
                        framesDir duration fs))
     = map (frame_path framesDir) (seq 0 (Z.to_nat (Qfloor (duration * 24))))
     ∧ sought (events (AssetStaging.captureFrames env exportId webhookUrl
                         framesDir duration fs))
       = seq 0 (Z.to_nat (Qfloor (duration * 24)))
     ∧ fs_after (AssetStaging.captureFrames env exportId webhookUrl
                   framesDir duration fs)
       = list_to_set (map (frame_path framesDir)
                        (seq 0 (Z.to_nat (Qfloor (duration * 24))))) ∪ fs)
  ∧ (outcome (PathMapping.captureFrames env exportId webhookUrl framesDir
                duration fs) = Ok seeks →
     written (events (PathMapping.captureFrames env exportId webhookUrl
                        framesDir duration fs))
     = map (frame_path framesDir)
           (List.filter (capturedValid env)
              (seq 0 (Z.to_nat (Qfloor (duration * 24)))))
     ∧ sought (events (PathMapping.captureFrames env exportId webhookUrl
                         framesDir duration fs))
       = seq 0 (Z.to_nat (Qfloor (duration * 24))))
  ∧ NoDup (map (frame_path framesDir) (seq 0 (Z.to_nat (Qfloor (duration * 24))))).
Proof.
  split; [|split].
  - apply staging_captureLoop_ok.
  - apply mapping_captureLoop_ok.
  - apply (@NoDup_fmap_2 _ _ (frame_path framesDir) (frame_path_inj framesDir)).
    apply NoDup_ListNoDup, List.seq_NoDup.
Qed.

Lemma frames_written_in_order_witness :
  written (events (AssetStaging.captureFrames Scenario.calm "job1" None
                     "/tmp/job1" 5 ∅))
  = map (frame_path "/tmp/job1") (seq 0 (Z.to_nat (Qfloor (5 * 24)))).
Proof.
  refine (proj1 (proj1 (frames_written_in_order Scenario.calm "job1" None
                          "/tmp/job1" 5 ∅ (5, 0)%nat) _)).
  vm_compute. reflexivity.
Defined.

(** ** The fallback check *)

Lemma ratio_lt_iff (s n : nat) (p : Z) (q : positive) :
  (0 < n)%nat →
  (Q_of_nat s / Q_of_nat n < p # q)%Q ↔ (Z.of_nat s * Z.pos q < p * Z.of_nat n)%Z.
Proof.
  intros Hn. unfold Q_of_nat, Qdiv, Qinv, Qmult, Qlt, inject_Z. simpl.
  destruct (Z.of_nat n) as [|m|m] eqn:E; [lia| |lia]. simpl. lia.
Qed.

Lemma ratio_below_half (s f : nat) :
  (s <? f)%nat = true ↔ ratio_below (s, f) (1 # 2).
Proof.
  unfold ratio_below, successRatio. simpl. rewrite Nat.ltb_lt. split.
  - intros H. split; [lia|]. apply ratio_lt_iff; lia.
  - intros [Hn H]. apply ratio_lt_iff in H; lia.
Qed.

Lemma accuracy_below_20 (s f : nat) :
  (0 <? s + f)%nat && Qltb (PathMapping.accuracyOf (s, f)) 50
    && Qltb (PathMapping.accuracyOf (s, f)) 20 = true
  ↔ ratio_below (s, f) (1 # 5).
Proof.
  unfold ratio_below. simpl.
  change (PathMapping.accuracyOf (s, f)) with (successRatio (s, f) * 100)%Q.
  rewrite !andb_true_iff, !Qltb_true, Nat.ltb_lt. split.
  - intros [[Hn _] H]. split; [done|]. lra.
  - intros [Hn H]. repeat split; [done|lra|lra].
Qed.

Section Fallback.
Context (env : Env).

Lemma extract_logs_attempt videoPath outputDir fps duration fs :
  fallback_invoked
    (events (extractVideoFramesWithFFmpeg env videoPath outputDir fps duration fs))
  = true.
Proof.
  unfold extractVideoFramesWithFFmpeg, try_catch.
  match goal with |- context [outcome (?m fs)] => set (body := m) end.
  assert (Hbody : fallback_invoked (events (body fs)) = true).
  { subst body. unfold bind at 1. reflexivity. }
  clearbody body.
  destruct (outcome (body fs)); [done|].
  cbn [events]. unfold fallback_invoked in *. rewrite existsb_app, Hbody. done.
Qed.

(** When the staging revision calls the fallback. *)
Lemma staging_fallback_called objects s f framesDir duration fs :
  fallback_invoked
    (events (AssetStaging.fallbackCheck env objects (s, f) framesDir duration fs))
  = true
  ↔ (s < f)%nat ∧ ∃ obj, objects = [obj] ∧ o_type obj = Some "video".
Proof.
  unfold AssetStaging.fallbackCheck, when.
  destruct (Nat.ltb_spec s f) as [Hlt|Hge].
  - destruct objects as [|obj [|obj' rest]].
    + split; [discriminate|]. intros [_ (o & [=] & _)].
    + destruct (bool_decide_reflect (o_type obj = Some "video")) as [Hv|Hv].
      * split; [intros _; eauto|intros _].
        unfold bind at 1. cbn [emit outcome fs_after events].
        unfold bind at 1.
        pose proof (extract_logs_attempt (o_src obj) framesDir fps duration fs) as Hlog.
        destruct (outcome (extractVideoFramesWithFFmpeg env (o_src obj) framesDir
                             fps duration fs));
          cbn [events]; unfold fallback_invoked in *;
          rewrite ?existsb_app, Hlog; cbn; by rewrite ?orb_true_r.
      * split; [discriminate|]. intros [_ (o & [= <-] & Ho)]. done.
    + split; [discriminate|]. intros [_ (o & [=] & _)].
  - split; [discriminate|]. intros [? _]. lia.
Qed.

(** When the path-mapping revision calls it. *)
Lemma mapping_fallback_called objects s f framesDir duration fs :
  fallback_invoked
    (events (PathMapping.fallbackCheck env objects (s, f) framesDir duration fs))
  = true
  ↔ (0 <? s + f)%nat && Qltb (PathMapping.accuracyOf (s, f)) 50
      && Qltb (PathMapping.accuracyOf (s, f)) 20 = true
    ∧ is_Some (PathMapping.fallbackVideo fs objects).
Proof.
  unfold PathMapping.fallbackCheck. cbn [fst snd].
  destruct (0 <? s + f)%nat; [|split; [discriminate|intros [[=] _]]].
  destruct (Qltb (PathMapping.accuracyOf (s, f)) 50);
    [|split; [discriminate|intros [[=] _]]].
  unfold bind at 1. cbn [emit outcome fs_after events].
  unfold bind at 1. cbn [get_fs outcome fs_after events].
  destruct (PathMapping.fallbackVideo fs objects) as [videoPath|].
  - destruct (Qltb (PathMapping.accuracyOf (s, f)) 20).
    + split; [intros _; split; [done|eauto]|intros _].
      unfold bind at 1.
      pose proof (extract_logs_attempt (Some videoPath) framesDir fps duration fs)
        as Hlog.
      destruct (outcome (extractVideoFramesWithFFmpeg env (Some videoPath)
                           framesDir fps duration fs)) as [[]|];
        cbn [events app]; unfold fallback_invoked in *;
        cbn [existsb orb]; rewrite ?existsb_app, Hlog; done.
    + split; [discriminate|intros [[=] _]].
  - split; [discriminate|]. intros [_ [? [=]]].
Qed.

End Fallback.

Lemma fallbackVideo_some (fs : FS) (objects : list SceneObject) :
  is_Some (PathMapping.fallbackVideo fs objects)
  ↔ ∃ obj src, objects = [obj] ∧ is_video obj = true ∧ o_src obj = Some src
               ∧ JS.truthy src = true ∧ src ∈ fs.
Proof.
  unfold PathMapping.fallbackVideo. split.
  - destruct objects as [|obj [|obj' rest]];
      [intros [? [=]]| |intros [? [=]]].
    destruct (o_src obj) as [src|] eqn:Hsrc; [|intros [? [=]]].
    destruct (is_video obj) eqn:Hv; [|intros [? [=]]].
    destruct (JS.truthy src) eqn:Ht; [|intros [? [=]]].
    destruct (bool_decide_reflect (src ∈ fs)) as [Hin|Hout]; [|intros [? [=]]].
    intros _. by exists obj, src.
  - intros (obj & src & -> & Hv & Hsrc & Ht & Hin).
    rewrite Hsrc, Hv, Ht, bool_decide_eq_true_2 by done. simpl. eauto.
Qed.


(** The staging revision looks at [type] alone: an element relabelled
    by [customType] is taken for a video, and an element that is a
    video by its [customType] is not. *)
Example fallback_ignores_customType :
  let relabelled := mkObj (Some "video") (Some "image") None None false in
  let custom := mkObj (Some "image") (Some "video") None None false in
  (is_video relabelled = false
   ∧ fallback_invoked
       (events (AssetStaging.fallbackCheck Scenario.drifting [relabelled]
                  (0, 5)%nat "/tmp/job1/frames" 8 ∅)) = true)
  ∧ (is_video custom = true
     ∧ fallback_invoked
         (events (AssetStaging.fallbackCheck Scenario.drifting [custom]
                    (0, 5)%nat "/tmp/job1/frames" 8 ∅)) = false).
Proof. repeat split; vm_compute; reflexivity. Qed.



(** * Further properties of the code *)

(** ** Running a computation step by step *)

Lemma mkdir_run (env : Env) (p : string) (fs : FS) :
  mkdir env p fs
  = if mkdir_ok env p
    then mkRun (Ok tt) ({[p]} ∪ list_to_set (parents p) ∪ fs) [EvMkdir p]
    else mkRun (Throw (ErrFs "mkdir" p)) fs [EvMkdir p].
Proof. unfold mkdir, bind, emit. simpl. by destruct (mkdir_ok env p). Qed.

Lemma writeFile_run (env : Env) (p : string) (fs : FS) :
  writeFile env p fs
  = if writeFile_ok env p
    then mkRun (Ok tt) ({[p]} ∪ fs) [EvWriteFile p]
    else mkRun (Throw (ErrFs "writeFile" p)) fs [EvWriteFile p].
Proof. unfold writeFile, bind, emit. simpl. by destruct (writeFile_ok env p). Qed.

(** Run the first computation of a sequence when it is one whose result
    is known at once. *)
Ltac bind_step :=
  match goal with
  | |- context [bind (emit ?e) ?k ?fs] =>
      rewrite (bind_ok (emit e) k fs tt eq_refl)
  | |- context [bind (existsSync ?p) ?k ?fs] =>
      rewrite (bind_ok (existsSync p) k fs (bool_decide (p ∈ fs)) eq_refl)
  | |- context [bind get_fs ?k ?fs] =>
      rewrite (bind_ok get_fs k fs fs eq_refl)
  | |- context [bind (update_fs ?f) ?k ?fs] =>
      rewrite (bind_ok (update_fs f) k fs tt eq_refl)
  | |- context [bind (ret ?a) ?k ?fs] =>
      rewrite (bind_ok (ret a) k fs a eq_refl)
  | |- context [bind (throw ?e) ?k ?fs] =>
      rewrite (bind_throw (throw e) k fs e eq_refl)
  end;
  cbn [emit existsSync get_fs update_fs ret throw outcome fs_after events].

(** ** [downloadAsset] *)

(** X1. [downloadAsset] never throws.  It returns either the reference it
    was given or the local path of the staged file, and in the latter
    case for a remote reference the file exists when it returns; the
    only path it can add to the file system is that local path, and it
    removes none. *)
Theorem downloadAsset_returns (env : Env) (url assetsDir : string) (fs : FS) :
  ∃ p, outcome (AssetStaging.downloadAsset env url assetsDir fs) = Ok p
       ∧ (p = url
          ∨ (p = AssetStaging.asset_path env url assetsDir
             ∧ p ∈ fs_after (AssetStaging.downloadAsset env url assetsDir fs)))
       ∧ fs ⊆ fs_after (AssetStaging.downloadAsset env url assetsDir fs)
       ∧ fs_after (AssetStaging.downloadAsset env url assetsDir fs)
         ⊆ {[AssetStaging.asset_path env url assetsDir]} ∪ fs.
Proof.
  destruct (remote url) eqn:Hr.
  - destruct (decide (AssetStaging.asset_path env url assetsDir ∈ fs)) as [Hin|Hout].
    + rewrite downloadAsset_cached by done. cbn [outcome fs_after].
      eexists. split; [done|]. split; [by right|]. set_solver.
    + unfold remote in Hr. apply andb_true_iff in Hr as [Ht Hs].
      unfold AssetStaging.downloadAsset. rewrite Ht, Hs. cbn [negb orb].
      unfold try_catch, bind, existsSync, writeFile, emit, update_fs, ret, throw.
      cbn [outcome fs_after events].
      rewrite bool_decide_eq_false_2 by done.
      destruct (fetch_asset env url) as [|[]]; cbn [outcome fs_after events];
        try (eexists; split; [done|]; split; [by left|]; set_solver).
      destruct (writeFile_ok env _); cbn [outcome fs_after events].
      * eexists. split; [done|]. split; [right; split; [done|set_solver]|].
        set_solver.
      * eexists. split; [done|]. split; [by left|]. set_solver.
  - rewrite downloadAsset_local by done. cbn [outcome fs_after].
    eexists. split; [done|]. split; [by left|]. set_solver.
Qed.

(** ** [reportProgress] *)

(** X2. A progress report never throws and never touches the file
    system, whether the webhook answers, refuses or cannot be reached.
    It sends exactly one request when a webhook URL is configured and
    none otherwise. *)
Theorem reportProgress_harmless (env : Env) (exportId : string)
    (webhookUrl : option string) (progress : Z) (status : string) (fs : FS) :
  outcome (reportProgress env exportId webhookUrl progress status fs) = Ok tt
  ∧ fs_after (reportProgress env exportId webhookUrl progress status fs) = fs
  ∧ reported (events (reportProgress env exportId webhookUrl progress status fs))
    = (if JS.truthy_opt webhookUrl then [(progress, status)] else []).
Proof.
  unfold reportProgress, when, bind, emit.
  destruct (JS.truthy_opt webhookUrl); cbn [outcome fs_after events]; [|done].
  by destruct (fetch_webhook env progress status).
Qed.

(** ** [extractVideoFramesWithFFmpeg] *)

(** X3. The fallback extraction never throws: it answers [true] exactly
    when the video file exists, the output directory exists or can be
    made, and [ffmpeg] exits normally.  When the video file is missing
    [ffmpeg] is not run at all. *)
Theorem extractFrames_answers (env : Env) (videoPath : option string)
    (outputDir : string) (rate : Z) (duration : Q) (fs : FS) :
  ∃ b, outcome (extractVideoFramesWithFFmpeg env videoPath outputDir rate
                  duration fs) = Ok b
       ∧ (b = true ↔
          ∃ video, videoPath = Some video ∧ video ∈ fs
                   ∧ (outputDir ∈ fs ∨ mkdir_ok env outputDir = true)
                   ∧ is_Some (ffmpeg_frames env video))
       ∧ ((∀ video, videoPath = Some video → video ∉ fs) →
          frameExtractions
            (events (extractVideoFramesWithFFmpeg env videoPath outputDir rate
                       duration fs)) = []).
Proof.
  unfold extractVideoFramesWithFFmpeg, try_catch. repeat bind_step.
  destruct videoPath as [video|]; [|repeat bind_step].
  2:{ exists false. split; [done|]. split; [|intros _; reflexivity].
      split; [done|]. intros (v & [=] & _). }
  repeat bind_step.
  case_bool_decide as Hin; cbn [negb].
  2:{ repeat bind_step. exists false. split; [done|].
      split; [|intros _; reflexivity].
      split; [done|]. intros (v & [= <-] & ? & _). done. }
  repeat bind_step.
  case_bool_decide as Hd; cbn [negb when].
  - repeat bind_step.
    destruct (ffmpeg_frames env video) as [n|] eqn:Hff; repeat bind_step.
    + exists true. split; [done|]. split; [|intros H; by destruct (H _ eq_refl)].
      split; [intros _|done]. exists video. rewrite Hff. eauto.
    + exists false. split; [done|]. split; [|intros H; by destruct (H _ eq_refl)].
      split; [done|]. intros (v & [= <-] & _ & _ & Hs). rewrite Hff in Hs.
      by destruct Hs.
  - destruct (mkdir_ok env outputDir) eqn:Hmk.
    + rewrite (bind_ok (mkdir env outputDir) _ fs tt)
        by (by rewrite mkdir_run, Hmk).
      rewrite mkdir_run, Hmk. cbn [outcome fs_after events].
      repeat bind_step.
      destruct (ffmpeg_frames env video) as [n|] eqn:Hff; repeat bind_step.
      * exists true. split; [done|].
        split; [|intros H; by destruct (H _ eq_refl)].
        split; [intros _|done]. exists video. rewrite Hff. eauto.
      * exists false. split; [done|].
        split; [|intros H; by destruct (H _ eq_refl)].
        split; [done|]. intros (v & [= <-] & _ & _ & Hs).
        rewrite Hff in Hs. by destruct Hs.
    + rewrite (bind_throw (mkdir env outputDir) _ fs (ErrFs "mkdir" outputDir))
        by (by rewrite mkdir_run, Hmk).
      rewrite mkdir_run, Hmk. cbn [outcome fs_after events].
      repeat bind_step.
      exists false. split; [done|].
      split; [|intros H; by destruct (H _ eq_refl)].
      split; [done|]. intros (v & [= <-] & _ & [?|?] & _); congruence.
Qed.

(** ** [mergeVideo] *)

Lemma mergeOutput_new (exportId : string) :
  mergeOutput exportId ≠ mergeOutputDir
  ∧ mergeOutput exportId ∉ parents mergeOutputDir.
Proof.
  assert (Hlen : ∀ p, mergeOutput exportId = p →
                      (String.length mergeOutputDir < String.length p)%nat).
  { intros p <-. unfold mergeOutput, path_join. rewrite !length_append. simpl. lia. }
  split.
  - intros H. apply Hlen in H. lia.
  - let l := eval vm_compute in (parents mergeOutputDir) in
    change (parents mergeOutputDir) with l.
    rewrite !elem_of_cons, elem_of_nil.
    intros H. repeat (destruct H as [H|H]; [apply Hlen in H; simpl in H; lia|]).
    done.
Qed.

(** X4. [mergeVideo] runs the encoder once, on the frames directory and
    the audio file it was given (none for [null] or the empty string),
    towards [../main/storage/app/public/exports/videos/<exportId>.mp4].
    If the output directory exists or can be made: when the encoder
    exits normally the call returns and that file and its directory
    exist; when it does not, the call throws the encoding error and the
    output file exists only if it did before.  It removes nothing. *)
Theorem mergeVideo_outcome (env : Env) (framesDir : string)
    (audio : option string) (exportId : string) (fs : FS) :
  mergeOutputDir ∈ fs ∨ mkdir_ok env mergeOutputDir = true →
  merges (events (mergeVideo env framesDir audio exportId fs))
  = [(framesDir, if JS.truthy_opt audio then audio else None, mergeOutput exportId)]
  ∧ fs ⊆ fs_after (mergeVideo env framesDir audio exportId fs)
  ∧ (if ffmpeg_merge_ok env
     then outcome (mergeVideo env framesDir audio exportId fs) = Ok tt
          ∧ mergeOutput exportId ∈ fs_after (mergeVideo env framesDir audio exportId fs)
          ∧ mergeOutputDir ∈ fs_after (mergeVideo env framesDir audio exportId fs)
     else outcome (mergeVideo env framesDir audio exportId fs) = Throw ErrEncode
          ∧ (mergeOutput exportId ∈ fs_after (mergeVideo env framesDir audio exportId fs)
             → mergeOutput exportId ∈ fs)).
Proof.
  intros Hdir. destruct (mergeOutput_new exportId) as [Hne Hnp].
  unfold mergeOutput in Hne, Hnp.
  unfold mergeVideo, mergeOutput. repeat bind_step.
  case_bool_decide as Hin; cbn [negb when].
  - clear Hdir. repeat bind_step.
    destruct (ffmpeg_merge_ok env); repeat bind_step;
      cbn [update_fs throw outcome fs_after events];
      cbn [app merges omap]; (split; [reflexivity|]);
      (split; [apply union_subseteq_r || reflexivity|]).
    + split; [reflexivity|]. split; [|apply elem_of_union; by right].
      apply elem_of_union. left. by apply elem_of_singleton.
    + split; [reflexivity|]. auto.
  - destruct Hdir as [?|Hmk]; [contradiction|].
    rewrite (bind_ok (mkdir env mergeOutputDir) _ fs tt)
      by (by rewrite mkdir_run, Hmk).
    rewrite mkdir_run, Hmk. cbn [outcome fs_after events].
    repeat bind_step.
    destruct (ffmpeg_merge_ok env); repeat bind_step;
      cbn [update_fs throw outcome fs_after events];
      cbn [app merges omap]; (split; [reflexivity|]).
    + split; [etrans; apply union_subseteq_r|].
      split; [reflexivity|]. rewrite !elem_of_union, !elem_of_singleton.
      split; [by left|]. right. left. by left.
    + split; [apply union_subseteq_r|].
      split; [reflexivity|]. rewrite !elem_of_union, elem_of_singleton.
      rewrite elem_of_list_to_set. intros [[H|H]|H]; [|contradiction|]; done.
Qed.

Lemma mergeVideo_outcome_witness :
  merges (events (mergeVideo Scenario.calm "/tmp/job1/frames" None "job1" ∅))
  = [("/tmp/job1/frames", None, mergeOutput "job1")].
Proof.
  refine (proj1 (mergeVideo_outcome Scenario.calm "/tmp/job1/frames" None "job1" ∅
                   (or_intror eq_refl))).
Defined.

(** ** Names of staged files *)

Lemma append_cons (x : ascii) (a z : string) :
  String x a +:+ z = String x (a +:+ z).
Proof. reflexivity. Qed.

Lemma startsWith_nil (s : string) : String.prefix "" s = true.
Proof. by destruct s. Qed.

Lemma startsWith_cons (x : ascii) (a s : string) :
  String.prefix (String x a) (String x s) = String.prefix a s.
Proof. simpl. by destruct (ascii_dec x x). Qed.

Lemma startsWith_append (a b c : string) :
  String.prefix (a +:+ b) (a +:+ (b +:+ c)) = true.
Proof.
  induction a as [|x a IH].
  - change (String.prefix b (b +:+ c) = true).
    induction b as [|y b IHb]; [apply startsWith_nil|].
    by rewrite append_cons, startsWith_cons.
  - by rewrite !append_cons, startsWith_cons.
Qed.

Lemma path_join_inside (d name : string) : is_inside d (path_join d name) = true.
Proof. apply startsWith_append. Qed.

Lemma includes_question_cons (c : ascii) (s : string) :
  JS.includes (String c s) "?"
  = (if ascii_dec "?" c then true else false) || JS.includes s "?".
Proof.
  cbn [JS.includes]. f_equal.
  change (String.prefix "?" (String c s))
    with (match ascii_dec "?" c with
          | left _ => String.prefix "" s
          | right _ => false
          end).
  destruct (ascii_dec "?" c); [apply startsWith_nil|done].
Qed.

Lemma split_go_hd_question (s cur : string) :
  (∀ t, JS.includes t "?" = false →
        JS.includes (String.rev_app cur t) "?" = false) →
  JS.includes (hd "" (JS.split_go "?" 0 cur s)) "?" = false.
Proof.
  revert cur. induction s as [|c s IH]; intros cur Hcur.
  - simpl. by apply Hcur.
  - cbn [JS.split_go]. destruct (String.prefix "?" (String c s)) eqn:Hp.
    + simpl. by apply Hcur.
    + apply IH. intros t Ht. simpl. apply Hcur.
      rewrite includes_question_cons, Ht.
      change (String.prefix "?" (String c s))
        with (match ascii_dec "?" c with
              | left _ => String.prefix "" s
              | right _ => false
              end) in Hp.
      destruct (ascii_dec "?" c); [|done].
      by rewrite startsWith_nil in Hp.
Qed.

(** X5. A staged file lies inside the assets directory it was asked to
    use, and its name ends in an extension of one to five characters
    that holds no question mark, whatever the URL looks like. *)
Theorem staged_name_safe (env : Env) (url assetsDir : string) :
  is_inside assetsDir (AssetStaging.asset_path env url assetsDir) = true
  ∧ (1 ≤ String.length (AssetStaging.asset_ext env url) ≤ 5)%nat
  ∧ JS.includes (AssetStaging.asset_ext env url) "?" = false.
Proof.
  split; [apply path_join_inside|].
  unfold AssetStaging.asset_ext, JS.split.
  pose proof (split_go_hd_question (path_extname env url) ""
                (λ t Ht, Ht)) as Hq.
  assert (Hbin : (1 ≤ String.length ".bin" ≤ 5)%nat
                 ∧ JS.includes ".bin" "?" = false)
    by (split; [simpl; lia|reflexivity]).
  destruct (hd "" (JS.split_go "?" 0 "" (path_extname env url))) as [|c ext];
    [exact Hbin|].
  cbn [JS.truthy negb orb].
  destruct (5 <? String.length (String c ext))%nat eqn:Hlen; [exact Hbin|].
  apply Nat.ltb_ge in Hlen. simpl in Hlen |- *. split; [lia|done].
Qed.

(** ** [downloadAsset] and [prepareDesignAssets] *)

(** What a call of [downloadAsset] comes to. *)
Lemma downloadAsset_cases (env : Env) (url assetsDir : string) (fs : FS) :
  (outcome (AssetStaging.downloadAsset env url assetsDir fs) = Ok url
   ∧ fs_after (AssetStaging.downloadAsset env url assetsDir fs) = fs)
  ∨ (outcome (AssetStaging.downloadAsset env url assetsDir fs)
     = Ok (AssetStaging.asset_path env url assetsDir)
     ∧ fs_after (AssetStaging.downloadAsset env url assetsDir fs)
       = {[AssetStaging.asset_path env url assetsDir]} ∪ fs).
Proof.
  destruct (remote url) eqn:Hr.
  - destruct (decide (AssetStaging.asset_path env url assetsDir ∈ fs)) as [Hin|Hout].
    + rewrite downloadAsset_cached by done. cbn [outcome fs_after].
      right. split; [done|]. apply set_eq. intros x.
      rewrite elem_of_union, elem_of_singleton.
      split; [by right|]. by intros [->|?].
    + unfold remote in Hr. apply andb_true_iff in Hr as [Ht Hs].
      unfold AssetStaging.downloadAsset. rewrite Ht, Hs. cbn [negb orb].
      unfold try_catch. repeat bind_step.
      rewrite bool_decide_eq_false_2 by done.
      repeat bind_step.
      destruct (fetch_asset env url) as [|[]]; repeat bind_step;
        try (left; split; reflexivity).
      destruct (writeFile_ok env (AssetStaging.asset_path env url assetsDir))
        eqn:Hw.
      * rewrite (bind_ok _ _ _ tt) by (by rewrite writeFile_run, Hw).
        rewrite writeFile_run, Hw. cbn [outcome fs_after events ret].
        by right.
      * rewrite (bind_throw _ _ _ (ErrFs "writeFile"
                   (AssetStaging.asset_path env url assetsDir)))
          by (by rewrite writeFile_run, Hw).
        rewrite writeFile_run, Hw. repeat bind_step.
        cbn [outcome fs_after events ret]. by left.
  - rewrite downloadAsset_local by done. by left.
Qed.

Lemma staged_from_mono (fs fs' : FS) (o o' : SceneObject) :
  fs ⊆ fs' → staged_from fs o o' → staged_from fs' o o'.
Proof.
  intros Hsub [Hsame [?|(p & ? & ?)]]; (split; [done|]); [by left|].
  right. exists p. split; [done|]. by apply Hsub.
Qed.

Lemma staged_from_refl (fs : FS) (o : SceneObject) : staged_from fs o o.
Proof. split; [|by left]. by repeat split. Qed.

Lemma staged_objects_mono (fs fs' : FS) (a b : option (list SceneObject)) :
  fs ⊆ fs' →
  option_Forall2 (Forall2 (staged_from fs)) a b →
  option_Forall2 (Forall2 (staged_from fs')) a b.
Proof.
  intros Hsub [l l' H|]; constructor.
  eapply Forall2_impl; [exact H|].
  intros o o'. by apply staged_from_mono.
Qed.

Section Staging.
Context (env : Env) (assetsDir : string).

Lemma processObject_staged (obj : SceneObject) (fs : FS) :
  ∃ obj',
    outcome (AssetStaging.processObject env assetsDir obj fs) = Ok obj'
    ∧ fs ⊆ fs_after (AssetStaging.processObject env assetsDir obj fs)
    ∧ staged_from (fs_after (AssetStaging.processObject env assetsDir obj fs))
        obj obj'.
Proof.
  unfold AssetStaging.processObject.
  destruct (o_src obj) as [src|] eqn:Hsrc;
    [|exists obj; split_and!; [done..|apply staged_from_refl]].
  destruct (JS.truthy src);
    [|exists obj; split_and!; [done..|apply staged_from_refl]].
  destruct (downloadAsset_cases env src assetsDir fs) as [[Ho Hfs]|[Ho Hfs]];
    rewrite (bind_ok _ _ _ _ Ho), Hfs.
  - rewrite String.eqb_refl, andb_false_r. cbn [negb ret outcome fs_after].
    exists obj. split_and!; [done..|apply staged_from_refl].
  - destruct (JS.truthy _ && negb _); cbn [ret outcome fs_after].
    + eexists. split; [done|]. split; [apply union_subseteq_r|].
      split; [unfold same_element; simpl; rewrite Hsrc;
              split_and!; [done..|split; eauto]|].
      right. eexists. split; [done|].
      apply elem_of_union. left. by apply elem_of_singleton.
    + exists obj. split; [done|]. split; [apply union_subseteq_r|].
      apply staged_from_refl.
Qed.

Lemma map_each_staged (l : list SceneObject) (fs : FS) :
  ∃ l',
    outcome (map_each l (AssetStaging.processObject env assetsDir) fs) = Ok l'
    ∧ fs ⊆ fs_after (map_each l (AssetStaging.processObject env assetsDir) fs)
    ∧ Forall2
        (staged_from
           (fs_after (map_each l (AssetStaging.processObject env assetsDir) fs)))
        l l'.
Proof.
  revert fs. induction l as [|o l IH]; intros fs; cbn [map_each].
  - exists []. by split_and!.
  - destruct (processObject_staged o fs) as (o' & Ho & Hsub & Hst).
    rewrite (bind_ok _ _ _ _ Ho).
    destruct (IH (fs_after (AssetStaging.processObject env assetsDir o fs)))
      as (l' & Hl & Hsub' & Hall).
    rewrite (bind_ok _ _ _ _ Hl). cbn [ret outcome fs_after].
    exists (o' :: l'). split; [done|]. split; [by etrans|].
    constructor; [|done]. by eapply staged_from_mono.
Qed.

Lemma processObjects_staged (objects : option (list SceneObject)) (fs : FS) :
  ∃ objects',
    outcome (AssetStaging.processObjects env assetsDir objects fs) = Ok objects'
    ∧ fs ⊆ fs_after (AssetStaging.processObjects env assetsDir objects fs)
    ∧ option_Forall2
        (Forall2
           (staged_from
              (fs_after (AssetStaging.processObjects env assetsDir objects fs))))
        objects objects'.
Proof.
  destruct objects as [l|]; cbn [AssetStaging.processObjects].
  - destruct (map_each_staged l fs) as (l' & Hl & Hsub & Hall).
    rewrite (bind_ok _ _ _ _ Hl). cbn [ret outcome fs_after].
    exists (Some l'). split; [done|]. split; [done|]. by constructor.
  - exists None. split; [done|]. split; [done|]. constructor.
Qed.

End Staging.

(** X6. Once the assets directory of the job exists or can be made,
    [prepareDesignAssets] returns, whatever happens to the downloads.
    It removes no file, and the design it returns has the same
    elements in the same order, in [objects] and in a [layers] object
    alike: each keeps its kind and its mute flag, and its source is
    either the one it had or a file that exists on disk.  A [layers]
    string that does not parse is passed on as it was. *)
Theorem prepareDesignAssets_keeps_scene (env : Env) (design : Design)
    (exportId : string) (fs : FS) :
  assetsDirOf env exportId ∈ fs ∨ mkdir_ok env (assetsDirOf env exportId) = true →
  ∃ design',
    outcome (AssetStaging.prepareDesignAssets env design exportId fs) = Ok design'
    ∧ fs ⊆ fs_after (AssetStaging.prepareDesignAssets env design exportId fs)
    ∧ option_Forall2
        (Forall2
           (staged_from
              (fs_after (AssetStaging.prepareDesignAssets env design exportId fs))))
        (d_objects design) (d_objects design')
    ∧ match d_layers design with
      | Some (LayersValue layers) =>
          ∃ layers',
            d_layers design' = Some (LayersValue layers')
            ∧ option_Forall2
                (Forall2
                   (staged_from
                      (fs_after
                         (AssetStaging.prepareDesignAssets env design exportId fs))))
                (l_objects layers) (l_objects layers')
      | Some (LayersText s) =>
          ∃ s', d_layers design' = Some (LayersText s')
                ∧ (JSON_parse env s = None → s' = s)
      | None => d_layers design' = None
      end.
Proof.
  intros Hdir. unfold AssetStaging.prepareDesignAssets.
  fold (assetsDirOf env exportId). repeat bind_step.
  match goal with
  | |- context [bind (when ?b ?m) ?k fs] => set (rest := k)
  end.
  assert (Hrest : ∀ fs1, ∃ design',
    outcome (rest tt fs1) = Ok design'
    ∧ fs1 ⊆ fs_after (rest tt fs1)
    ∧ option_Forall2 (Forall2 (staged_from (fs_after (rest tt fs1))))
        (d_objects design) (d_objects design')
    ∧ match d_layers design with
      | Some (LayersValue layers) =>
          ∃ layers',
            d_layers design' = Some (LayersValue layers')
            ∧ option_Forall2 (Forall2 (staged_from (fs_after (rest tt fs1))))
                (l_objects layers) (l_objects layers')
      | Some (LayersText s) =>
          ∃ s', d_layers design' = Some (LayersText s')
                ∧ (JSON_parse env s = None → s' = s)
      | None => d_layers design' = None
      end).
  { intros fs1. subst rest. cbn beta.
    destruct (d_layers design) as [[s|layers]|] eqn:Hl; cbn [layers_truthy].
    - destruct (JS.truthy s);
        [destruct (JSON_parse env s) as [layers|] eqn:Hp|]; repeat bind_step.
      + destruct (processObjects_staged env (assetsDirOf env exportId)
                    (l_objects layers) fs1) as (objs & Ho & Hsub & _).
        rewrite (bind_ok (bind _ _) _ fs1
                   (Some (LayersText (JSON_stringify env (mkLayers objs)))))
          by (by rewrite (bind_ok _ _ _ _ Ho)).
        rewrite (bind_ok _ _ _ _ Ho). cbn [ret outcome fs_after events].
        destruct (processObjects_staged env (assetsDirOf env exportId)
                    (d_objects design)
                    (fs_after (AssetStaging.processObjects env
                                 (assetsDirOf env exportId) (l_objects layers) fs1)))
          as (objs' & Ho' & Hsub' & Hall').
        rewrite (bind_ok _ _ _ _ Ho'). cbn [ret outcome fs_after events].
        eexists. split; [done|]. split; [by etrans|]. split; [done|].
        cbn [d_layers]. eexists. split; [done|]. congruence.
      + rewrite (bind_ok (emit (EvError "Errors parsing layers") >>
                          ret (Some (LayersText s))) _ fs1
                   (Some (LayersText s)) eq_refl).
        cbn [bind emit ret outcome fs_after events].
        destruct (processObjects_staged env (assetsDirOf env exportId)
                    (d_objects design) fs1) as (objs' & Ho' & Hsub' & Hall').
        rewrite (bind_ok _ _ _ _ Ho'). cbn [ret outcome fs_after events].
        eexists. split; [done|]. split; [done|]. split; [done|].
        cbn [d_layers]. eauto.
      + destruct (processObjects_staged env (assetsDirOf env exportId)
                    (d_objects design) fs1) as (objs' & Ho' & Hsub' & Hall').
        rewrite (bind_ok _ _ _ _ Ho'). cbn [ret outcome fs_after events].
        eexists. split; [done|]. split; [done|]. split; [done|].
        cbn [d_layers]. eauto.
    - destruct (processObjects_staged env (assetsDirOf env exportId)
                  (l_objects layers) fs1) as (objs & Ho & Hsub & Hall).
      rewrite (bind_ok (bind _ _) _ fs1 (Some (LayersValue (mkLayers objs))))
        by (by rewrite (bind_ok _ _ _ _ Ho)).
      rewrite (bind_ok _ _ _ _ Ho). cbn [ret outcome fs_after events].
      destruct (processObjects_staged env (assetsDirOf env exportId)
                  (d_objects design)
                  (fs_after (AssetStaging.processObjects env
                               (assetsDirOf env exportId) (l_objects layers) fs1)))
        as (objs' & Ho' & Hsub' & Hall').
      rewrite (bind_ok _ _ _ _ Ho'). cbn [ret outcome fs_after events].
      eexists. split; [done|]. split; [by etrans|]. split; [done|].
      cbn [d_layers]. eexists. split; [done|]. cbn [l_objects].
      by eapply staged_objects_mono.
    - repeat bind_step.
      destruct (processObjects_staged env (assetsDirOf env exportId)
                  (d_objects design) fs1) as (objs' & Ho' & Hsub' & Hall').
      rewrite (bind_ok _ _ _ _ Ho'). cbn [ret outcome fs_after events].
      eexists. split; [done|]. split; [done|]. split; [done|]. done. }
  clearbody rest.
  case_bool_decide as Hin; cbn [negb when].
  - repeat bind_step. apply Hrest.
  - destruct Hdir as [?|Hmk]; [contradiction|].
    rewrite (bind_ok (mkdir env (assetsDirOf env exportId)) _ fs tt)
      by (by rewrite mkdir_run, Hmk).
    rewrite mkdir_run, Hmk. cbn [outcome fs_after events].
    destruct (Hrest ({[assetsDirOf env exportId]}
                     ∪ list_to_set (parents (assetsDirOf env exportId)) ∪ fs))
      as (design' & Ho & Hsub & Hrel).
    exists design'. split; [done|]. split; [|done].
    etrans; [|exact Hsub]. apply union_subseteq_r.
Qed.

Lemma prepareDesignAssets_keeps_scene_witness :
  ∃ design',
    outcome (AssetStaging.prepareDesignAssets Scenario.calm Scenario.oneClip
               "job1" ∅) = Ok design'.
Proof.
  destruct (prepareDesignAssets_keeps_scene Scenario.calm Scenario.oneClip
              "job1" ∅ (or_intror eq_refl)) as (design' & Ho & _).
  by exists design'.
Defined.

(** ** [cleanupExport] *)



Example cleanup_spares_longer_id :
  "/tmp/job10/frames/frame_0.png"
  ∈ fs_after (AssetStaging.cleanupExport Scenario.calm "job1"
                {[ "/tmp/job1"; "/tmp/job1/frames";
                   "/tmp/job10/frames/frame_0.png" ]}).
Proof. elem_by_computation. Qed.

(** ** [extractAudio] *)

(** X8. [extractAudio] never throws, not even on a [layers] string that
    does not parse or when [ffmpeg] fails.  It removes no file, and
    when it returns a path, that path is [audio.aac] in the directory
    it was given (the system's temporary directory when it was given
    none) and the file exists. *)
Theorem extractAudio_returns (env : Env) (design : Design)
    (outputDir : option string) (fs : FS) :
  ∃ r, outcome (extractAudio env design outputDir fs) = Ok r
       ∧ fs ⊆ fs_after (extractAudio env design outputDir fs)
       ∧ ∀ p, r = Some p →
              p = audioOutput env outputDir
              ∧ p ∈ fs_after (extractAudio env design outputDir fs).
Proof.
  unfold extractAudio, audioOutput.
  destruct (audioObjects env design) as [objects|];
    [|exists None; by split_and!].
  destruct (find is_video objects) as [videoObj|];
    [|exists None; by split_and!].
  destruct (o_src videoObj) as [src|]; [|exists None; by split_and!].
  destruct (JS.truthy src); cbn [negb]; [|exists None; by split_and!].
  repeat bind_step.
  destruct (ffmpeg_audio_ok env src); repeat bind_step;
    cbn [emit ret outcome fs_after events].
  - eexists. split; [reflexivity|]. split; [apply union_subseteq_r|].
    intros p [= <-]. split; [done|].
    apply elem_of_union. left. by apply elem_of_singleton.
  - exists None. by split_and!.
Qed.

(** ** [getLocalPath] and [processDesignPaths] *)

Lemma includes_cons_l (c : ascii) (s sub : string) :
  JS.includes (String c s) sub = String.prefix sub (String c s) || JS.includes s sub.
Proof. reflexivity. Qed.

Lemma includes_tail (s : string) (c : ascii) (sub : string) :
  JS.includes s (String c sub) = true → JS.includes s sub = true.
Proof.
  induction s as [|x s IH].
  - simpl. discriminate.
  - rewrite !includes_cons_l. intros H.
    apply orb_true_iff in H as [H|H]; apply orb_true_iff; right.
    + simpl in H. destruct (ascii_dec c x); [|done].
      destruct s as [|y s]; [by destruct sub|].
      rewrite includes_cons_l. by rewrite H.
    + by apply IH.
Qed.

Lemma getLocalPath_sound_helper (fs : FS) (url p : string) :
  PathMapping.getLocalPath fs url = Some p → p ∈ fs.
Proof.
  unfold PathMapping.getLocalPath.
  destruct (negb (JS.truthy url)); [discriminate|].
  destruct (JS.truthy (PathMapping.relativePathOf url)); [|discriminate].
  intros Hfind. apply find_some in Hfind as [_ Hp].
  by apply bool_decide_eq_true_1 in Hp.
Qed.

(** X9. [getLocalPath] answers only with a path that exists on disk,
    and only for a URL that mentions [storage/]; a URL that does not
    is never mapped. *)
Theorem getLocalPath_sound (fs : FS) (url p : string) :
  PathMapping.getLocalPath fs url = Some p →
  p ∈ fs ∧ JS.includes url "storage/" = true ∧ url ≠ "".
Proof.
  unfold PathMapping.getLocalPath.
  destruct url as [|c url]; [discriminate|]. cbn [JS.truthy negb].
  set (u := String c url).
  destruct (JS.truthy (PathMapping.relativePathOf u)) eqn:Hrel; [|discriminate].
  intros Hfind. apply find_some in Hfind as [_ Hp].
  apply bool_decide_eq_true_1 in Hp. split; [done|]. split; [|done].
  unfold PathMapping.relativePathOf in Hrel.
  destruct (JS.includes u "/storage/") eqn:H1; [by apply includes_tail in H1|].
  by destruct (JS.includes u "storage/").
Qed.

Lemma getLocalPath_sound_witness :
  PathMapping.getLocalPath
    {[ "d:/Projects/clients/mosamem/main/public/storage/media/clip.mp4" ]}
    "http://localhost:8000/storage/media/clip.mp4"
  = Some "d:/Projects/clients/mosamem/main/public/storage/media/clip.mp4"
  ∧ JS.includes "http://localhost:8000/storage/media/clip.mp4" "storage/" = true.
Proof.
  split; [vm_compute; reflexivity|].
  refine (proj1 (proj2 (getLocalPath_sound
                   {[ "d:/Projects/clients/mosamem/main/public/storage/media/clip.mp4" ]}
                   "http://localhost:8000/storage/media/clip.mp4"
                   "d:/Projects/clients/mosamem/main/public/storage/media/clip.mp4"
                   _))).
  vm_compute. reflexivity.
Defined.

Lemma mapped_object_staged (fs : FS) (obj : SceneObject) :
  staged_from fs obj (PathMapping.processObject fs obj).
Proof.
  unfold PathMapping.processObject.
  destruct (o_src obj) as [src|] eqn:Hsrc; [|apply staged_from_refl].
  destruct (JS.truthy src); [|apply staged_from_refl].
  destruct (PathMapping.getLocalPath fs src) as [localPath|] eqn:Hl;
    [|apply staged_from_refl].
  destruct (JS.truthy localPath); [|apply staged_from_refl].
  apply getLocalPath_sound_helper in Hl.
  split.
  - unfold same_element. simpl. rewrite Hsrc. split_and!; [done..|split; eauto].
  - right. exists localPath. by split.
Qed.

(** X10. [processDesignPaths] keeps the scene: the design it returns
    has the same elements in the same order, in [objects] and in a
    [layers] object alike; each keeps its kind and its mute flag, and
    its source is either the one it had or a file that exists on disk.
    A [layers] string that does not parse is passed on as it was. *)
Theorem processDesignPaths_keeps_scene (env : Env) (fs : FS) (design : Design) :
  option_Forall2 (Forall2 (staged_from fs))
    (d_objects design) (d_objects (PathMapping.processDesignPaths env fs design))
  ∧ match d_layers design with
    | Some (LayersValue layers) =>
        ∃ layers',
          d_layers (PathMapping.processDesignPaths env fs design)
          = Some (LayersValue layers')
          ∧ option_Forall2 (Forall2 (staged_from fs))
              (l_objects layers) (l_objects layers')
    | Some (LayersText s) =>
        ∃ s', d_layers (PathMapping.processDesignPaths env fs design)
              = Some (LayersText s')
              ∧ (JSON_parse env s = None → s' = s)
    | None => d_layers (PathMapping.processDesignPaths env fs design) = None
    end.
Proof.
  assert (Hmap : ∀ objects : option (list SceneObject),
             option_Forall2 (Forall2 (staged_from fs))
               objects (map (PathMapping.processObject fs) <$> objects)).
  { intros [l|]; constructor. apply Forall2_fmap_r, Forall_Forall2_diag.
    apply Forall_forall. intros o _. apply mapped_object_staged. }
  unfold PathMapping.processDesignPaths. cbn [d_objects d_layers].
  split; [apply Hmap|].
  destruct (d_layers design) as [[s|layers]|]; cbn [layers_truthy]; [| |done].
  - destruct (JS.truthy s); [|eauto].
    destruct (JSON_parse env s); [|eauto].
    eexists. split; [done|]. discriminate.
  - eexists. split; [done|]. apply Hmap.
Qed.

(** ** [convertToBrowserPaths] *)

Lemma toBrowserPath_keeps (env : Env) (obj : SceneObject) :
  same_element obj (AssetStaging.toBrowserPath env obj).
Proof.
  unfold AssetStaging.toBrowserPath.
  destruct (o_src obj) as [src|] eqn:Hsrc; [|by repeat split].
  destruct (_ && _); [|by repeat split].
  destruct (pathToFileURL env src); [|by repeat split].
  unfold same_element. simpl. rewrite Hsrc. split_and!; [done..|split; eauto].
Qed.

Lemma toBrowserPath_again (env : Env) (obj : SceneObject) :
  (∀ p href, pathToFileURL env p = Some href → JS.startsWith href "file:" = true) →
  AssetStaging.toBrowserPath env (AssetStaging.toBrowserPath env obj)
  = AssetStaging.toBrowserPath env obj.
Proof.
  intros Hfile. unfold AssetStaging.toBrowserPath at 2.
  destruct (o_src obj) as [src|] eqn:Hsrc.
  2:{ unfold AssetStaging.toBrowserPath. by rewrite Hsrc. }
  destruct (JS.truthy src && negb (JS.startsWith src "http")
            && negb (JS.startsWith src "data:")
            && negb (JS.startsWith src "blob:")
            && negb (JS.startsWith src "file:")) eqn:Hc.
  2:{ unfold AssetStaging.toBrowserPath. by rewrite Hsrc, Hc. }
  destruct (pathToFileURL env src) as [href|] eqn:Hh.
  2:{ unfold AssetStaging.toBrowserPath. by rewrite Hsrc, Hc, Hh. }
  unfold AssetStaging.toBrowserPath. cbn [set_src o_src].
  rewrite (Hfile _ _ Hh). cbn [negb]. by rewrite andb_false_r, Hsrc, Hc, Hh.
Qed.

(** X11. [convertToBrowserPaths] changes nothing of an element but its
    source, and leaves alone a source that begins with [http],
    [data:], [blob:] or [file:].  Since the URLs that [pathToFileURL]
    makes begin with [file:], converting a converted design changes
    nothing more: no source is wrapped twice. *)
Theorem convertToBrowserPaths_once (env : Env) (design : Design) :
  (∀ p href, pathToFileURL env p = Some href → JS.startsWith href "file:" = true) →
  d_objects (AssetStaging.convertToBrowserPaths env
               (AssetStaging.convertToBrowserPaths env design))
  = d_objects (AssetStaging.convertToBrowserPaths env design)
  ∧ option_Forall2 (Forall2 same_element)
      (d_objects design)
      (d_objects (AssetStaging.convertToBrowserPaths env design))
  ∧ ∀ obj src,
      o_src obj = Some src →
      JS.startsWith src "http" || JS.startsWith src "data:"
      || JS.startsWith src "blob:" || JS.startsWith src "file:" = true →
      AssetStaging.toBrowserPath env obj = obj.
Proof.
  intros Hfile. unfold AssetStaging.convertToBrowserPaths. cbn [d_objects].
  split_and!.
  - destruct (d_objects design) as [l|]; [|done]. cbn [fmap option_fmap option_map].
    f_equal. rewrite <-list_fmap_compose. apply list_fmap_ext.
    intros i o _. by apply toBrowserPath_again.
  - destruct (d_objects design) as [l|]; constructor.
    apply Forall2_fmap_r, Forall_Forall2_diag, Forall_forall.
    intros o _. apply toBrowserPath_keeps.
  - intros obj src Hsrc Hp. unfold AssetStaging.toBrowserPath. rewrite Hsrc.
    destruct (JS.startsWith src "http"), (JS.startsWith src "data:"),
      (JS.startsWith src "blob:"), (JS.startsWith src "file:");
      try discriminate; by rewrite ?andb_false_r.
Qed.

Lemma convertToBrowserPaths_once_witness :
  d_objects (AssetStaging.convertToBrowserPaths Scenario.calm
               (AssetStaging.convertToBrowserPaths Scenario.calm
                  (mkDesign None (Some [Scenario.talk]))))
  = d_objects (AssetStaging.convertToBrowserPaths Scenario.calm
                 (mkDesign None (Some [Scenario.talk]))).
Proof.
  refine (proj1 (convertToBrowserPaths_once Scenario.calm
                   (mkDesign None (Some [Scenario.talk])) _)).
  intros p href [= <-]. reflexivity.
Defined.

(** ** Progress and frame counts *)

(** *** Rounding to a double *)

Lemma round_half_even_bounds (x : Q) :
  (Qfloor x ≤ round_half_even x ≤ Qfloor x + 1)%Z.
Proof.
  unfold round_half_even. destruct (_ ?= _)%Q; [destruct (Z.even _)|..]; lia.
Qed.

(** Comparisons of rationals, read as inequalities. *)
Ltac compared :=
  repeat match goal with
  | H : (_ ?= _)%Q = Eq |- _ => apply (proj2 (Qeq_alt _ _)) in H
  | H : (_ ?= _)%Q = Lt |- _ => apply (proj2 (Qlt_alt _ _)) in H
  | H : (_ ?= _)%Q = Gt |- _ => apply (proj2 (Qgt_alt _ _)) in H
  end.

Lemma round_half_even_mono (x y : Q) :
  (x <= y)%Q → (round_half_even x ≤ round_half_even y)%Z.
Proof.
  intros Hxy. pose proof (Qfloor_resp_le _ _ Hxy) as Hf.
  destruct (Z.eq_dec (Qfloor x) (Qfloor y)) as [E|N].
  - unfold round_half_even. rewrite <-E.
    destruct (x - inject_Z (Qfloor x) ?= 1 # 2)%Q eqn:Cx;
      destruct (y - inject_Z (Qfloor x) ?= 1 # 2)%Q eqn:Cy;
      try (destruct (Z.even (Qfloor x)); lia); try lia; exfalso;
      compared; lra.
  - pose proof (round_half_even_bounds x).
    pose proof (round_half_even_bounds y). lia.
Qed.

Lemma round_half_even_Z (z : Z) : round_half_even (inject_Z z) = z.
Proof.
  unfold round_half_even. rewrite Qfloor_Z.
  assert (H : (inject_Z z - inject_Z z ?= 1 # 2)%Q = Lt); [|by rewrite H].
  apply (proj1 (Qlt_alt _ _)). generalize (inject_Z z). intros; lra.
Qed.

Lemma pow2_pos (e : Z) : (0 < 2 ^ e)%Q.
Proof. by apply Qpower_0_lt. Qed.

Lemma pow2_le (a b : Z) : (a ≤ b)%Z → (2 ^ a <= 2 ^ b)%Q.
Proof. intros H. apply Qpower_le_compat_l; [done|]. by compute. Qed.

Lemma pow2_Z (k : Z) : (0 ≤ k)%Z → (inject_Z (2 ^ k) == 2 ^ k)%Q.
Proof. intros H. by rewrite Zpower_Qpower. Qed.

Lemma pow2_minus (a b : Z) : (2 ^ (a - b) == 2 ^ a / 2 ^ b)%Q.
Proof. apply Qpower_minus. by compute. Qed.

Lemma Qdiv_lt_cross (a b c d : Q) :
  (0 < b)%Q → (0 < d)%Q → (a * d < c * b)%Q → (a / b < c / d)%Q.
Proof.
  intros Hb Hd H. apply Qlt_shift_div_r; [done|].
  assert (E : (c / d * b == c * b / d)%Q) by (field; lra). rewrite E.
  by apply Qlt_shift_div_l.
Qed.

Lemma Qdiv_le_cross (a b c d : Q) :
  (0 < b)%Q → (0 < d)%Q → (a * d <= c * b)%Q → (a / b <= c / d)%Q.
Proof.
  intros Hb Hd H. apply Qle_shift_div_r; [done|].
  assert (E : (c / d * b == c * b / d)%Q) by (field; lra). rewrite E.
  by apply Qle_shift_div_l.
Qed.

Lemma exponentOf_spec (x : Q) :
  (0 < x)%Q →
  (2 ^ exponentOf x <= x)%Q ∧ (x < 2 ^ (exponentOf x + 1))%Q.
Proof.
  intros Hx. destruct x as [p q]. unfold exponentOf. cbn [Qnum Qden].
  assert (Hp : (0 < p)%Z) by (unfold Qlt in Hx; simpl in Hx; lia).
  set (lp := Z.log2 p). set (lq := Z.log2 (Z.pos q)).
  destruct (Z.log2_spec p Hp) as [Hp1 Hp2]. fold lp in Hp1, Hp2.
  destruct (Z.log2_spec (Z.pos q) ltac:(lia)) as [Hq1 Hq2].
  fold lq in Hq1, Hq2.
  assert (Hlp : (0 ≤ lp)%Z) by apply Z.log2_nonneg.
  assert (Hlq : (0 ≤ lq)%Z) by apply Z.log2_nonneg.
  assert (Hx' : (p # q == inject_Z p / inject_Z (Z.pos q))%Q)
    by apply Qmake_Qdiv.
  assert (Hqpos : (0 < inject_Z (Z.pos q))%Q) by done.
  rewrite Zle_Qle in Hp1, Hq1. rewrite Zlt_Qlt in Hp2, Hq2.
  rewrite pow2_Z in Hp1, Hp2, Hq1, Hq2 by lia.
  pose proof (pow2_pos lp) as Plp. pose proof (pow2_pos lq) as Plq.
  pose proof (pow2_pos (Z.succ lp)) as Pslp.
  pose proof (pow2_pos (Z.succ lq)) as Pslq.
  destruct (Qle_bool (2 ^ (lp - lq)) (p # q)) eqn:Hc.
  - apply Qle_bool_iff in Hc. split; [done|].
    replace (lp - lq + 1)%Z with (Z.succ lp - lq)%Z by lia.
    rewrite Hx', pow2_minus. apply Qdiv_lt_cross; [done..|].
    revert Hp2 Hq1 Plq Pslp Hqpos.
    generalize (inject_Z p) (inject_Z (Z.pos q)) (2 ^ Z.succ lp)%Q (2 ^ lq)%Q.
    intros; nra.
  - assert (Hlt : (p # q < 2 ^ (lp - lq))%Q).
    { apply Qnot_le_lt. intros Hle. apply Qle_bool_iff in Hle. congruence. }
    split; [|by replace (lp - lq - 1 + 1)%Z with (lp - lq)%Z by lia].
    replace (lp - lq - 1)%Z with (lp - Z.succ lq)%Z by lia.
    rewrite Hx', pow2_minus. apply Qdiv_le_cross; [done..|].
    revert Hp1 Hq2 Plp Pslq Hqpos.
    generalize (inject_Z p) (inject_Z (Z.pos q)) (2 ^ lp)%Q (2 ^ Z.succ lq)%Q.
    intros; nra.
Qed.

Lemma exponentOf_mono (x y : Q) :
  (0 < x)%Q → (x <= y)%Q → (exponentOf x ≤ exponentOf y)%Z.
Proof.
  intros Hx Hxy.
  destruct (exponentOf_spec x Hx) as [Hx1 _].
  destruct (exponentOf_spec y) as [_ Hy2]; [lra|].
  destruct (Z_le_gt_dec (exponentOf x) (exponentOf y)) as [|Hgt]; [done|].
  exfalso. pose proof (pow2_le (exponentOf y + 1) (exponentOf x) ltac:(lia)).
  lra.
Qed.

(** A positive number is rounded within its binade. *)
Lemma nearest_double_bounds (x : Q) :
  (0 < x)%Q →
  (2 ^ exponentOf x <= nearest_double x)%Q
  ∧ (nearest_double x <= 2 ^ (exponentOf x + 1))%Q.
Proof.
  intros Hx. destruct (exponentOf_spec x Hx) as [H1 H2].
  unfold nearest_double. set (e := exponentOf x) in *.
  pose proof (pow2_pos (e - 52)) as Hu.
  assert (Hlo : (inject_Z (2 ^ 52) * 2 ^ (e - 52) == 2 ^ e)%Q).
  { rewrite pow2_Z by lia. rewrite <-Qpower_plus by done.
    by replace (52 + (e - 52))%Z with e by lia. }
  assert (Hhi : (inject_Z (2 ^ 53) * 2 ^ (e - 52) == 2 ^ (e + 1))%Q).
  { rewrite pow2_Z by lia. rewrite <-Qpower_plus by done.
    by replace (53 + (e - 52))%Z with (e + 1)%Z by lia. }
  split.
  - rewrite <-Hlo. apply Qmult_le_compat_r; [|lra].
    rewrite <-Zle_Qle. rewrite <-(round_half_even_Z (2 ^ 52)) at 1.
    apply round_half_even_mono. apply Qle_shift_div_l; [done|].
    by rewrite Hlo.
  - rewrite <-Hhi. apply Qmult_le_compat_r; [|lra].
    rewrite <-Zle_Qle. rewrite <-(round_half_even_Z (2 ^ 53)) at 1.
    apply round_half_even_mono. apply Qle_shift_div_r; [done|].
    rewrite Hhi. lra.
Qed.

Lemma nearest_double_mono (x y : Q) :
  (0 < x)%Q → (x <= y)%Q → (nearest_double x <= nearest_double y)%Q.
Proof.
  intros Hx Hxy. assert (Hy : (0 < y)%Q) by lra.
  pose proof (exponentOf_mono x y Hx Hxy) as He.
  destruct (Z.eq_dec (exponentOf x) (exponentOf y)) as [E|N].
  - unfold nearest_double. rewrite E.
    pose proof (pow2_pos (exponentOf y - 52)) as Hu.
    apply Qmult_le_compat_r; [|lra]. rewrite <-Zle_Qle.
    apply round_half_even_mono. apply Qmult_le_compat_r; [done|].
    apply Qlt_le_weak. by apply Qinv_lt_0_compat.
  - destruct (nearest_double_bounds x Hx) as [_ Hx2].
    destruct (nearest_double_bounds y Hy) as [Hy1 _].
    pose proof (pow2_le (exponentOf x + 1) (exponentOf y) ltac:(lia)). lra.
Qed.

Lemma toDouble_nonneg (x : Q) : (0 <= x)%Q → (0 <= toDouble x)%Q.
Proof.
  intros Hx. unfold toDouble. destruct (x ?= 0)%Q eqn:C; compared; [lra|lra|].
  destruct (nearest_double_bounds x C) as [Hlo _].
  pose proof (pow2_pos (exponentOf x)). lra.
Qed.

Lemma toDouble_mono (x y : Q) :
  (0 <= x)%Q → (x <= y)%Q → (toDouble x <= toDouble y)%Q.
Proof.
  intros Hx Hxy. unfold toDouble at 1.
  destruct (x ?= 0)%Q eqn:C; compared.
  - apply toDouble_nonneg; lra.
  - lra.
  - unfold toDouble. destruct (y ?= 0)%Q eqn:C'; compared; [lra|lra|].
    by apply nearest_double_mono.
Qed.

Lemma Math_round_mono (x y : Q) :
  (x <= y)%Q → (Math_round x ≤ Math_round y)%Z.
Proof. intros H. apply Qfloor_resp_le. lra. Qed.

(** *** The percentage *)

Lemma Q_of_nat_nonneg (i : nat) : (0 <= Q_of_nat i)%Q.
Proof.
  unfold Q_of_nat. change 0%Q with (inject_Z 0). rewrite <-Zle_Qle. lia.
Qed.

Lemma ratio_le (i j : nat) (n : Z) :
  (0 < n)%Z → (i ≤ j)%nat →
  (Q_of_nat i / inject_Z n <= Q_of_nat j / inject_Z n)%Q.
Proof.
  intros Hn Hij.
  assert (Hpos : (0 < inject_Z n)%Q)
    by (change 0%Q with (inject_Z 0); by rewrite <-Zlt_Qlt).
  unfold Qdiv. apply Qmult_le_compat_r.
  - unfold Q_of_nat. rewrite <-Zle_Qle. lia.
  - apply Qlt_le_weak. by apply Qinv_lt_0_compat.
Qed.

(** X12. While frames are captured the reported percentage is sound:
    for a frame index within the total it lies between 0 and 100, and
    it never goes down as the index grows. *)
Theorem progressOf_bounded_monotone (i j : nat) (totalFrames : Z) :
  (i ≤ j)%nat → (Z.of_nat j ≤ totalFrames)%Z → (0 < totalFrames)%Z →
  (0 ≤ progressOf i totalFrames)%Z
  ∧ (progressOf i totalFrames ≤ progressOf j totalFrames)%Z
  ∧ (progressOf j totalFrames ≤ 100)%Z.
Proof.
  intros Hij Hj Hn. unfold progressOf.
  assert (Hpos : (0 < inject_Z totalFrames)%Q)
    by (change 0%Q with (inject_Z 0); by rewrite <-Zlt_Qlt).
  assert (Hi0 : (0 <= Q_of_nat i / inject_Z totalFrames)%Q).
  { apply Qle_shift_div_l; [done|]. rewrite Qmult_0_l. apply Q_of_nat_nonneg. }
  assert (Hj1 : (Q_of_nat j / inject_Z totalFrames <= 1)%Q).
  { apply Qle_shift_div_r; [done|]. rewrite Qmult_1_l.
    unfold Q_of_nat. by rewrite <-Zle_Qle. }
  pose proof (ratio_le i j totalFrames Hn Hij) as Hr.
  pose proof (toDouble_nonneg _ Hi0) as Hdi.
  pose proof (toDouble_mono _ _ Hi0 Hr) as Hdij.
  assert (Hdj : (toDouble (Q_of_nat j / inject_Z totalFrames) <= 1)%Q).
  { apply Qle_trans with (toDouble 1); [apply toDouble_mono; lra|].
    by vm_compute. }
  revert Hdi Hdij Hdj.
  generalize (toDouble (Q_of_nat i / inject_Z totalFrames))
             (toDouble (Q_of_nat j / inject_Z totalFrames)).
  intros a b Ha Hab Hb. split_and!.
  - apply Z.le_trans with (Math_round 0); [done|]. apply Math_round_mono.
    apply toDouble_nonneg. lra.
  - apply Math_round_mono, toDouble_mono; lra.
  - apply Z.le_trans with (Math_round 100); [|done]. apply Math_round_mono.
    apply Qle_trans with (toDouble 100); [apply toDouble_mono; lra|].
    by vm_compute.
Qed.

(** Frame 115 of 200: the quotient and its product with 100 are each
    rounded down, to [57.49999999999999], where the exact product is
    57.5. *)
Example progress_in_doubles :
  progressOf 115 200 = 57%Z
  ∧ Math_round (Q_of_nat 115 / inject_Z 200 * 100) = 58%Z
  ∧ (toDouble (1 # 10) == 3602879701896397 # 36028797018963968)%Q.
Proof. repeat split; vm_compute; reflexivity. Qed.

Lemma progressOf_bounded_monotone_witness :
  (0 ≤ progressOf 5 120)%Z
  ∧ (progressOf 5 120 ≤ progressOf 115 120)%Z
  ∧ (progressOf 115 120 ≤ 100)%Z.
Proof.
  apply (progressOf_bounded_monotone 5 115 120); lia.
Defined.

(** X13. Both revisions render at least 120 frames: the duration that
    [resolveDuration] returns is never below five seconds, and the
    frame count is that duration times 24, rounded down. *)
Theorem at_least_120_frames (env : Env) (localDesign : Design)
    (baseDir : string) (fs : FS) :
  match outcome (AssetStaging.resolveDuration env localDesign baseDir fs) with
  | Ok (_, _, duration) => (120 ≤ totalFramesOf duration)%Z
  | Throw e => e = ErrJSON
  end
  ∧ match outcome (PathMapping.resolveDuration env localDesign fs) with
    | Ok (_, _, duration) => (120 ≤ totalFramesOf duration)%Z
    | Throw e => e = ErrJSON
    end.
Proof.
  assert (Hfloor : ∀ a b : Q, (120 ≤ totalFramesOf (Math_max3 a b 5))%Z).
  { intros a b. unfold totalFramesOf, Math_max3, fps.
    apply Z.le_trans with (Qfloor (5 * inject_Z 24)); [done|].
    apply Qfloor_resp_le.
    apply Qmult_le_compat_r; [|done]. apply Q.le_max_r. }
  assert (Hrest : ∀ (audio : option string) (fs1 : FS),
    match outcome
            ((let* fs := get_fs in
              let audioDuration := audioDurationOf env fs audio in
              let* designObjects := designObjectsOf env localDesign in
              let maxVideoDuration := checkObjectsDuration env fs designObjects in
              let duration := Math_max3 maxVideoDuration audioDuration 5 in
              ret (audio, designObjects, duration)) fs1) with
    | Ok (_, _, duration) => (120 ≤ totalFramesOf duration)%Z
    | Throw e => e = ErrJSON
    end).
  { intros audio fs1. repeat bind_step. unfold designObjectsOf.
    destruct (layers_truthy (d_layers localDesign));
      [destruct (d_layers localDesign) as [[s|layers]|];
       [destruct (JSON_parse env s)| |]|];
      repeat bind_step; cbn [ret outcome]; done || apply Hfloor. }
  assert (Haudio : ∀ outputDir, ∃ audio,
             outcome (extractAudio env localDesign outputDir fs) = Ok audio).
  { intros outputDir. unfold extractAudio.
    destruct (audioObjects env localDesign) as [objects|]; [|by eexists].
    destruct (find is_video objects) as [videoObj|]; [|by eexists].
    destruct (o_src videoObj) as [src|]; [|by eexists].
    destruct (JS.truthy src); cbn [negb]; [|by eexists].
    repeat bind_step.
    destruct (ffmpeg_audio_ok env src); repeat bind_step; by eexists. }
  split.
  - unfold AssetStaging.resolveDuration.
    destruct (Haudio (Some baseDir)) as [audio Ha].
    rewrite (bind_ok _ _ _ _ Ha). apply Hrest.
  - unfold PathMapping.resolveDuration.
    destruct (Haudio None) as [audio Ha].
    rewrite (bind_ok _ _ _ _ Ha). apply Hrest.
Qed.

(** ** What the frame loop reports and samples *)

Lemma reported_app (a b : list Event) :
  reported (a ++ b) = reported a ++ reported b.
Proof. apply omap_app. Qed.

Lemma reportProgress_reported (env : Env) exportId webhookUrl progress status fs :
  reported (events (reportProgress env exportId webhookUrl progress status fs))
  = if JS.truthy_opt webhookUrl then [(progress, status)] else [].
Proof.
  unfold reportProgress, when, bind, emit.
  destruct (JS.truthy_opt webhookUrl); cbn [outcome fs_after events]; [|done].
  by destruct (fetch_webhook env progress status).
Qed.

Lemma sampled_seq (n : nat) : sampled (seq 0 n) = Nat.min n 5.
Proof.
  unfold sampled.
  assert (H : ∀ a, length (List.filter (λ i, (i <? 5)%nat) (seq a n))
                   = Nat.min n (5 - a)).
  { induction n as [|n IH]; intros a; [done|]. cbn [seq List.filter].
    destruct (Nat.ltb_spec a 5); cbn [length]; rewrite IH; lia. }
  rewrite H. lia.
Qed.

Section FrameLoopCounts.
Context (env : Env) (exportId : string) (webhookUrl : option string)
        (framesDir : string) (totalFrames : Z).

Lemma frame_report_run (i : nat) (fs : FS) :
  let report := when (i mod 5 =? 0)%nat
                  (reportProgress env exportId webhookUrl
                     (progressOf i totalFrames) "rendering_frames") in
  outcome (report fs) = Ok tt ∧ fs_after (report fs) = fs
  ∧ reported (events (report fs)) = frameReports webhookUrl totalFrames [i].
Proof.
  unfold frameReports. cbn [List.filter]. unfold when.
  destruct (i mod 5 =? 0)%nat.
  - destruct (reportProgress_returns env exportId webhookUrl
                (progressOf i totalFrames) "rendering_frames" fs) as [-> ->].
    rewrite reportProgress_reported. by destruct (JS.truthy_opt webhookUrl).
  - by destruct (JS.truthy_opt webhookUrl).
Qed.

Lemma frameReports_cons (i : nat) (todo : list nat) :
  frameReports webhookUrl totalFrames (i :: todo)
  = frameReports webhookUrl totalFrames [i]
    ++ frameReports webhookUrl totalFrames todo.
Proof.
  unfold frameReports. destruct (JS.truthy_opt webhookUrl); [|done].
  cbn [List.filter]. by destruct (i mod 5 =? 0)%nat.
Qed.

Lemma staging_captureFrame_counts (i : nat) (seeks seeks' : nat * nat) (fs : FS) :
  outcome (AssetStaging.captureFrame env exportId webhookUrl framesDir
             totalFrames i seeks fs) = Ok seeks' →
  reported (events (AssetStaging.captureFrame env exportId webhookUrl framesDir
                      totalFrames i seeks fs))
  = frameReports webhookUrl totalFrames [i]
  ∧ (fst seeks' + snd seeks' = fst seeks + snd seeks + sampled [i])%nat.
Proof.
  unfold AssetStaging.captureFrame, sampled. cbn [List.filter].
  destruct (frame_report_run i fs) as (Hout & Hfs & Hr).
  revert Hout Hfs Hr.
  generalize (when (i mod 5 =? 0)%nat
                (reportProgress env exportId webhookUrl
                   (progressOf i totalFrames) "rendering_frames")).
  intros report Hout Hfs Hr.
  rewrite (bind_ok _ _ _ tt Hout). cbn [outcome fs_after events].
  rewrite Hfs, reported_app, Hr. clear Hout Hfs Hr.
  unfold bind, emit, writeFile, update_fs, ret, throw.
  destruct (seek_ok env i); [|cbn; discriminate].
  destruct (i <? 5)%nat; cbn.
  - destruct (first_video_diff env i) as [accuracy|]; cbn; [|discriminate].
    destruct (Qltb accuracy (1 # 2)); cbn;
      (destruct (capture env i) as [[dataUrl|]|]; cbn; [|discriminate..]);
      (destruct (JS.split dataUrl "," !! 1%nat); cbn; [|discriminate]);
      (destruct (writeFile_ok env (frame_path framesDir i)); cbn;
         [|discriminate]); intros [= <-]; cbn; rewrite app_nil_r;
      (split; [done|lia]).
  - destruct (capture env i) as [[dataUrl|]|]; cbn; [|discriminate..].
    destruct (JS.split dataUrl "," !! 1%nat); cbn; [|discriminate].
    destruct (writeFile_ok env (frame_path framesDir i)); cbn; [|discriminate].
    intros [= <-]. rewrite app_nil_r. split; [done|lia].
Qed.

Lemma mapping_captureFrame_counts (i : nat) (seeks seeks' : nat * nat) (fs : FS) :
  outcome (PathMapping.captureFrame env exportId webhookUrl framesDir
             totalFrames i seeks fs) = Ok seeks' →
  reported (events (PathMapping.captureFrame env exportId webhookUrl framesDir
                      totalFrames i seeks fs))
  = frameReports webhookUrl totalFrames [i]
  ∧ (fst seeks' + snd seeks' = fst seeks + snd seeks + sampled [i])%nat.
Proof.
  unfold PathMapping.captureFrame, sampled. cbn [List.filter].
  destruct (frame_report_run i fs) as (Hout & Hfs & Hr).
  revert Hout Hfs Hr.
  generalize (when (i mod 5 =? 0)%nat
                (reportProgress env exportId webhookUrl
                   (progressOf i totalFrames) "rendering_frames")).
  intros report Hout Hfs Hr.
  rewrite (bind_ok _ _ _ tt Hout). cbn [outcome fs_after events].
  rewrite Hfs, reported_app, Hr. clear Hout Hfs Hr.
  unfold bind, emit, writeFile, update_fs, ret, throw.
  destruct (seek_ok env i); [|cbn; discriminate].
  destruct (i <? 5)%nat; cbn.
  - destruct (all_video_diffs env i) as [videoStatus|]; cbn; [|discriminate].
    destruct (forallb _ videoStatus); cbn;
      (destruct (capture env i) as [dataUrl|]; cbn; [|discriminate]);
      (destruct (PathMapping.validDataUrl dataUrl); cbn;
         [|intros [= <-]; cbn; rewrite app_nil_r; split; [done|lia]]);
      (destruct (JS.split (default "" dataUrl) "," !! 1%nat); cbn; [|discriminate]);
      (destruct (writeFile_ok env (frame_path framesDir i)); cbn;
         [|discriminate]); intros [= <-]; cbn; rewrite app_nil_r;
      (split; [done|lia]).
  - destruct (capture env i) as [dataUrl|]; cbn; [|discriminate].
    destruct (PathMapping.validDataUrl dataUrl); cbn;
      [|intros [= <-]; rewrite app_nil_r; split; [done|lia]].
    destruct (JS.split (default "" dataUrl) "," !! 1%nat); cbn; [|discriminate].
    destruct (writeFile_ok env (frame_path framesDir i)); cbn; [|discriminate].
    intros [= <-]. rewrite app_nil_r. split; [done|lia].
Qed.

Lemma sampled_cons (i : nat) (todo : list nat) :
  sampled (i :: todo) = (sampled [i] + sampled todo)%nat.
Proof. unfold sampled. cbn [List.filter]. by destruct (i <? 5)%nat. Qed.

Lemma staging_captureLoop_counts (todo : list nat) (seeks seeks' : nat * nat)
    (fs : FS) :
  outcome (AssetStaging.captureLoop env exportId webhookUrl framesDir
             totalFrames todo seeks fs) = Ok seeks' →
  reported (events (AssetStaging.captureLoop env exportId webhookUrl framesDir
                      totalFrames todo seeks fs))
  = frameReports webhookUrl totalFrames todo
  ∧ (fst seeks' + snd seeks' = fst seeks + snd seeks + sampled todo)%nat.
Proof.
  revert seeks fs. induction todo as [|i todo IH]; intros seeks fs;
    cbn [AssetStaging.captureLoop].
  - intros [= <-]. cbn [ret outcome fs_after events].
    split; [unfold frameReports; by destruct (JS.truthy_opt webhookUrl)|].
    unfold sampled. simpl. lia.
  - destruct (outcome (AssetStaging.captureFrame env exportId webhookUrl framesDir
                         totalFrames i seeks fs)) as [s1|e] eqn:E.
    + rewrite (bind_ok _ _ _ _ E). cbn [outcome fs_after events].
      destruct (staging_captureFrame_counts i seeks s1 fs E) as (Hr & Hn).
      intros Hrest. destruct (IH _ _ Hrest) as (Hr' & Hn').
      rewrite reported_app, Hr, Hr', (frameReports_cons i todo),
        (sampled_cons i todo).
      split; [done|lia].
    + rewrite (bind_throw _ _ _ _ E). discriminate.
Qed.

Lemma mapping_captureLoop_counts (todo : list nat) (seeks seeks' : nat * nat)
    (fs : FS) :
  outcome (PathMapping.captureLoop env exportId webhookUrl framesDir
             totalFrames todo seeks fs) = Ok seeks' →
  reported (events (PathMapping.captureLoop env exportId webhookUrl framesDir
                      totalFrames todo seeks fs))
  = frameReports webhookUrl totalFrames todo
  ∧ (fst seeks' + snd seeks' = fst seeks + snd seeks + sampled todo)%nat.
Proof.
  revert seeks fs. induction todo as [|i todo IH]; intros seeks fs;
    cbn [PathMapping.captureLoop].
  - intros [= <-]. cbn [ret outcome fs_after events].
    split; [unfold frameReports; by destruct (JS.truthy_opt webhookUrl)|].
    unfold sampled. simpl. lia.
  - destruct (outcome (PathMapping.captureFrame env exportId webhookUrl framesDir
                         totalFrames i seeks fs)) as [s1|e] eqn:E.
    + rewrite (bind_ok _ _ _ _ E). cbn [outcome fs_after events].
      destruct (mapping_captureFrame_counts i seeks s1 fs E) as (Hr & Hn).
      intros Hrest. destruct (IH _ _ Hrest) as (Hr' & Hn').
      rewrite reported_app, Hr, Hr', (frameReports_cons i todo),
        (sampled_cons i todo).
      split; [done|lia].
    + rewrite (bind_throw _ _ _ _ E). discriminate.
Qed.

End FrameLoopCounts.

(** X14. In each revision, a frame loop that returns has reported
    progress once for every fifth frame, starting with frame 0, each
    time with the status [rendering_frames] and the percentage of that
    frame, in order, and nothing else; without a webhook it has
    reported nothing. *)
Theorem frame_loop_reports (env : Env) (exportId : string)
    (webhookUrl : option string) (framesDir : string) (duration : Q)
    (fs : FS) :
  (∀ staged,
     outcome (AssetStaging.captureFrames env exportId webhookUrl framesDir
                duration fs) = Ok staged →
     reported (events (AssetStaging.captureFrames env exportId webhookUrl
                         framesDir duration fs))
     = frameReports webhookUrl (totalFramesOf duration)
         (seq 0 (Z.to_nat (totalFramesOf duration))))
  ∧ (∀ mapped,
       outcome (PathMapping.captureFrames env exportId webhookUrl framesDir
                  duration fs) = Ok mapped →
       reported (events (PathMapping.captureFrames env exportId webhookUrl
                           framesDir duration fs))
       = frameReports webhookUrl (totalFramesOf duration)
           (seq 0 (Z.to_nat (totalFramesOf duration)))).
Proof.
  unfold AssetStaging.captureFrames, PathMapping.captureFrames. split.
  - intros staged Hs.
    by destruct (staging_captureLoop_counts _ _ _ _ _ _ _ _ _ Hs).
  - intros mapped Hm.
    by destruct (mapping_captureLoop_counts _ _ _ _ _ _ _ _ _ Hm).
Qed.

(** A second of video in the staging revision, and in the path-mapping
    revision a second in which the capture of frame 3 is blank, so that
    the staging loop would throw. *)
Lemma frame_loop_reports_witness :
  reported (events (AssetStaging.captureFrames Scenario.calm "job1"
                      (Some "http://localhost:8000/progress")
                      "/tmp/job1/frames" 1 ∅))
  = frameReports (Some "http://localhost:8000/progress") (totalFramesOf 1)
      (seq 0 (Z.to_nat (totalFramesOf 1)))
  ∧ reported (events (PathMapping.captureFrames Scenario.blankThird "job1"
                        (Some "http://localhost:8000/progress")
                        "/tmp/job1" 1 ∅))
    = [(0, "rendering_frames"); (21, "rendering_frames");
       (42, "rendering_frames"); (63, "rendering_frames");
       (83, "rendering_frames")]%Z.
Proof.
  split.
  - refine (proj1 (frame_loop_reports Scenario.calm "job1"
                     (Some "http://localhost:8000/progress")
                     "/tmp/job1/frames" 1 ∅) (5, 0)%nat _).
    vm_compute; reflexivity.
  - rewrite (proj2 (frame_loop_reports Scenario.blankThird "job1"
                      (Some "http://localhost:8000/progress")
                      "/tmp/job1" 1 ∅) (5, 0)%nat);
      vm_compute; reflexivity.
Defined.

(** X15. In each revision, a frame loop that returns has judged the
    accuracy of seeking on exactly the first five frames, or on all of
    them when there are fewer: the two counters add up to that
    number. *)
Theorem seek_sample_size (env : Env) (exportId : string)
    (webhookUrl : option string) (framesDir : string) (duration : Q)
    (fs : FS) :
  (∀ staged,
     outcome (AssetStaging.captureFrames env exportId webhookUrl framesDir
                duration fs) = Ok staged →
     (fst staged + snd staged
      = Nat.min (Z.to_nat (totalFramesOf duration)) 5)%nat)
  ∧ (∀ mapped,
       outcome (PathMapping.captureFrames env exportId webhookUrl framesDir
                  duration fs) = Ok mapped →
       (fst mapped + snd mapped
        = Nat.min (Z.to_nat (totalFramesOf duration)) 5)%nat).
Proof.
  unfold AssetStaging.captureFrames, PathMapping.captureFrames.
  rewrite <-sampled_seq. split.
  - intros staged Hs.
    by destruct (staging_captureLoop_counts _ _ _ _ _ _ _ _ _ Hs) as [_ ->].
  - intros mapped Hm.
    by destruct (mapping_captureLoop_counts _ _ _ _ _ _ _ _ _ Hm) as [_ ->].
Qed.

Lemma seek_sample_size_witness :
  (0 + 5 = Nat.min (Z.to_nat (totalFramesOf 1)) 5)%nat
  ∧ (5 + 0 = Nat.min (Z.to_nat (totalFramesOf 1)) 5)%nat.
Proof.
  split.
  - refine (proj1 (seek_sample_size Scenario.drifting "job1" None
                     "/tmp/job1/frames" 1 ∅) (0, 5)%nat _).
    vm_compute; reflexivity.
  - refine (proj2 (seek_sample_size Scenario.blankThird "job1" None
                     "/tmp/job1" 1 ∅) (5, 0)%nat _).
    vm_compute; reflexivity.
Defined.

(** ** What a run never deletes *)

Section Keeps.
Context (P : string → Prop).

Lemma keeps_ret {A} (a : A) : keeps P (ret a).
Proof. by intros fs p Hp _. Qed.

Lemma keeps_throw {A} (e : Error) : keeps P (@throw A e).
Proof. by intros fs p Hp _. Qed.

Lemma keeps_emit (e : Event) : keeps P (emit e).
Proof. by intros fs p Hp _. Qed.

Lemma keeps_existsSync (q : string) : keeps P (existsSync q).
Proof. by intros fs p Hp _. Qed.

Lemma keeps_get_fs : keeps P get_fs.
Proof. by intros fs p Hp _. Qed.

Lemma keeps_update_fs (f : FS → FS) :
  (∀ fs p, p ∈ fs → P p → p ∈ f fs) → keeps P (update_fs f).
Proof. intros Hf fs p Hp HP. by apply Hf. Qed.

Lemma keeps_bind {A B} (m : M A) (k : A → M B) :
  keeps P m → (∀ a, keeps P (k a)) → keeps P (bind m k).
Proof.
  intros Hm Hk fs p Hp HP. unfold bind.
  destruct (outcome (m fs)) as [a|e]; cbn [fs_after].
  - apply Hk; [|done]. by apply Hm.
  - by apply Hm.
Qed.

Lemma keeps_try_catch {A} (m : M A) (h : Error → M A) :
  keeps P m → (∀ e, keeps P (h e)) → keeps P (try_catch m h).
Proof.
  intros Hm Hh fs p Hp HP. unfold try_catch.
  destruct (outcome (m fs)) as [a|e]; cbn [fs_after].
  - by apply Hm.
  - apply Hh; [|done]. by apply Hm.
Qed.

Lemma keeps_try_finally {A} (m : M A) (f : M unit) :
  keeps P m → keeps P f → keeps P (try_finally m f).
Proof.
  intros Hm Hf fs p Hp HP. unfold try_finally. cbn [fs_after].
  apply Hf; [|done]. by apply Hm.
Qed.

Lemma keeps_when (b : bool) (m : M unit) : keeps P m → keeps P (when b m).
Proof. destruct b; [done|intros _; apply keeps_ret]. Qed.

Lemma keeps_map_each {A} (l : list A) (body : A → M A) :
  (∀ x, keeps P (body x)) → keeps P (map_each l body).
Proof.
  intros Hbody. induction l as [|x l IH]; cbn [map_each].
  - apply keeps_ret.
  - apply keeps_bind; [done|]. intros y.
    apply keeps_bind; [done|]. intros ys. apply keeps_ret.
Qed.

Lemma keeps_union (X : FS) : keeps P (update_fs (λ fs, X ∪ fs)).
Proof. apply keeps_update_fs. intros fs p Hp _. apply elem_of_union. by right. Qed.

End Keeps.

Create HintDb keeps.

(** One step of a proof that a computation [keeps] the paths of [P]:
    follow the shape of the program. *)
Ltac keeps_step :=
  match goal with
  | |- keeps _ (bind _ _) => apply keeps_bind; [|intros ?]
  | |- keeps _ (ret _) => apply keeps_ret
  | |- keeps _ (throw _) => apply keeps_throw
  | |- keeps _ (emit _) => apply keeps_emit
  | |- keeps _ (existsSync _) => apply keeps_existsSync
  | |- keeps _ get_fs => apply keeps_get_fs
  | |- keeps _ (update_fs (λ fs, _ ∪ fs)) => apply keeps_union
  | |- keeps _ (when _ _) => apply keeps_when
  | |- keeps _ (try_catch _ _) => apply keeps_try_catch; [|intros ?]
  | |- keeps _ (try_finally _ _) => apply keeps_try_finally
  | |- keeps _ (map_each _ _) => apply keeps_map_each; intros ?
  | |- keeps _ (if ?b then _ else _) => destruct b
  | |- keeps _ (match ?x with _ => _ end) => destruct x
  | |- keeps _ _ => solve [auto with keeps]
  end.

Ltac keeps_auto := repeat keeps_step.

Section KeepsCalls.
Context (env : Env) (P : string → Prop).

Lemma keeps_mkdir p : keeps P (mkdir env p).
Proof. unfold mkdir. keeps_auto. Qed.

Lemma keeps_writeFile p : keeps P (writeFile env p).
Proof. unfold writeFile. keeps_auto. Qed.

Lemma keeps_readFile p : keeps P (readFile env p).
Proof. unfold readFile. keeps_auto. Qed.

Lemma keeps_reportProgress exportId webhookUrl progress status :
  keeps P (reportProgress env exportId webhookUrl progress status).
Proof. unfold reportProgress. keeps_auto. Qed.

Hint Resolve keeps_mkdir keeps_writeFile keeps_readFile
  keeps_reportProgress : keeps.

Lemma keeps_extractFrames videoPath outputDir rate duration :
  keeps P (extractVideoFramesWithFFmpeg env videoPath outputDir rate duration).
Proof. unfold extractVideoFramesWithFFmpeg. keeps_auto. Qed.

Lemma keeps_extractAudio design outputDir :
  keeps P (extractAudio env design outputDir).
Proof. unfold extractAudio. keeps_auto. Qed.

Lemma keeps_mergeVideo framesDir audio exportId :
  keeps P (mergeVideo env framesDir audio exportId).
Proof. unfold mergeVideo. keeps_auto. Qed.

Lemma keeps_designObjectsOf design : keeps P (designObjectsOf env design).
Proof. unfold designObjectsOf. keeps_auto. Qed.

Hint Resolve keeps_extractFrames keeps_extractAudio keeps_mergeVideo
  keeps_designObjectsOf : keeps.

Lemma keeps_downloadAsset url assetsDir :
  keeps P (AssetStaging.downloadAsset env url assetsDir).
Proof. unfold AssetStaging.downloadAsset. keeps_auto. Qed.

Lemma keeps_processObjects assetsDir objects :
  keeps P (AssetStaging.processObjects env assetsDir objects).
Proof.
  unfold AssetStaging.processObjects, AssetStaging.processObject.
  pose proof keeps_downloadAsset. keeps_auto.
Qed.

Lemma keeps_prepareDesignAssets design exportId :
  keeps P (AssetStaging.prepareDesignAssets env design exportId).
Proof.
  unfold AssetStaging.prepareDesignAssets.
  pose proof keeps_processObjects. keeps_auto.
Qed.

Lemma keeps_staging_browser c : keeps P (AssetStaging.browser env c).
Proof. unfold AssetStaging.browser. keeps_auto. Qed.

Lemma keeps_mapping_browser c : keeps P (PathMapping.browser env c).
Proof. unfold PathMapping.browser. keeps_auto. Qed.

Lemma keeps_staging_resolveDuration design baseDir :
  keeps P (AssetStaging.resolveDuration env design baseDir).
Proof. unfold AssetStaging.resolveDuration. keeps_auto. Qed.

Lemma keeps_mapping_resolveDuration design :
  keeps P (PathMapping.resolveDuration env design).
Proof. unfold PathMapping.resolveDuration. keeps_auto. Qed.

Lemma keeps_staging_captureLoop exportId webhookUrl framesDir total todo seeks :
  keeps P (AssetStaging.captureLoop env exportId webhookUrl framesDir total
             todo seeks).
Proof.
  revert seeks. induction todo as [|i todo IH]; intros seeks;
    cbn [AssetStaging.captureLoop].
  - apply keeps_ret.
  - apply keeps_bind; [|done]. unfold AssetStaging.captureFrame. keeps_auto.
Qed.

Lemma keeps_mapping_captureLoop exportId webhookUrl framesDir total todo seeks :
  keeps P (PathMapping.captureLoop env exportId webhookUrl framesDir total
             todo seeks).
Proof.
  revert seeks. induction todo as [|i todo IH]; intros seeks;
    cbn [PathMapping.captureLoop].
  - apply keeps_ret.
  - apply keeps_bind; [|done]. unfold PathMapping.captureFrame. keeps_auto.
Qed.

Lemma keeps_staging_fallbackCheck objects seeks framesDir duration :
  keeps P (AssetStaging.fallbackCheck env objects seeks framesDir duration).
Proof. unfold AssetStaging.fallbackCheck. keeps_auto. Qed.

Lemma keeps_mapping_fallbackCheck objects seeks framesDir duration :
  keeps P (PathMapping.fallbackCheck env objects seeks framesDir duration).
Proof. unfold PathMapping.fallbackCheck. keeps_auto. Qed.

Lemma keeps_mergeAndUpload exportId webhookUrl baseDir framesDir audioPath :
  keeps P (AssetStaging.mergeAndUpload env exportId webhookUrl baseDir
             framesDir audioPath).
Proof. unfold AssetStaging.mergeAndUpload. keeps_auto. Qed.

Hint Resolve keeps_prepareDesignAssets keeps_staging_browser
  keeps_mapping_browser keeps_staging_resolveDuration
  keeps_mapping_resolveDuration keeps_staging_captureLoop
  keeps_mapping_captureLoop keeps_staging_fallbackCheck
  keeps_mapping_fallbackCheck keeps_mergeAndUpload : keeps.

(** The [try] block of the staging revision deletes nothing at all. *)
Lemma keeps_staging_tryBlock design exportId webhookUrl :
  keeps P (AssetStaging.tryBlock env design exportId webhookUrl).
Proof.
  unfold AssetStaging.tryBlock, AssetStaging.renderBody,
    AssetStaging.captureFrames.
  keeps_auto.
Qed.

End KeepsCalls.

Lemma keeps_cleanupExport (env : Env) (exportId : string) :
  keeps (outside (path_join (tmpdir env) exportId))
    (AssetStaging.cleanupExport env exportId).
Proof.
  unfold AssetStaging.cleanupExport, rm.
  apply keeps_bind; [apply keeps_existsSync|intros found].
  apply keeps_when, keeps_try_catch; [|intros e; apply keeps_emit].
  apply keeps_bind; [apply keeps_emit|intros _].
  destruct (rm_ok env _); [|apply keeps_throw].
  apply keeps_update_fs. intros fs p Hp [Hne Hout]. by apply elem_of_filter.
Qed.



Lemma keeps_mapping_upload (env : Env) (exportId : string)
    (webhookUrl : option string) (videoPath : string) :
  keeps (λ p, p ≠ videoPath) (PathMapping.upload env exportId webhookUrl videoPath).
Proof.
  unfold PathMapping.upload, unlink.
  pose proof (keeps_readFile env (λ p, p ≠ videoPath)).
  pose proof (keeps_reportProgress env (λ p, p ≠ videoPath)).
  apply keeps_bind; [apply keeps_existsSync|intros found].
  destruct found; [|keeps_auto].
  apply keeps_bind; [keeps_auto|intros _].
  apply keeps_try_catch; [|intros e; apply keeps_emit].
  apply keeps_bind; [apply keeps_emit|intros _].
  destruct (unlink_ok env videoPath); [|apply keeps_throw].
  apply keeps_update_fs. intros fs p Hp Hne.
  apply elem_of_difference. split; [done|]. by rewrite elem_of_singleton.
Qed.



(** ** Calls into the browser *)

Lemma browserCalls_app (a b : list Event) :
  browserCalls (a ++ b) = browserCalls a ++ browserCalls b.
Proof. apply omap_app. Qed.

Section Headless.

Lemma headless_ret {A} (a : A) : headless (ret a).
Proof. by intros fs. Qed.

Lemma headless_throw {A} (e : Error) : headless (@throw A e).
Proof. by intros fs. Qed.

Lemma headless_emit (e : Event) : (∀ c, e ≠ EvBrowser c) → headless (emit e).
Proof. intros He fs. destruct e; try done. by destruct (He c). Qed.

Lemma headless_existsSync (q : string) : headless (existsSync q).
Proof. by intros fs. Qed.

Lemma headless_get_fs : headless get_fs.
Proof. by intros fs. Qed.

Lemma headless_update_fs (f : FS → FS) : headless (update_fs f).
Proof. by intros fs. Qed.

Lemma headless_bind {A B} (m : M A) (k : A → M B) :
  headless m → (∀ a, headless (k a)) → headless (bind m k).
Proof.
  intros Hm Hk fs. unfold bind.
  destruct (outcome (m fs)) as [a|e]; cbn [events]; [|apply Hm].
  by rewrite browserCalls_app, Hm, Hk.
Qed.

Lemma headless_try_catch {A} (m : M A) (h : Error → M A) :
  headless m → (∀ e, headless (h e)) → headless (try_catch m h).
Proof.
  intros Hm Hh fs. unfold try_catch.
  destruct (outcome (m fs)) as [a|e]; cbn [events]; [apply Hm|].
  by rewrite browserCalls_app, Hm, Hh.
Qed.

Lemma headless_when (b : bool) (m : M unit) : headless m → headless (when b m).
Proof. destruct b; [done|intros _; apply headless_ret]. Qed.

End Headless.

Ltac headless_step :=
  match goal with
  | |- headless (bind _ _) => apply headless_bind; [|intros ?]
  | |- headless (ret _) => apply headless_ret
  | |- headless (throw _) => apply headless_throw
  | |- headless (emit _) => apply headless_emit; discriminate
  | |- headless (existsSync _) => apply headless_existsSync
  | |- headless get_fs => apply headless_get_fs
  | |- headless (update_fs _) => apply headless_update_fs
  | |- headless (when _ _) => apply headless_when
  | |- headless (try_catch _ _) => apply headless_try_catch; [|intros ?]
  | |- headless (if ?b then _ else _) => destruct b
  | |- headless (match ?x with _ => _ end) => destruct x
  end.

Ltac headless_auto := repeat headless_step.

Section BrowserCalls.
Context (env : Env).

Lemma headless_mkdir p : headless (mkdir env p).
Proof. unfold mkdir. headless_auto. Qed.

Lemma headless_cleanupExport exportId :
  headless (AssetStaging.cleanupExport env exportId).
Proof. unfold AssetStaging.cleanupExport, rm. headless_auto. Qed.

Lemma headless_mapping_resolveDuration design :
  headless (PathMapping.resolveDuration env design).
Proof.
  unfold PathMapping.resolveDuration, extractAudio, designObjectsOf.
  headless_auto.
Qed.

Lemma mapping_browser_run (c : BrowserCall) (fs : FS) :
  PathMapping.browser env c fs
  = mkRun (if browser_ok env c then Ok tt else Throw (ErrBrowser c)) fs
          [EvBrowser c].
Proof. unfold PathMapping.browser, bind. simpl. by destruct (browser_ok env c). Qed.

Lemma staging_browser_run (c : BrowserCall) (fs : FS) :
  AssetStaging.browser env c fs
  = mkRun (if browser_ok env c then Ok tt else Throw (ErrBrowser c)) fs
          [EvBrowser c].
Proof. unfold AssetStaging.browser, bind. simpl. by destruct (browser_ok env c). Qed.

(** What the [finally] block of the staging revision comes to. *)
Lemma finalizer_run (exportId : string) (fs : FS) :
  AssetStaging.finalizer env exportId fs
  = if browser_ok env Close
    then mkRun (Ok tt) (fs_after (AssetStaging.cleanupExport env exportId fs))
               (EvBrowser Close
                :: events (AssetStaging.cleanupExport env exportId fs))
    else mkRun (Throw (ErrBrowser Close)) fs [EvBrowser Close].
Proof.
  unfold AssetStaging.finalizer.
  destruct (browser_ok env Close) eqn:Hc.
  - rewrite (bind_ok _ _ _ tt) by (by rewrite staging_browser_run, Hc).
    rewrite staging_browser_run, Hc. cbn [outcome fs_after events].
    by rewrite cleanupExport_returns.
  - rewrite (bind_throw _ _ _ (ErrBrowser Close))
      by (by rewrite staging_browser_run, Hc).
    by rewrite staging_browser_run, Hc.
Qed.

(** The frame of the staging [renderVideo] around any [try] block, once
    the frames directory is there and the browser has been launched. *)
Lemma launched_run (exportId : string) (body : M unit) (fs : FS) :
  path_join (path_join (tmpdir env) exportId) "frames" ∈ fs
  ∨ mkdir_ok env (path_join (path_join (tmpdir env) exportId) "frames") = true →
  browser_ok env Launch = true →
  ∃ pre,
    browserCalls pre = [Launch]
    ∧ (let* found := existsSync (path_join (path_join (tmpdir env) exportId) "frames") in
       when (negb found)
         (mkdir env (path_join (path_join (tmpdir env) exportId) "frames")) >>
       AssetStaging.browser env Launch >>
       try_finally body (AssetStaging.finalizer env exportId)) fs
      = try_finally
          (λ fs0, mkRun (outcome (body fs0)) (fs_after (body fs0))
                        (pre ++ events (body fs0)))
          (AssetStaging.finalizer env exportId) (entry_fs env exportId fs).
Proof.
  intros Hdir Hlaunch.
  destruct (ensure_frames_dir env exportId fs Hdir) as [Hmk Hentry].
  cbn zeta in Hmk, Hentry.
  exists (events (when (negb (bool_decide
                    (path_join (path_join (tmpdir env) exportId) "frames" ∈ fs)))
                    (mkdir env (path_join (path_join (tmpdir env) exportId)
                                  "frames")) fs)
          ++ [EvBrowser Launch]).
  split.
  - rewrite browserCalls_app.
    rewrite (headless_when _ _ (headless_mkdir _) fs). done.
  - repeat bind_step.
    rewrite (bind_ok _ _ fs tt) by exact Hmk. rewrite Hentry.
    rewrite (bind_ok _ _ _ tt) by (by rewrite staging_browser_run, Hlaunch).
    rewrite staging_browser_run, Hlaunch.
    cbn [outcome fs_after events].
    unfold try_finally. cbn [outcome fs_after events].
    by rewrite <-!app_assoc.
Qed.

End BrowserCalls.

Lemma frames_dir_at_entry (env : Env) (exportId : string) (fs : FS) :
  path_join (path_join (tmpdir env) exportId) "frames" ∈ entry_fs env exportId fs.
Proof.
  unfold entry_fs. case_bool_decide as Hin; [done|].
  rewrite !elem_of_union, elem_of_singleton. left. by left.
Qed.

Lemma browserCalls_cons (c : BrowserCall) (l : list Event) :
  browserCalls (EvBrowser c :: l) = c :: browserCalls l.
Proof. reflexivity. Qed.

(** X18. In the staging revision, when [browser.close()] rejects in the
    [finally] block, [cleanupExport] is never reached: [renderVideo]
    rejects with the error of the close, whatever the [try] block had
    returned or thrown, the file system is left as the [try] block
    left it, and the frames directory of the job is still there. *)
Theorem close_failure_skips_cleanup (env : Env) (design : Design)
    (exportId : string) (webhookUrl : option string) (fs : FS) :
  path_join (path_join (tmpdir env) exportId) "frames" ∈ fs
  ∨ mkdir_ok env (path_join (path_join (tmpdir env) exportId) "frames") = true →
  browser_ok env Launch = true →
  browser_ok env Close = false →
  outcome (AssetStaging.renderVideo env design exportId webhookUrl fs)
  = Throw (ErrBrowser Close)
  ∧ fs_after (AssetStaging.renderVideo env design exportId webhookUrl fs)
    = fs_after (stagingAttempt env design exportId webhookUrl fs)
  ∧ path_join (path_join (tmpdir env) exportId) "frames"
    ∈ fs_after (AssetStaging.renderVideo env design exportId webhookUrl fs).
Proof.
  intros Hdir Hlaunch Hclose.
  destruct (launched_run env exportId
              (AssetStaging.tryBlock env design exportId webhookUrl) fs
              Hdir Hlaunch) as (pre & _ & Hrun).
  pose proof (keeps_staging_tryBlock env (λ _, True) design exportId webhookUrl
                (entry_fs env exportId fs) _
                (frames_dir_at_entry env exportId fs) I) as Hkept.
  unfold stagingAttempt, AssetStaging.renderVideo.
  revert Hrun Hkept.
  generalize (AssetStaging.tryBlock env design exportId webhookUrl).
  intros body Hrun Hkept. cbv zeta. rewrite Hrun.
  unfold try_finally. cbn [outcome fs_after events].
  rewrite finalizer_run, Hclose. cbn [outcome fs_after events]. done.
Qed.

Lemma close_failure_skips_cleanup_witness :
  outcome (AssetStaging.renderVideo stuckBrowser Scenario.oneClip "job1" None ∅)
  = Throw (ErrBrowser Close)
  ∧ "/tmp/job1/frames"
    ∈ fs_after (AssetStaging.renderVideo stuckBrowser Scenario.oneClip "job1"
                  None ∅).
Proof.
  destruct (close_failure_skips_cleanup stuckBrowser Scenario.oneClip "job1"
              None ∅ (or_intror eq_refl) eq_refl eq_refl) as (Ho & _ & Hin).
  exact (conj Ho Hin).
Defined.

(** X19. In the staging revision a browser that was launched is always
    asked to close: once the frames directory is there and the launch
    has succeeded, the last call into Puppeteer of any run is
    [browser.close()], however the [try] block ends. *)
Theorem staging_closes_browser (env : Env) (design : Design)
    (exportId : string) (webhookUrl : option string) (fs : FS) :
  path_join (path_join (tmpdir env) exportId) "frames" ∈ fs
  ∨ mkdir_ok env (path_join (path_join (tmpdir env) exportId) "frames") = true →
  browser_ok env Launch = true →
  last (browserCalls
          (events (AssetStaging.renderVideo env design exportId webhookUrl fs)))
  = Some Close.
Proof.
  intros Hdir Hlaunch.
  destruct (launched_run env exportId
              (AssetStaging.tryBlock env design exportId webhookUrl) fs
              Hdir Hlaunch) as (pre & _ & Hrun).
  unfold AssetStaging.renderVideo.
  revert Hrun.
  generalize (AssetStaging.tryBlock env design exportId webhookUrl).
  intros body Hrun. cbv zeta. rewrite Hrun.
  unfold try_finally. cbn [outcome fs_after events].
  rewrite finalizer_run.
  destruct (browser_ok env Close); cbn [events];
    rewrite browserCalls_app, browserCalls_cons;
    rewrite ?(headless_cleanupExport env exportId); apply last_snoc.
Qed.

Lemma staging_closes_browser_witness :
  last (browserCalls
          (events (AssetStaging.renderVideo Scenario.offline Scenario.oneClip
                     "job1" None ∅)))
  = Some Close.
Proof.
  exact (staging_closes_browser Scenario.offline Scenario.oneClip "job1" None ∅
           (or_intror eq_refl) eq_refl).
Defined.

Lemma headless_prefix {A B} (m : M A) (k : A → M B) (fs : FS)
    (calls : list BrowserCall) :
  headless m →
  (∀ a, outcome (m fs) = Ok a →
        browserCalls (events (k a (fs_after (m fs)))) `prefix_of` calls) →
  browserCalls (events (bind m k fs)) `prefix_of` calls.
Proof.
  intros Hm Hk. unfold bind.
  destruct (outcome (m fs)) as [a|e]; cbn [events].
  - rewrite browserCalls_app, Hm. by apply Hk.
  - rewrite Hm. by exists calls.
Qed.

(** X20. In the path-mapping revision the browser leaks when the page
    cannot be set up: if [browser.newPage()] or
    [page.setRequestInterception()] rejects, the calls into Puppeteer
    stop there, and [browser.close()] is not among them, for these
    calls come before the [try] block whose [finally] closes the
    browser. *)
Theorem page_failure_leaks_browser (env : Env) (design : Design)
    (exportId : string) (webhookUrl : option string) (fs : FS) :
  browser_ok env NewPage = false
  ∨ browser_ok env SetRequestInterception = false →
  browserCalls
    (events (PathMapping.renderVideo env design exportId webhookUrl fs))
  `prefix_of` [Launch; NewPage; SetRequestInterception]
  ∧ Close ∉ browserCalls
      (events (PathMapping.renderVideo env design exportId webhookUrl fs)).
Proof.
  intros Hpage.
  assert (Hpre : browserCalls
            (events (PathMapping.renderVideo env design exportId webhookUrl fs))
            `prefix_of` [Launch; NewPage; SetRequestInterception]).
  { unfold PathMapping.renderVideo.
    apply headless_prefix; [apply headless_existsSync|intros found _].
    apply headless_prefix;
      [apply headless_when, headless_mkdir|intros [] _].
    apply headless_prefix; [apply headless_get_fs|intros fs1 _].
    apply headless_prefix;
      [apply headless_mapping_resolveDuration|intros [[audio objs] d] _].
    cbn [get_fs fs_after].
    generalize (fs_after
      (PathMapping.resolveDuration env
         (PathMapping.processDesignPaths env
            (fs_after (when (negb found)
                         (mkdir env (path_join (tmpdir env) exportId))
                         (fs_after (existsSync (path_join (tmpdir env) exportId) fs))))
            design)
         (fs_after (when (negb found)
                      (mkdir env (path_join (tmpdir env) exportId))
                      (fs_after (existsSync (path_join (tmpdir env) exportId) fs)))))).
    intros fs2.
    destruct (browser_ok env Launch) eqn:Hl.
    2:{ rewrite (bind_throw _ _ _ (ErrBrowser Launch))
          by (by rewrite mapping_browser_run, Hl).
        rewrite mapping_browser_run. cbn [events browserCalls omap].
        by exists [NewPage; SetRequestInterception]. }
    rewrite (bind_ok _ _ _ tt) by (by rewrite mapping_browser_run, Hl).
    rewrite mapping_browser_run. cbn [outcome fs_after events].
    destruct (browser_ok env NewPage) eqn:Hn.
    2:{ rewrite (bind_throw _ _ _ (ErrBrowser NewPage))
          by (by rewrite mapping_browser_run, Hn).
        rewrite mapping_browser_run. cbn [events browserCalls omap app].
        by exists [SetRequestInterception]. }
    rewrite (bind_ok _ _ _ tt) by (by rewrite mapping_browser_run, Hn).
    rewrite mapping_browser_run. cbn [outcome fs_after events].
    destruct Hpage as [?|Hs]; [congruence|].
    rewrite (bind_throw _ _ _ (ErrBrowser SetRequestInterception))
      by (by rewrite mapping_browser_run, Hs).
    rewrite mapping_browser_run. cbn [events browserCalls omap app]. done. }
  split; [exact Hpre|].
  intros Hin. destruct Hpre as [rest Heq].
  assert (Hbad : Close ∈ [Launch; NewPage; SetRequestInterception]).
  { rewrite Heq. apply elem_of_app. by left. }
  rewrite !elem_of_cons, elem_of_nil in Hbad.
  by destruct Hbad as [|[|[|]]].
Qed.

Lemma page_failure_leaks_browser_witness :
  Close ∉ browserCalls
    (events (PathMapping.renderVideo noPage Scenario.oneClip "job1" None ∅)).
Proof.
  exact (proj2 (page_failure_leaks_browser noPage Scenario.oneClip "job1" None ∅
                  (or_introl eq_refl))).
Defined.

Example browser_left_open :
  browserCalls
    (events (PathMapping.renderVideo noPage Scenario.oneClip "job1" None ∅))
  = [Launch; NewPage].
Proof. vm_compute. reflexivity. Qed.

(** ** Merging and uploading *)

Lemma uploaded_app (a b : list Event) :
  uploaded (a ++ b) = uploaded a ++ uploaded b.
Proof. apply omap_app. Qed.

Lemma reportProgress_run (env : Env) exportId webhookUrl progress status fs :
  reportProgress env exportId webhookUrl progress status fs
  = mkRun (Ok tt) fs
      (if JS.truthy_opt webhookUrl
       then EvReport progress status
            :: match fetch_webhook env progress status with
               | NetworkError => [EvError "Failed to report progress"]
               | Response _ => []
               end
       else []).
Proof.
  unfold reportProgress, when, bind, emit.
  destruct (JS.truthy_opt webhookUrl); cbn [outcome fs_after events]; [|done].
  by destruct (fetch_webhook env progress status).
Qed.

Lemma reportProgress_uploads_nothing (env : Env) exportId webhookUrl progress
    status fs :
  uploaded (events (reportProgress env exportId webhookUrl progress status fs))
  = [].
Proof.
  rewrite reportProgress_run. cbn [events].
  destruct (JS.truthy_opt webhookUrl); [|done].
  by destruct (fetch_webhook env progress status).
Qed.

Lemma startsWith_dots_join (t x : string) :
  JS.startsWith t ".." = false → JS.startsWith (path_join t x) ".." = false.
Proof.
  unfold JS.startsWith, path_join.
  destruct t as [|a [|b t]].
  - intros _. reflexivity.
  - intros _. change (String.prefix ".." (String a (String "/" x)) = false).
    cbn [String.prefix]. by destruct (ascii_dec "." a).
  - change (String.prefix ".." (String a (String b t)) = false →
            String.prefix ".." (String a (String b (t +:+ "/" +:+ x))) = false).
    cbn [String.prefix]. destruct (ascii_dec "." a); [|done].
    destruct (ascii_dec "." b); [|done].
    by rewrite !startsWith_nil.
Qed.

(** [mergeVideo] creates paths only under [..], sends no report and
    uploads nothing. *)
Lemma mergeVideo_effects (env : Env) framesDir audio exportId fs :
  (∀ p, p ∈ fs_after (mergeVideo env framesDir audio exportId fs) →
        p ∈ fs ∨ JS.startsWith p ".." = true)
  ∧ uploaded (events (mergeVideo env framesDir audio exportId fs)) = []
  ∧ reported (events (mergeVideo env framesDir audio exportId fs)) = [].
Proof.
  assert (Hout : JS.startsWith (path_join mergeOutputDir (exportId +:+ ".mp4")) ".."
                 = true) by reflexivity.
  assert (Hdirs : ∀ p, p ∈ ({[mergeOutputDir]} ∪ list_to_set (parents mergeOutputDir)
                            : FS) →
                       JS.startsWith p ".." = true).
  { intros p. rewrite elem_of_union, elem_of_singleton, elem_of_list_to_set.
    let l := eval vm_compute in (parents mergeOutputDir) in
    change (parents mergeOutputDir) with l.
    rewrite !elem_of_cons, elem_of_nil.
    intros [->|H]; [reflexivity|].
    repeat (destruct H as [->|H]; [reflexivity|]). done. }
  unfold mergeVideo. repeat bind_step.
  case_bool_decide as Hin; cbn [negb when].
  - repeat bind_step.
    destruct (ffmpeg_merge_ok env); repeat bind_step;
      cbn [update_fs throw outcome fs_after events]; (split; [|done]).
    + intros p. rewrite elem_of_union, elem_of_singleton.
      intros [->|?]; [by right|by left].
    + intros p ?. by left.
  - destruct (mkdir_ok env mergeOutputDir) eqn:Hmk.
    + rewrite (bind_ok (mkdir env mergeOutputDir) _ fs tt)
        by (by rewrite mkdir_run, Hmk).
      rewrite mkdir_run, Hmk. cbn [outcome fs_after events].
      repeat bind_step.
      destruct (ffmpeg_merge_ok env); repeat bind_step;
        cbn [update_fs throw outcome fs_after events]; (split; [|done]).
      * intros p. rewrite elem_of_union, elem_of_singleton.
        intros [->|H]; [by right|].
        apply elem_of_union in H as [H|H]; [right; by apply Hdirs|by left].
      * intros p H.
        apply elem_of_union in H as [H|H]; [right; by apply Hdirs|by left].
    + rewrite (bind_throw (mkdir env mergeOutputDir) _ fs
                 (ErrFs "mkdir" mergeOutputDir))
        by (by rewrite mkdir_run, Hmk).
      rewrite mkdir_run, Hmk. cbn [outcome fs_after events].
      split; [|done]. intros p ?. by left.
Qed.

(** X21. The staging revision looks for the merged video in the working
    directory of the job, while [mergeVideo] writes it under
    [../main/storage].  Paths being compared as written: unless the
    working directory itself lies under [..] or already holds a file
    of that name, nothing is uploaded, and a run that gets through the
    merge ends by reporting the status [failed]. *)
Theorem staging_upload_needs_video (env : Env) (exportId : string)
    (webhookUrl : option string) (baseDir framesDir : string)
    (audioPath : option string) (fs : FS) :
  JS.startsWith baseDir ".." = false →
  path_join baseDir (exportId +:+ ".mp4") ∉ fs →
  uploaded (events (AssetStaging.mergeAndUpload env exportId webhookUrl baseDir
                      framesDir audioPath fs)) = []
  ∧ (outcome (mergeVideo env framesDir audioPath exportId fs) = Ok tt →
     outcome (AssetStaging.mergeAndUpload env exportId webhookUrl baseDir
                framesDir audioPath fs) = Ok tt
     ∧ reported (events (AssetStaging.mergeAndUpload env exportId webhookUrl
                           baseDir framesDir audioPath fs))
       = if JS.truthy_opt webhookUrl
         then [(90%Z, "merging_video"); (95%Z, "uploading"); (100%Z, "failed")]
         else []).
Proof.
  intros Hbase Hout.
  assert (Hfresh : path_join baseDir (exportId +:+ ".mp4")
                   ∉ fs_after (mergeVideo env framesDir audioPath exportId fs)).
  { intros Hin.
    destruct (mergeVideo_effects env framesDir audioPath exportId fs)
      as (Hadd & _).
    destruct (Hadd _ Hin) as [?|Hdots]; [done|].
    by rewrite (startsWith_dots_join _ _ Hbase) in Hdots. }
  destruct (mergeVideo_effects env framesDir audioPath exportId fs)
    as (_ & Hup & Hrep).
  unfold AssetStaging.mergeAndUpload.
  rewrite (bind_ok _ _ fs tt) by (by rewrite reportProgress_run).
  cbn [outcome fs_after events].
  rewrite uploaded_app, reported_app, reportProgress_uploads_nothing,
    reportProgress_reported.
  rewrite (reportProgress_run env exportId webhookUrl 90).
  cbn [outcome fs_after events app].
  destruct (outcome (mergeVideo env framesDir audioPath exportId fs))
    as [[]|e] eqn:Hm.
  - rewrite (bind_ok _ _ fs tt Hm). cbn [outcome fs_after events].
    rewrite (bind_ok _ _ _ tt) by (by rewrite reportProgress_run).
    cbn [outcome fs_after events].
    rewrite !uploaded_app, !reported_app, Hup, Hrep,
      reportProgress_uploads_nothing, reportProgress_reported.
    rewrite (reportProgress_run env exportId webhookUrl 95).
    cbn [outcome fs_after events app].
    repeat bind_step.
    rewrite bool_decide_eq_false_2 by done.
    repeat bind_step.
    rewrite !uploaded_app, !reported_app, reportProgress_uploads_nothing,
      reportProgress_reported.
    rewrite reportProgress_run. cbn [outcome fs_after events].
    split; [done|]. intros _. split; [done|].
    by destruct (JS.truthy_opt webhookUrl).
  - rewrite (bind_throw _ _ fs e Hm). cbn [outcome fs_after events].
    rewrite Hup. split; [done|]. discriminate.
Qed.

Lemma staging_upload_needs_video_witness :
  uploaded (events (AssetStaging.mergeAndUpload Scenario.calm "job1" None
                      "/tmp/job1" "/tmp/job1/frames" None ∅)) = [].
Proof.
  refine (proj1 (staging_upload_needs_video Scenario.calm "job1" None
                   "/tmp/job1" "/tmp/job1/frames" None ∅ eq_refl _)).
  apply not_elem_of_empty.
Defined.

Lemma readFile_run (env : Env) (p : string) (fs : FS) :
  readFile env p fs
  = mkRun (if bool_decide (p ∈ fs) && readFile_ok env p
           then Ok tt else Throw (ErrFs "readFile" p)) fs [].
Proof.
  unfold readFile. repeat bind_step.
  by destruct (bool_decide (p ∈ fs) && readFile_ok env p).
Qed.

Lemma unlink_run (env : Env) (p : string) (fs : FS) :
  unlink env p fs
  = if unlink_ok env p
    then mkRun (Ok tt) (fs ∖ {[p]}) [EvUnlink p]
    else mkRun (Throw (ErrFs "unlink" p)) fs [EvUnlink p].
Proof. unfold unlink, bind, emit. simpl. by destruct (unlink_ok env p). Qed.

(** X22. In the path-mapping revision the merged video is removed from
    the temporary directory only after an upload that succeeded.  With
    the file in place and readable: if the storage endpoint accepts
    the upload, the call returns and the file is gone, unless
    [unlink] fails, which is only logged; if the upload is refused or
    the endpoint cannot be reached, the call throws, [unlink] is never
    called and the file stays where it was. *)
Theorem mapping_upload_cleanup (env : Env) (exportId : string)
    (webhookUrl : option string) (videoPath : string) (fs : FS) :
  videoPath ∈ fs →
  readFile_ok env videoPath = true →
  match fetch_upload env with
  | Response true =>
      outcome (PathMapping.upload env exportId webhookUrl videoPath fs) = Ok tt
      ∧ uploaded (events (PathMapping.upload env exportId webhookUrl videoPath fs))
        = [PathMapping.uploadUrl env]
      ∧ fs_after (PathMapping.upload env exportId webhookUrl videoPath fs)
        = (if unlink_ok env videoPath then fs ∖ {[videoPath]} else fs)
  | _ =>
      (∃ e, outcome (PathMapping.upload env exportId webhookUrl videoPath fs)
            = Throw e)
      ∧ unlinked (events (PathMapping.upload env exportId webhookUrl videoPath fs))
        = []
      ∧ fs_after (PathMapping.upload env exportId webhookUrl videoPath fs) = fs
  end.
Proof.
  intros Hin Hread. unfold PathMapping.upload. repeat bind_step.
  rewrite bool_decide_eq_true_2 by done.
  set (attempt := try_catch _ _).
  assert (Hattempt :
    match fetch_upload env with
    | Response true =>
        outcome (attempt fs) = Ok tt ∧ fs_after (attempt fs) = fs
        ∧ uploaded (events (attempt fs)) = [PathMapping.uploadUrl env]
    | _ =>
        (∃ e, outcome (attempt fs) = Throw e) ∧ fs_after (attempt fs) = fs
        ∧ unlinked (events (attempt fs)) = []
    end).
  { subst attempt. unfold try_catch.
    rewrite (bind_ok (readFile env videoPath) _ fs tt)
      by (by rewrite readFile_run, bool_decide_eq_true_2, Hread).
    rewrite readFile_run. cbn [outcome fs_after events].
    repeat bind_step.
    destruct (fetch_upload env) as [|[]]; repeat bind_step;
      cbn [throw outcome fs_after events]; repeat bind_step.
    - rewrite (bind_ok _ _ fs tt) by (by rewrite reportProgress_run).
      rewrite !reportProgress_run. cbn [outcome fs_after events throw].
      split; [by eexists|]. split; [done|].
      destruct (JS.truthy_opt webhookUrl); [|done].
      by destruct (fetch_webhook env 100 "failed").
    - rewrite !reportProgress_run. cbn [outcome fs_after events app].
      split; [done|]. split; [done|].
      destruct (JS.truthy_opt webhookUrl); [|done].
      by destruct (fetch_webhook env 100 "completed").
    - rewrite (bind_ok _ _ fs tt) by (by rewrite reportProgress_run).
      rewrite !reportProgress_run. cbn [outcome fs_after events throw].
      split; [by eexists|]. split; [done|].
      destruct (JS.truthy_opt webhookUrl); [|done].
      by destruct (fetch_webhook env 100 "failed"). }
  clearbody attempt.
  destruct (fetch_upload env) as [|[]].
  - destruct Hattempt as ([e He] & Hfs & Hun).
    rewrite (bind_throw _ _ _ _ He). cbn [outcome fs_after events].
    split; [by eexists|]. done.
  - destruct Hattempt as (Ho & Hfs & Hup).
    rewrite (bind_ok _ _ _ _ Ho), Hfs. cbn [outcome fs_after events].
    unfold try_catch. rewrite unlink_run.
    destruct (unlink_ok env videoPath); cbn [outcome fs_after events emit];
      rewrite !uploaded_app, Hup; done.
  - destruct Hattempt as ([e He] & Hfs & Hun).
    rewrite (bind_throw _ _ _ _ He). cbn [outcome fs_after events].
    split; [by eexists|]. done.
Qed.

Lemma mapping_upload_cleanup_witness :
  fs_after (PathMapping.upload Scenario.uploadRejected "job1" None
              "/tmp/job1.mp4" {[ "/tmp/job1.mp4" ]})
  = {[ "/tmp/job1.mp4" ]}.
Proof.
  refine (proj2 (proj2 (mapping_upload_cleanup Scenario.uploadRejected "job1"
                          None "/tmp/job1.mp4" {[ "/tmp/job1.mp4" ]} _ eq_refl))).
  by apply elem_of_singleton.
Defined.

(** ** The fallback that succeeds *)

Section Quiet.
Context (Q : Event → Prop).

Lemma quiet_ret {A} (a : A) : quiet Q (ret a).
Proof. intros fs. constructor. Qed.

Lemma quiet_throw {A} (e : Error) : quiet Q (@throw A e).
Proof. intros fs. constructor. Qed.

Lemma quiet_emit (e : Event) : Q e → quiet Q (emit e).
Proof. intros He fs. by constructor. Qed.

Lemma quiet_existsSync (q : string) : quiet Q (existsSync q).
Proof. intros fs. constructor. Qed.

Lemma quiet_get_fs : quiet Q get_fs.
Proof. intros fs. constructor. Qed.

Lemma quiet_update_fs (f : FS → FS) : quiet Q (update_fs f).
Proof. intros fs. constructor. Qed.

Lemma quiet_bind {A B} (m : M A) (k : A → M B) :
  quiet Q m → (∀ a, quiet Q (k a)) → quiet Q (bind m k).
Proof.
  intros Hm Hk fs. unfold bind.
  destruct (outcome (m fs)) as [a|e]; cbn [events]; [|apply Hm].
  apply Forall_app. split; [apply Hm|apply Hk].
Qed.

Lemma quiet_try_catch {A} (m : M A) (h : Error → M A) :
  quiet Q m → (∀ e, quiet Q (h e)) → quiet Q (try_catch m h).
Proof.
  intros Hm Hh fs. unfold try_catch.
  destruct (outcome (m fs)) as [a|e]; cbn [events]; [apply Hm|].
  apply Forall_app. split; [apply Hm|apply Hh].
Qed.

Lemma quiet_when (b : bool) (m : M unit) : quiet Q m → quiet Q (when b m).
Proof. destruct b; [done|intros _; apply quiet_ret]. Qed.

End Quiet.

Ltac quiet_step :=
  match goal with
  | |- quiet _ (bind _ _) => apply quiet_bind; [|intros ?]
  | |- quiet _ (ret _) => apply quiet_ret
  | |- quiet _ (throw _) => apply quiet_throw
  | |- quiet _ (emit _) => apply quiet_emit; first [exact I|reflexivity]
  | |- quiet _ (existsSync _) => apply quiet_existsSync
  | |- quiet _ get_fs => apply quiet_get_fs
  | |- quiet _ (update_fs _) => apply quiet_update_fs
  | |- quiet _ (when _ _) => apply quiet_when
  | |- quiet _ (try_catch _ _) => apply quiet_try_catch; [|intros ?]
  | |- quiet _ (if ?b then _ else _) => destruct b
  | |- quiet _ (match ?x with _ => _ end) => destruct x
  end.

Ltac quiet_auto := repeat quiet_step.

Lemma capturing_effects (evs : list Event) :
  Forall capturing evs →
  frameExtractions evs = [] ∧ uploaded evs = []
  ∧ Forall (λ r, r.2 = "rendering_frames") (reported evs).
Proof.
  induction 1 as [|e evs He _ (IH1 & IH2 & IH3)]; [by split_and!|].
  destruct e; try done. cbn. split_and!; [done..|]. by constructor.
Qed.

Lemma no_extraction_effects (evs : list Event) :
  Forall no_extraction evs → frameExtractions evs = [].
Proof. induction 1 as [|e evs He _ IH]; [done|]. by destruct e. Qed.

Lemma untold_effects (evs : list Event) :
  Forall untold evs → uploaded evs = [] ∧ reported evs = [].
Proof. induction 1 as [|e evs He _ IH]; [done|]. by destruct e. Qed.

Lemma frameExtractions_app (a b : list Event) :
  frameExtractions (a ++ b) = frameExtractions a ++ frameExtractions b.
Proof. apply omap_app. Qed.

Section FallbackSuccess.
Context (env : Env) (exportId : string) (webhookUrl : option string).

Lemma capturing_mapping_browser c : quiet capturing (PathMapping.browser env c).
Proof. unfold PathMapping.browser. quiet_auto. Qed.

Lemma capturing_mapping_captureLoop framesDir total todo seeks :
  quiet capturing
    (PathMapping.captureLoop env exportId webhookUrl framesDir total todo seeks).
Proof.
  revert seeks. induction todo as [|i todo IH]; intros seeks;
    cbn [PathMapping.captureLoop].
  - apply quiet_ret.
  - apply quiet_bind; [|done].
    unfold PathMapping.captureFrame, reportProgress, writeFile. quiet_auto.
Qed.

Lemma no_extraction_tail framesDir audioPath videoPath :
  quiet no_extraction
    (reportProgress env exportId webhookUrl 90 "merging_video" >>
     mergeVideo env framesDir audioPath exportId >>
     reportProgress env exportId webhookUrl 95 "uploading" >>
     PathMapping.upload env exportId webhookUrl videoPath).
Proof.
  unfold PathMapping.upload, reportProgress, mergeVideo, readFile, unlink, mkdir.
  quiet_auto.
Qed.

Lemma untold_mergeVideo framesDir audio :
  quiet untold (mergeVideo env framesDir audio exportId).
Proof. unfold mergeVideo, mkdir. quiet_auto. Qed.

Lemma untold_extractFrames videoPath outputDir rate duration :
  quiet untold (extractVideoFramesWithFFmpeg env videoPath outputDir rate duration).
Proof. unfold extractVideoFramesWithFFmpeg, mkdir. quiet_auto. Qed.

(** When [ffmpeg] was run on a video and exits normally, the fallback
    extraction answers [true]. *)
Lemma extractFrames_succeeds videoPath outputDir rate duration fs video dir :
  (video, dir)
  ∈ frameExtractions
      (events (extractVideoFramesWithFFmpeg env videoPath outputDir rate duration fs)) →
  is_Some (ffmpeg_frames env video) →
  outcome (extractVideoFramesWithFFmpeg env videoPath outputDir rate duration fs)
  = Ok true.
Proof.
  unfold extractVideoFramesWithFFmpeg, try_catch. repeat bind_step.
  destruct videoPath as [v|]; repeat bind_step;
    [|cbn; by rewrite elem_of_nil].
  case_bool_decide as Hin; cbn [negb]; repeat bind_step;
    [|cbn; by rewrite elem_of_nil].
  assert (Hend : ∀ pre post,
            frameExtractions pre = [] → frameExtractions post = [] →
            ffmpeg_frames env v = None →
            (video, dir)
            ∈ frameExtractions (pre ++ EvExtractFrames v outputDir :: post) →
            ¬ is_Some (ffmpeg_frames env video)).
  { intros pre post Hpre Hpost Hff. rewrite frameExtractions_app, Hpre. cbn.
    fold (frameExtractions post). rewrite Hpost.
    intros Hex Hs.
    apply elem_of_cons in Hex as [[= -> ->]|Hex]; [|by apply elem_of_nil in Hex].
    rewrite Hff in Hs. by destruct Hs. }
  case_bool_decide as Hd; cbn [negb when].
  - repeat bind_step.
    destruct (ffmpeg_frames env v) as [n|] eqn:Hff; repeat bind_step;
      cbn [throw outcome fs_after events]; repeat bind_step; [done|].
    intros Hex Hs.
    destruct (Hend [EvLog "Attempting FFmpeg frame extraction as fallback"]
                [EvError "FFmpeg frame extraction failed"]
                eq_refl eq_refl eq_refl Hex Hs).
  - destruct (mkdir_ok env outputDir) eqn:Hmk.
    + rewrite (bind_ok (mkdir env outputDir) _ fs tt)
        by (by rewrite mkdir_run, Hmk).
      rewrite mkdir_run, Hmk. cbn [outcome fs_after events app].
      repeat bind_step.
      destruct (ffmpeg_frames env v) as [n|] eqn:Hff; repeat bind_step;
        cbn [throw outcome fs_after events]; repeat bind_step; [done|].
      intros Hex Hs.
      destruct (Hend [EvLog "Attempting FFmpeg frame extraction as fallback";
                      EvMkdir outputDir]
                  [EvError "FFmpeg frame extraction failed"]
                  eq_refl eq_refl eq_refl Hex Hs).
    + rewrite (bind_throw (mkdir env outputDir) _ fs (ErrFs "mkdir" outputDir))
        by (by rewrite mkdir_run, Hmk).
      rewrite mkdir_run, Hmk. cbn [outcome fs_after events app].
      repeat bind_step. cbn. by rewrite elem_of_nil.
Qed.

Lemma extractFrames_returns videoPath outputDir rate duration fs :
  ∃ b, outcome (extractVideoFramesWithFFmpeg env videoPath outputDir rate
                  duration fs) = Ok b.
Proof.
  unfold extractVideoFramesWithFFmpeg, try_catch.
  match goal with
  | |- context [match outcome ?r with Ok _ => _ | Throw _ => _ end] =>
      destruct (outcome r) as [b|e] eqn:E
  end.
  - exists b. exact E.
  - exists false. reflexivity.
Qed.

Context (framesDir : string) (designObjects : list SceneObject) (duration : Q).

Lemma untold_fallbackCheck seeks :
  quiet untold (PathMapping.fallbackCheck env designObjects seeks framesDir duration).
Proof.
  unfold PathMapping.fallbackCheck.
  pose proof untold_extractFrames. quiet_auto; done.
Qed.

Lemma fallbackCheck_returns seeks fs :
  ∃ b, outcome (PathMapping.fallbackCheck env designObjects seeks framesDir
                  duration fs) = Ok b.
Proof.
  unfold PathMapping.fallbackCheck.
  destruct (0 <? _)%nat; [|by eexists].
  destruct (Qltb (PathMapping.accuracyOf seeks) 50); [|by eexists].
  repeat bind_step.
  destruct (PathMapping.fallbackVideo fs designObjects) as [videoPath|];
    [|by eexists].
  destruct (Qltb (PathMapping.accuracyOf seeks) 20); [|by eexists].
  destruct (extractFrames_returns (Some videoPath) framesDir fps duration fs)
    as [b Hb].
  rewrite (bind_ok _ _ _ _ Hb).
  destruct b; repeat bind_step; by eexists.
Qed.

Lemma fallbackCheck_succeeds seeks fs :
  extraction_succeeded env
    (PathMapping.fallbackCheck env designObjects seeks framesDir duration fs) →
  outcome (PathMapping.fallbackCheck env designObjects seeks framesDir duration fs)
  = Ok true.
Proof.
  unfold extraction_succeeded, PathMapping.fallbackCheck.
  intros (video & dir & Hin & Hs). revert Hin.
  destruct (0 <? _)%nat; [|cbn; by rewrite elem_of_nil].
  destruct (Qltb (PathMapping.accuracyOf seeks) 50);
    [|cbn; by rewrite elem_of_nil].
  repeat bind_step.
  destruct (PathMapping.fallbackVideo fs designObjects) as [videoPath|];
    [|cbn; by rewrite elem_of_nil].
  destruct (Qltb (PathMapping.accuracyOf seeks) 20);
    [|cbn; by rewrite elem_of_nil].
  destruct (extractFrames_returns (Some videoPath) framesDir fps duration fs)
    as [b Hb].
  rewrite (bind_ok _ _ _ _ Hb). cbn [outcome fs_after events].
  destruct b; repeat bind_step; [done|].
  cbn [ret events]. rewrite !frameExtractions_app. cbn [app].
  change (frameExtractions [EvWarn "Low seeking accuracy detected"]) with
    (@nil (string * string)).
  change (frameExtractions ([EvWarn "FFmpeg fallback also failed"] ++ []))
    with (@nil (string * string)).
  rewrite app_nil_r. cbn [app]. intros Hin.
  by rewrite (extractFrames_succeeds _ _ _ _ _ _ _ Hin Hs) in Hb.
Qed.

Lemma merged_in_silence_bind {A B} (m : M A) (k : A → M B) (fs : FS) :
  quiet capturing m →
  (∀ a, merged_in_silence env (k a (fs_after (m fs)))) →
  merged_in_silence env (bind m k fs).
Proof.
  intros Hm Hk. unfold bind, merged_in_silence, extraction_succeeded.
  destruct (capturing_effects _ (Hm fs)) as (Hfe & Hup & Hrep).
  destruct (outcome (m fs)) as [a|e]; cbn [events].
  - intros (video & dir & Hin & Hs).
    rewrite frameExtractions_app, Hfe in Hin.
    destruct (Hk a) as [Hu Hr]; [by exists video, dir|].
    rewrite uploaded_app, reported_app, Hup, Hu. split; [done|].
    by apply Forall_app.
  - intros (video & dir & Hin & _). rewrite Hfe in Hin.
    by apply elem_of_nil in Hin.
Qed.

Lemma merged_in_silence_fallback (merge tail : M unit) seeks fs :
  quiet untold merge → quiet no_extraction tail →
  merged_in_silence env
    ((let* done := PathMapping.fallbackCheck env designObjects seeks framesDir
                     duration in
      if done then merge else tail) fs).
Proof.
  intros Hmerge Htail.
  destruct (fallbackCheck_returns seeks fs) as [b Hb].
  pose proof (fallbackCheck_succeeds seeks fs) as Hsucc.
  destruct (untold_effects _ (untold_fallbackCheck seeks fs)) as [Hup Hrep].
  unfold merged_in_silence, extraction_succeeded in *.
  rewrite (bind_ok _ _ _ _ Hb). cbn [outcome fs_after events].
  destruct b.
  - intros _.
    destruct (untold_effects _ (Hmerge
      (fs_after (PathMapping.fallbackCheck env designObjects seeks framesDir
                   duration fs)))) as [Hup' Hrep'].
    rewrite uploaded_app, reported_app, Hup, Hrep, Hup', Hrep'.
    split; [done|constructor].
  - intros (video & dir & Hin & Hs).
    rewrite frameExtractions_app,
      (no_extraction_effects _ (Htail _)), app_nil_r in Hin.
    rewrite Hsucc in Hb by (by exists video, dir). discriminate.
Qed.

End FallbackSuccess.

(** X23. In the path-mapping revision a fallback that succeeds ends the
    job in silence: in a run of the [try] block in which [ffmpeg]
    extracted the frames of the video, the video is merged and
    [renderVideo] returns at once, so nothing is uploaded, and no
    progress is reported but that of the frame loop: neither
    [merging_video] nor [uploading] nor [completed]. *)
Theorem fallback_success_skips_upload (env : Env) (design : Design)
    (exportId : string) (webhookUrl : option string) (framesDir : string)
    (audioPath : option string) (designObjects : list SceneObject)
    (duration : Q) (fs : FS) :
  extraction_succeeded env
    (PathMapping.renderBody env design exportId webhookUrl framesDir audioPath
       designObjects duration fs) →
  uploaded
    (events (PathMapping.renderBody env design exportId webhookUrl framesDir
               audioPath designObjects duration fs)) = []
  ∧ Forall (λ report, report.2 = "rendering_frames")
      (reported
         (events (PathMapping.renderBody env design exportId webhookUrl framesDir
                    audioPath designObjects duration fs))).
Proof.
  change (merged_in_silence env
            (PathMapping.renderBody env design exportId webhookUrl framesDir
               audioPath designObjects duration fs)).
  unfold PathMapping.renderBody, PathMapping.captureFrames.
  pose proof (capturing_mapping_browser env) as Hb.
  repeat (apply merged_in_silence_bind;
          [first [apply Hb
                 |apply quiet_emit; exact I
                 |apply quiet_try_catch; [apply Hb|intros ?; apply quiet_emit; exact I]
                 |apply quiet_when, quiet_emit; exact I
                 |apply capturing_mapping_captureLoop]
          |intros ?]).
  apply merged_in_silence_fallback.
  - apply untold_mergeVideo.
  - apply no_extraction_tail.
Qed.

Lemma fallback_success_skips_upload_witness :
  uploaded
    (events (PathMapping.renderBody Scenario.drifting Scenario.mutedTalk "job1"
               None "/tmp/job1" None [Scenario.talk] 1
               {[ "/srv/media/talk.mp4" ]})) = [].
Proof.
  refine (proj1 (fallback_success_skips_upload Scenario.drifting
                   Scenario.mutedTalk "job1" None "/tmp/job1" None
                   [Scenario.talk] 1 {[ "/srv/media/talk.mp4" ]} _)).
  exists "/srv/media/talk.mp4", "/tmp/job1". split; [|by eexists].
  assert (frameExtractions
            (events (PathMapping.renderBody Scenario.drifting Scenario.mutedTalk
                       "job1" None "/tmp/job1" None [Scenario.talk] 1
                       {[ "/srv/media/talk.mp4" ]}))
          = [("/srv/media/talk.mp4", "/tmp/job1")]) as ->
    by (vm_compute; reflexivity).
  apply elem_of_cons. by left.
Defined.

(** ** [ffmpegRenderer.ts] *)

Section FfmpegRendererFacts.
Import FfmpegRenderer.
Context (JSON_parse : string → option Parsed) (show : Q → string)
        (spawn : list string → ProcessEnd).

Lemma num_or_nonzero (n : option Q) (d : Q) :
  ¬ (d == 0)%Q → ¬ (num_or n d == 0)%Q.
Proof.
  intros Hd. unfold num_or. destruct n as [q|]; [|done].
  destruct (Qeq_bool q 0) eqn:E; [done|]. by apply Qeq_bool_neq.
Qed.

Lemma pushElements_from (acc : list MediaElement) (objects : list DesignObject) :
  fold_left
    (λ elements obj,
       if bool_decide (visible obj = Some false) then elements
       else elements ++ [toElement obj])
    objects acc
  = acc ++ map toElement (List.filter shown objects).
Proof.
  revert acc. induction objects as [|obj objects IH]; intros acc;
    cbn [fold_left List.filter map].
  - by rewrite app_nil_r.
  - rewrite IH. unfold shown at 2.
    destruct (bool_decide (visible obj = Some false)); cbn [negb map]; [done|].
    by rewrite <-app_assoc.
Qed.

Lemma isVideoElement_toElement (obj : DesignObject) :
  isVideoElement (toElement obj)
  = bool_decide (JS.or_else (customType obj) (type obj) = Some "video")
    && JS.truthy_opt (src obj).
Proof.
  unfold isVideoElement, toElement. cbn [e_type e_src].
  by destruct (JS.truthy_opt (src obj)) eqn:E; rewrite ?E, ?andb_false_r.
Qed.

Lemma first_video_element (objects : list DesignObject) :
  head (List.filter isVideoElement (map toElement (List.filter shown objects)))
  = toElement <$> List.find playable objects.
Proof.
  induction objects as [|obj objects IH]; [done|].
  cbn [List.filter List.find]. unfold playable at 1.
  destruct (shown obj); cbn [andb map List.filter]; [|exact IH].
  rewrite isVideoElement_toElement.
  destruct (bool_decide _ && JS.truthy_opt (src obj)); [done|exact IH].
Qed.

Lemma getCanvasConfig_parsed (design : Design) (objects : list DesignObject) :
  objectsOf JSON_parse design = Some objects →
  ∃ canvas, getCanvasConfig JSON_parse design = Some canvas
            ∧ ¬ (cc_width canvas == 0)%Q ∧ ¬ (cc_height canvas == 0)%Q.
Proof.
  unfold objectsOf, getCanvasConfig.
  destruct (parsedLayers JSON_parse design) as [layers|]; [|done].
  intros _. eexists. split; [done|]. cbn [cc_width cc_height].
  split; by apply num_or_nonzero.
Qed.

Lemma hidden_elements_shape (design : Design) :
  extractMediaElements JSON_parse design
  = (λ objects, map toElement (List.filter shown objects))
    <$> objectsOf JSON_parse design
  ∧ ∀ objects, objectsOf JSON_parse design = Some objects →
      ∃ canvas, getCanvasConfig JSON_parse design = Some canvas
                ∧ ¬ (cc_width canvas == 0)%Q ∧ ¬ (cc_height canvas == 0)%Q.
Proof.
  split; [|apply getCanvasConfig_parsed].
  unfold extractMediaElements, pushElements.
  destruct (objectsOf JSON_parse design) as [objects|]; [|done].
  by rewrite pushElements_from.
Qed.

(** X24. [extractMediaElements] drops the elements whose [visible] is
    [false] and turns the others into media elements, in the order of
    the design; no media element has a width or a height of zero, for
    a missing or zero size is replaced by 100. *)
Theorem hidden_elements_dropped (design : Design) :
  extractMediaElements JSON_parse design
  = (λ objects, map toElement (List.filter shown objects))
    <$> objectsOf JSON_parse design
  ∧ ∀ elements,
      extractMediaElements JSON_parse design = Some elements →
      Forall (λ e, ¬ (e_width e == 0)%Q ∧ ¬ (e_height e == 0)%Q) elements.
Proof.
  unfold extractMediaElements, pushElements.
  destruct (objectsOf JSON_parse design) as [objects|]; [|done].
  rewrite pushElements_from. cbn [app fmap option_fmap option_map].
  split; [done|]. intros elements [= <-].
  apply List.Forall_map, Forall_forall. intros obj _.
  cbn [toElement e_width e_height]. split; by apply num_or_nonzero.
Qed.

(** X25. [renderVideoWithFFmpeg] encodes the first video of the design
    that is shown and has a source.  When [JSON.parse] throws it
    rejects with that error, and when the design has no such video it
    rejects with [No video elements found in design], in both cases
    without running [ffmpeg].  Otherwise it runs [ffmpeg] once, with
    the source of that video as the input and
    [storage/exports/videos/<exportId>.mp4] as the output, and it
    returns that path exactly when [ffmpeg] ends with exit code 0. *)
Theorem ffmpeg_encodes_first_video (design : Design) (exportId : string) :
  match objectsOf JSON_parse design with
  | None =>
      renderVideoWithFFmpeg JSON_parse show spawn design exportId
      = mkRendering None (inl ParseFailure)
  | Some objects =>
      match List.find playable objects with
      | None =>
          renderVideoWithFFmpeg JSON_parse show spawn design exportId
          = mkRendering None (inl NoVideoElements)
      | Some obj =>
          ∃ command,
            spawned (renderVideoWithFFmpeg JSON_parse show spawn design exportId)
            = Some command
            ∧ command !! 3%nat = src obj
            ∧ last command = Some (outputPathOf exportId)
            ∧ (settled (renderVideoWithFFmpeg JSON_parse show spawn design
                          exportId) = inr (outputPathOf exportId)
               ↔ spawn command = Closed 0)
      end
  end.
Proof.
  unfold renderVideoWithFFmpeg.
  destruct (hidden_elements_shape design) as [Hex Hcanvas].
  rewrite Hex.
  destruct (objectsOf JSON_parse design) as [objects|] eqn:Hobj; [|done].
  cbn [fmap option_fmap option_map].
  destruct (Hcanvas objects eq_refl) as (canvas & -> & _).
  pose proof (first_video_element objects) as Hfirst.
  destruct (List.find playable objects) as [obj|] eqn:Hfind;
    destruct (List.filter isVideoElement _) as [|primaryVideo rest];
    try discriminate; [|done].
  cbn in Hfirst. injection Hfirst as ->.
  eexists. cbn [spawned settled]. split; [done|].
  apply find_some in Hfind as [_ Hp]. unfold playable in Hp.
  apply andb_true_iff in Hp as [_ Hsrc].
  split.
  { cbn. by destruct (src obj) as [s|]; [destruct s|]. }
  split; [done|].
  destruct (spawn _) as [code|]; [|done].
  destruct (Z.eqb_spec code 0) as [->|Hne]; [done|].
  split; [done|]. intros [= ?]. done.
Qed.

End FfmpegRendererFacts.

(** ** The injected seek function waits for every video *)

(** X26. The injected seek function returns when the slowest video has
    settled, in either revision: when the call returns after [t]
    milliseconds, every video's promise has settled by then, and, if
    there is a video at all, one of them settled exactly then. *)
Theorem seek_waits_for_slowest (time : Q) (videos : list Seek.Video) (t : N) :
  Seek.SEEK_VIDEO_guarded (Fin time) videos = Some t →
  Seek.SEEK_VIDEO time videos = Some t
  ∧ Forall (λ v, ∃ a, Seek.settles_at v (Seek.seekExecutor time v) = Some a
                      ∧ (a ≤ t)%N) videos
  ∧ (videos ≠ [] →
     Exists (λ v, Seek.settles_at v (Seek.seekExecutor time v) = Some t) videos).
Proof.
  cbn [Seek.SEEK_VIDEO_guarded]. intros Hcall. split; [done|].
  destruct videos as [|v0 videos]; [split; [constructor|done]|].
  cbn [Seek.SEEK_VIDEO] in Hcall.
  destruct (all_settled_slowest _ _ Hcall) as [Hall Hmax]. split.
  - exact (proj1 (List.Forall_map _ _ _) Hall).
  - intros _. apply Exists_exists.
    assert (Hin : Some t ∈ map (λ v, Seek.settles_at v (Seek.seekExecutor time v))
                    (v0 :: videos)) by (by apply Hmax).
    apply list_elem_of_In, in_map_iff in Hin as (v & Hv & Hin).
    exists v. split; [by apply list_elem_of_In|done].
Qed.

Lemma seek_waits_for_slowest_witness :
  Exists (λ v, Seek.settles_at v (Seek.seekExecutor (3 # 2) v) = Some 120%N)
    [Seek.mkVideo (149 # 100) None; Seek.mkVideo 0 (Some 120%N)].
Proof.
  refine (proj2 (proj2 (seek_waits_for_slowest (3 # 2)
                          [Seek.mkVideo (149 # 100) None;
                           Seek.mkVideo 0 (Some 120%N)] 120 _)) _).
  - vm_compute. reflexivity.
  - discriminate.
Defined.

(** ** The upload that never happens *)

(** *** Paths that cannot be the same *)

Lemma append_nil (s : string) : "" +:+ s = s.
Proof. reflexivity. Qed.

Lemma append_assoc (a b c : string) : (a +:+ b) +:+ c = a +:+ (b +:+ c).
Proof.
  induction a as [|x a IH]; [done|]. by rewrite !append_cons, IH.
Qed.

Lemma append_inj_length (a b s t : string) :
  a +:+ s = b +:+ t → String.length s = String.length t → a = b ∧ s = t.
Proof.
  revert b. induction a as [|x a IH]; intros [|y b] H Hlen.
  - done.
  - apply (f_equal String.length) in H. rewrite append_nil in H.
    rewrite length_append in H. simpl in H. lia.
  - apply (f_equal String.length) in H. rewrite append_nil in H.
    rewrite length_append in H. simpl in H. lia.
  - rewrite !append_cons in H. injection H as -> H.
    destruct (IH b H Hlen) as [-> ->]. done.
Qed.

(** Two paths with different endings of the same length differ. *)
Lemma endings_differ (a b s t : string) :
  String.length s = String.length t → s ≠ t → a +:+ s ≠ b +:+ t.
Proof. intros Hlen Hne H. by destruct (append_inj_length a b s t H Hlen). Qed.

Lemma rev_app_append (a b : string) :
  String.rev_app a b = String.rev_app a "" +:+ b.
Proof.
  revert b. induction a as [|x a IH]; intros b; cbn [String.rev_app]; [done|].
  rewrite IH, (IH (String x "")), append_assoc. done.
Qed.

(** A directory above [q] is a part of [q] that ends before a slash. *)
Lemma parents_go_prefix (acc q x : string) :
  x ∈ parents_go acc q →
  ∃ pre rest, q = pre +:+ "/" +:+ rest ∧ x = String.rev acc +:+ pre.
Proof.
  revert acc. induction q as [|c q IH]; intros acc; cbn [parents_go].
  - by rewrite elem_of_nil.
  - rewrite elem_of_app. intros [Hx|Hx].
    + destruct (Ascii.eqb_spec c "/") as [->|]; [|by apply elem_of_nil in Hx].
      destruct (JS.truthy acc); [|by apply elem_of_nil in Hx].
      cbn [andb] in Hx. apply elem_of_cons in Hx as [->|Hx];
        [|by apply elem_of_nil in Hx].
      exists "", q. split; [done|]. unfold String.rev.
      induction (String.rev_app acc "") as [|y s IHs]; [done|].
      by rewrite append_cons, <-IHs.
    + destruct (IH _ Hx) as (pre & rest & -> & ->).
      exists (String c pre), rest. split; [by rewrite append_cons|].
      unfold String.rev. cbn [String.rev_app].
      by rewrite (rev_app_append acc (String c "")), append_assoc.
Qed.

Lemma parents_prefix (q x : string) :
  x ∈ parents q → ∃ rest, q = x +:+ "/" +:+ rest.
Proof.
  intros Hx. destruct (parents_go_prefix "" q x Hx) as (pre & rest & -> & ->).
  by exists rest.
Qed.

Lemma parents_shorter (q x : string) :
  x ∈ parents q → (String.length x < String.length q)%nat.
Proof.
  intros Hx. destruct (parents_prefix q x Hx) as [rest ->].
  rewrite !length_append. simpl. lia.
Qed.

(** *** Computations that leave the video missing *)

Section Unready.
Context (p : string).

Lemma unready_ret {A} (a : A) : unready p (ret a).
Proof. by intros fs Hp. Qed.

Lemma unready_throw {A} (e : Error) : unready p (@throw A e).
Proof. by intros fs Hp. Qed.

Lemma unready_emit (e : Event) : (∀ u, e ≠ EvUpload u) → unready p (emit e).
Proof. intros He fs Hp. split; [done|]. destruct e; try done. by destruct (He url). Qed.

Lemma unready_existsSync (q : string) : unready p (existsSync q).
Proof. by intros fs Hp. Qed.

Lemma unready_get_fs : unready p get_fs.
Proof. by intros fs Hp. Qed.

Lemma unready_update_fs (f : FS → FS) :
  (∀ fs, p ∉ fs → p ∉ f fs) → unready p (update_fs f).
Proof. intros Hf fs Hp. split; [by apply Hf|done]. Qed.

Lemma unready_add (X : FS) : p ∉ X → unready p (update_fs (λ fs, X ∪ fs)).
Proof.
  intros HX. apply unready_update_fs. intros fs Hp.
  rewrite elem_of_union. by intros [?|?].
Qed.

Lemma unready_bind {A B} (m : M A) (k : A → M B) :
  unready p m → (∀ a, unready p (k a)) → unready p (bind m k).
Proof.
  intros Hm Hk fs Hp. unfold bind. destruct (Hm fs Hp) as [Hp1 Hu1].
  destruct (outcome (m fs)) as [a|e]; cbn [fs_after events]; [|done].
  destruct (Hk a _ Hp1) as [Hp2 Hu2]. by rewrite uploaded_app, Hu1, Hu2.
Qed.

Lemma unready_try_catch {A} (m : M A) (h : Error → M A) :
  unready p m → (∀ e, unready p (h e)) → unready p (try_catch m h).
Proof.
  intros Hm Hh fs Hp. unfold try_catch. destruct (Hm fs Hp) as [Hp1 Hu1].
  destruct (outcome (m fs)) as [a|e]; cbn [fs_after events]; [done|].
  destruct (Hh e _ Hp1) as [Hp2 Hu2]. by rewrite uploaded_app, Hu1, Hu2.
Qed.

Lemma unready_try_finally {A} (m : M A) (f : M unit) :
  unready p m → unready p f → unready p (try_finally m f).
Proof.
  intros Hm Hf fs Hp. unfold try_finally. cbn [fs_after events].
  destruct (Hm fs Hp) as [Hp1 Hu1]. destruct (Hf _ Hp1) as [Hp2 Hu2].
  by rewrite uploaded_app, Hu1, Hu2.
Qed.

Lemma unready_when (b : bool) (m : M unit) : unready p m → unready p (when b m).
Proof. destruct b; [done|intros _; apply unready_ret]. Qed.

Lemma unready_map_each {A} (l : list A) (body : A → M A) :
  (∀ x, unready p (body x)) → unready p (map_each l body).
Proof.
  intros Hbody. induction l as [|x l IH]; cbn [map_each].
  - apply unready_ret.
  - apply unready_bind; [done|]. intros y.
    apply unready_bind; [done|]. intros ys. apply unready_ret.
Qed.

(** While the file is missing, the test for it fails. *)
Lemma unready_guard {A} (k : bool → M A) :
  unready p (k false) → unready p (bind (existsSync p) k).
Proof.
  intros Hk fs Hp.
  rewrite (bind_ok (existsSync p) k fs (bool_decide (p ∈ fs)) eq_refl).
  cbn [existsSync outcome fs_after events]. rewrite bool_decide_eq_false_2 by done.
  apply Hk. done.
Qed.

End Unready.

Ltac unready_step :=
  match goal with
  | |- unready ?p (bind (existsSync ?p) _) => apply unready_guard
  | |- unready _ (bind _ _) => apply unready_bind; [|intros ?]
  | |- unready _ (ret _) => apply unready_ret
  | |- unready _ (throw _) => apply unready_throw
  | |- unready _ (emit _) => apply unready_emit; discriminate
  | |- unready _ (existsSync _) => apply unready_existsSync
  | |- unready _ get_fs => apply unready_get_fs
  | |- unready _ (when _ _) => apply unready_when
  | |- unready _ (try_catch _ _) => apply unready_try_catch; [|intros ?]
  | |- unready _ (try_finally _ _) => apply unready_try_finally
  | |- unready _ (map_each _ _) => apply unready_map_each; intros ?
  | |- unready _ (if ?b then _ else _) => destruct b
  | |- unready _ (match ?x with _ => _ end) => destruct x
  | |- unready _ _ => solve [auto with unready]
  end.

Ltac unready_auto := repeat unready_step.

Create HintDb unready.

Section UnreadyCalls.
Context (env : Env) (p : string).

Lemma unready_mkdir q :
  p ≠ q → p ∉ parents q → unready p (mkdir env q).
Proof.
  intros Hne Hnp. unfold mkdir. unready_auto.
  apply unready_add. rewrite elem_of_union, elem_of_singleton, elem_of_list_to_set.
  by intros [?|?].
Qed.

Lemma unready_writeFile q : p ≠ q → unready p (writeFile env q).
Proof.
  intros Hne. unfold writeFile. unready_auto.
  apply unready_add. by rewrite elem_of_singleton.
Qed.

Lemma unready_reportProgress exportId webhookUrl progress status :
  unready p (reportProgress env exportId webhookUrl progress status).
Proof. unfold reportProgress. unready_auto. Qed.

Lemma unready_designObjectsOf design : unready p (designObjectsOf env design).
Proof. unfold designObjectsOf. unready_auto. Qed.

Lemma unready_staging_browser c : unready p (AssetStaging.browser env c).
Proof. unfold AssetStaging.browser. unready_auto. Qed.

Lemma unready_mapping_browser c : unready p (PathMapping.browser env c).
Proof. unfold PathMapping.browser. unready_auto. Qed.

Lemma unready_extractAudio design outputDir :
  p ≠ audioOutput env outputDir → unready p (extractAudio env design outputDir).
Proof.
  intros Hne. unfold extractAudio. unready_auto.
  apply unready_add. by rewrite elem_of_singleton.
Qed.

Lemma unready_extractFrames videoPath outputDir rate duration :
  p ≠ outputDir → p ∉ parents outputDir → (∀ i, p ≠ frame_path outputDir i) →
  unready p (extractVideoFramesWithFFmpeg env videoPath outputDir rate duration).
Proof.
  intros Hne Hnp Hframes. unfold extractVideoFramesWithFFmpeg.
  pose proof (unready_mkdir outputDir Hne Hnp). unready_auto.
  apply unready_add. rewrite elem_of_list_to_set.
  intros Hin. apply list_elem_of_In, in_map_iff in Hin as (i & Hi & _).
  by destruct (Hframes i).
Qed.

Lemma unready_mergeVideo framesDir audio exportId :
  JS.startsWith p ".." = false →
  unready p (mergeVideo env framesDir audio exportId).
Proof.
  intros Hp fs Hout.
  destruct (mergeVideo_effects env framesDir audio exportId fs) as (Hadd & Hup & _).
  split; [|done]. intros Hin. destruct (Hadd _ Hin) as [?|Hdots]; [done|].
  congruence.
Qed.

End UnreadyCalls.

Lemma join_mp4 (d x : string) :
  path_join d (x +:+ ".mp4") = (d +:+ "/" +:+ x) +:+ ".mp4".
Proof. unfold path_join. by rewrite !append_assoc. Qed.

Lemma frame_path_png (d : string) (i : nat) :
  frame_path d i = (d +:+ "/" +:+ "frame_" +:+ pretty i) +:+ ".png".
Proof. unfold frame_path, path_join. by rewrite !append_assoc. Qed.

Lemma mp4_is_no_frame (d x dir : string) (i : nat) :
  path_join d (x +:+ ".mp4") ≠ frame_path dir i.
Proof. rewrite join_mp4, frame_path_png. by apply endings_differ. Qed.

Lemma mp4_is_not (d x dir : string) (name ending : string) :
  String.length ending = 4%nat → ending ≠ ".mp4" →
  path_join d (x +:+ ".mp4") ≠ path_join dir (name +:+ ending).
Proof.
  intros Hlen Hne. rewrite join_mp4.
  replace (path_join dir (name +:+ ending))
    with ((dir +:+ "/" +:+ name) +:+ ending)
    by (unfold path_join; by rewrite !append_assoc).
  apply endings_differ; [by rewrite Hlen|done].
Qed.

Lemma mp4_not_under_assets (x name : string) :
  JS.includes x "/" = false → x +:+ ".mp4" ≠ "assets/" +:+ name.
Proof.
  intros Hx H. rewrite !append_cons, append_nil in H.
  do 6 (destruct x as [|? x];
        [rewrite ?append_cons, ?append_nil in H; discriminate|];
        rewrite append_cons in H; injection H as -> H).
  destruct x as [|c x]; [rewrite append_nil in H; discriminate|].
  rewrite append_cons in H. injection H as -> H.
  destruct x; vm_compute in Hx; discriminate.
Qed.

Lemma includes_mp4_dot (x : string) : JS.includes (x +:+ ".mp4") "." = true.
Proof.
  induction x as [|c x IH]; [done|].
  rewrite append_cons. cbn [JS.includes]. rewrite IH. apply orb_true_r.
Qed.

Lemma mp4_not_dir (d x name : string) :
  (String.length name = 6)%nat → JS.includes name "." = false →
  path_join d (x +:+ ".mp4") ≠ path_join d name
  ∧ path_join d (x +:+ ".mp4") ∉ parents (path_join d name).
Proof.
  intros Hlen Hdot. split.
  - intros H. apply (inj (String.append d)) in H.
    apply (inj (String.append "/")) in H. subst name.
    by rewrite includes_mp4_dot in Hdot.
  - intros Hin. apply parents_prefix in Hin as [rest H].
    unfold path_join in H. rewrite !append_assoc in H.
    apply (inj (String.append d)) in H.
    apply (inj (String.append "/")) in H.
    assert (Hl := f_equal String.length H).
    rewrite !length_append, Hlen in Hl. simpl in Hl.
    subst name.
    destruct x as [|c [|c' s]]; [| |simpl in Hl; lia].
    + by vm_compute in Hdot.
    + rewrite !append_cons, append_nil, includes_cons_l in Hdot.
      apply orb_false_iff in Hdot as [_ Hdot]. by vm_compute in Hdot.
Qed.

Lemma mp4_not_asset (d x name : string) :
  JS.includes x "/" = false →
  path_join d (x +:+ ".mp4") ≠ path_join (path_join d "assets") name.
Proof.
  intros Hx H. unfold path_join in H. rewrite !append_assoc in H.
  apply (inj (String.append d)) in H.
  apply (inj (String.append "/")) in H.
  by apply (mp4_not_under_assets _ _ Hx) in H.
Qed.

Lemma unready_finalizer (env : Env) (p exportId : string) :
  unready p (AssetStaging.finalizer env exportId).
Proof.
  unfold AssetStaging.finalizer, AssetStaging.cleanupExport, rm.
  pose proof (unready_staging_browser env p). unready_auto.
  apply unready_update_fs. intros fs0 Hp0 Hin.
  by apply elem_of_filter in Hin as [_ Hin].
Qed.

Section StagingUpload.
Context (env : Env) (exportId : string).
Hypothesis tmpdir_not_relative : JS.startsWith (tmpdir env) ".." = false.
Hypothesis id_is_a_name : JS.includes exportId "/" = false.

Lemma staged_video_fresh :
  (stagedVideoPath env exportId
   ≠ path_join (path_join (tmpdir env) exportId) "frames"
   ∧ stagedVideoPath env exportId
     ∉ parents (path_join (path_join (tmpdir env) exportId) "frames"))
  ∧ (stagedVideoPath env exportId
     ≠ path_join (path_join (tmpdir env) exportId) "assets"
     ∧ stagedVideoPath env exportId
       ∉ parents (path_join (path_join (tmpdir env) exportId) "assets"))
  ∧ (∀ i, stagedVideoPath env exportId
          ≠ frame_path (path_join (path_join (tmpdir env) exportId) "frames") i)
  ∧ stagedVideoPath env exportId
    ≠ audioOutput env (Some (path_join (tmpdir env) exportId))
  ∧ (∀ url, stagedVideoPath env exportId
            ≠ AssetStaging.asset_path env url
                (path_join (path_join (tmpdir env) exportId) "assets"))
  ∧ JS.startsWith (stagedVideoPath env exportId) ".." = false.
Proof.
  unfold stagedVideoPath.
  split; [by apply mp4_not_dir|]. split; [by apply mp4_not_dir|].
  split; [intros i; apply mp4_is_no_frame|].
  split; [unfold audioOutput;
          apply (mp4_is_not _ exportId _ "audio" ".aac"); done|].
  split; [intros url; by apply mp4_not_asset|].
  by do 2 apply startsWith_dots_join.
Qed.

Lemma unready_staging_renderVideo design webhookUrl :
  unready (stagedVideoPath env exportId)
    (AssetStaging.renderVideo env design exportId webhookUrl).
Proof.
  destruct staged_video_fresh
    as ([Hframes Hframes'] & [Hassets Hassets'] & Hframe & Haudio & Hasset & Hdots).
  revert Hframes Hframes' Hassets Hassets' Hframe Haudio Hasset Hdots.
  unfold AssetStaging.renderVideo, AssetStaging.tryBlock, AssetStaging.renderBody,
    AssetStaging.mergeAndUpload, AssetStaging.prepareDesignAssets.
  change (path_join (path_join (tmpdir env) exportId) (exportId +:+ ".mp4"))
    with (stagedVideoPath env exportId).
  generalize (stagedVideoPath env exportId).
  generalize (path_join (tmpdir env) exportId).
  intros base p Hframes Hframes' Hassets Hassets' Hframe Haudio Hasset Hdots.
  pose proof (unready_mkdir env p _ Hframes Hframes') as Hmk1.
  pose proof (unready_mkdir env p _ Hassets Hassets') as Hmk2.
  pose proof (unready_staging_browser env p) as Hbrowser.
  pose proof (unready_reportProgress env p exportId webhookUrl) as Hreport.
  pose proof (unready_designObjectsOf env p) as Hobjects.
  pose proof (λ url, unready_writeFile env p _ (Hasset url)) as Hwrite.
  pose proof (λ i, unready_writeFile env p _ (Hframe i)) as Hwrite'.
  pose proof (λ v rate d, unready_extractFrames env p v _ rate d
                Hframes Hframes' Hframe) as Hextract.
  pose proof (λ f a, unready_mergeVideo env p f a exportId Hdots) as Hmerge.
  assert (Hloop : ∀ total todo seeks,
            unready p (AssetStaging.captureLoop env exportId webhookUrl
                         (path_join base "frames") total todo seeks)).
  { intros total todo. induction todo as [|i todo IH]; intros seeks;
      cbn [AssetStaging.captureLoop]; [apply unready_ret|].
    apply unready_bind; [|done]. unfold AssetStaging.captureFrame.
    unready_auto; first [apply Hreport|apply Hwrite']. }
  unfold AssetStaging.fallbackCheck, AssetStaging.captureFrames,
    AssetStaging.resolveDuration, AssetStaging.processObjects,
    AssetStaging.processObject, AssetStaging.downloadAsset, readFile.
  unready_auto;
    first [ apply Hmk1 | apply Hmk2 | apply Hbrowser | apply Hreport
          | apply Hobjects | apply Hwrite | apply Hextract | apply Hmerge
          | apply Hloop
          | apply unready_extractAudio; exact Haudio
          | apply unready_finalizer ].
Qed.

End StagingUpload.

Lemma unready_mapping_renderVideo (env : Env) (design : Design)
    (exportId : string) (webhookUrl : option string) :
  JS.startsWith (tmpdir env) ".." = false →
  unready (mappedVideoPath env exportId)
    (PathMapping.renderVideo env design exportId webhookUrl).
Proof.
  intros Htmp.
  assert (Hdir : mappedVideoPath env exportId ≠ path_join (tmpdir env) exportId).
  { intros H. apply (f_equal String.length) in H.
    unfold mappedVideoPath, path_join in H. rewrite !length_append in H.
    simpl in H. lia. }
  assert (Hdir' : mappedVideoPath env exportId
                  ∉ parents (path_join (tmpdir env) exportId)).
  { intros H. apply parents_shorter in H.
    unfold mappedVideoPath, path_join in H. rewrite !length_append in H.
    simpl in H. lia. }
  assert (Hframe : ∀ i, mappedVideoPath env exportId
                        ≠ frame_path (path_join (tmpdir env) exportId) i)
    by (intros i; apply mp4_is_no_frame).
  assert (Haudio : mappedVideoPath env exportId ≠ audioOutput env None)
    by (unfold audioOutput; apply (mp4_is_not _ exportId _ "audio" ".aac"); done).
  assert (Hdots : JS.startsWith (mappedVideoPath env exportId) ".." = false)
    by (by apply startsWith_dots_join).
  revert Hdir Hdir' Hframe Haudio Hdots.
  unfold PathMapping.renderVideo, PathMapping.renderBody.
  change (path_join (tmpdir env) (exportId +:+ ".mp4"))
    with (mappedVideoPath env exportId).
  generalize (mappedVideoPath env exportId).
  generalize (path_join (tmpdir env) exportId).
  intros dir p Hdir Hdir' Hframe Haudio Hdots.
  pose proof (unready_mkdir env p _ Hdir Hdir') as Hmk.
  pose proof (unready_mapping_browser env p) as Hbrowser.
  pose proof (unready_reportProgress env p exportId webhookUrl) as Hreport.
  pose proof (unready_designObjectsOf env p) as Hobjects.
  pose proof (λ i, unready_writeFile env p _ (Hframe i)) as Hwrite.
  pose proof (λ v rate d, unready_extractFrames env p v _ rate d
                Hdir Hdir' Hframe) as Hextract.
  pose proof (λ f a, unready_mergeVideo env p f a exportId Hdots) as Hmerge.
  assert (Hloop : ∀ total todo seeks,
            unready p (PathMapping.captureLoop env exportId webhookUrl dir
                         total todo seeks)).
  { intros total todo. induction todo as [|i todo IH]; intros seeks;
      cbn [PathMapping.captureLoop]; [apply unready_ret|].
    apply unready_bind; [|done]. unfold PathMapping.captureFrame.
    unready_auto; first [apply Hreport|apply Hwrite]. }
  unfold PathMapping.upload, PathMapping.fallbackCheck,
    PathMapping.captureFrames, PathMapping.resolveDuration.
  unready_auto;
    first [ apply Hmk | apply Hbrowser | apply Hreport | apply Hobjects
          | apply Hextract | apply Hmerge | apply Hloop
          | apply unready_extractAudio; exact Haudio ].
Qed.




